(** * flashlight: the masquerade discovery pipeline (genconfig) and the
      proxy client's request director

    A shallow embedding of
    - the [genconfig] program ([grabCerts], [coalesceMasquerades],
      [buildModel], [ByDomain], [ByFreq]), and
    - [proxy/client.go] ([buildReverseProxy]'s [Director], [isNotLoopback]),
    followed by the properties that the specification states about them;
    then of the code around them: the files that [main] reads, the
    [logging] package, [Run] of the proxy client and [statreporter], with
    properties of their own.

    Conventions.
    - Go's [float64] is IEEE 754 binary64: [spec_float] with precision 53
      and maximal exponent 1024, round to nearest even.
    - Go strings are byte strings: [string] (a list of 8-bit [ascii]).
    - [*castat] is an address into a store of [castat] records; the
      aggregator mutates [freq] through these pointers, so the store is
      threaded explicitly.
    - Go maps are [gmap]s.  Where Go ranges over a map (in an unspecified
      order) the model folds over [map_to_list]; the frequency loop is
      proved to give the same result in every order, and the sortedness of
      the model is proved for every order of the list that is sorted.
    - [feedDomains] starts [numberOfWorkers] workers on one channel of
      domains and the aggregator drains one channel of results.  A worker
      is modelled on the list of domains that it receives and the
      aggregator on the list of results that it receives, each in the
      order of arrival; nothing below depends on which lists these are.
    - What the programs call outside themselves (the network, keyman, name
      resolution, the host-spoofing protocol) is a parameter. *)

From Stdlib Require Import ZArith String Ascii List Sorted Permutation.
From Stdlib Require Import Floats.SpecFloat.
From stdpp Require Import gmap strings list fin_maps sorting pretty.

Open Scope Z_scope.

(* ===================================================================== *)
(** * float64 *)
(* ===================================================================== *)

Module F64.

Definition prec : Z := 53.
Definition emax : Z := 1024.

Definition float64 : Type := spec_float.

Definition add : float64 -> float64 -> float64 := SFadd prec emax.
Definition mul : float64 -> float64 -> float64 := SFmul prec emax.
Definition div : float64 -> float64 -> float64 := SFdiv prec emax.

(** [x < y], [x > y], [x <= y], [x == y]: all false as soon as one side
    is NaN. *)
Definition lt (x y : float64) : bool := SFltb x y.
Definition gt (x y : float64) : bool := SFltb y x.
Definition le (x y : float64) : bool := SFleb x y.
Definition eqb (x y : float64) : bool := SFeqb x y.

(** The conversion [float64(n)] of an integer, and of an integer
    constant. *)
Definition of_int (n : Z) : float64 := binary_normalize prec emax n 0 false.

Definition zero : float64 := S754_zero false.

Definition is_nan (x : float64) : bool :=
  match x with S754_nan => true | _ => false end.

(** ** Auxiliary notions for the proofs about float64 *)

(** A position on a line for every float that is not NaN: the sign class,
    then the exponent, then the mantissa. *)
Definition key (x : float64) : Z * Z * Z :=
  match x with
  | S754_zero _ => (0, 0, 0)
  | S754_nan => (0, 0, 0)
  | S754_infinity s => (if s then -2 else 2, 0, 0)
  | S754_finite s m e => if s then (-1, - e, - Z.pos m) else (1, e, Z.pos m)
  end.

(** The lexicographic order of the positions. *)
Definition key_lt (a b : Z * Z * Z) : Prop :=
  a.1.1 < b.1.1 \/
  (a.1.1 = b.1.1 /\ (a.1.2 < b.1.2 \/ (a.1.2 = b.1.2 /\ a.2 < b.2))).

(** Not NaN. *)
Definition number (x : float64) : Prop := is_nan x = false.

(** A mantissa from which shifting has dropped nothing but zeros. *)
Definition exact (m : Z) : shr_record :=
  {| shr_m := m; shr_r := false; shr_s := false |}.

(** The mantissa of [k], shifted to 53 digits. *)
Definition mant (k : Z) : positive := Z.to_pos (k * 2 ^ (53 - Zdigits2 k)).

(** The second normalization of [binary_round_aux], on a mantissa that
    rounding may have carried to [2^53]. *)
Definition finish (s : bool) (m : Z) (e : Z) : float64 :=
  let '(mrs, e') := shr_fexp prec emax m e loc_Exact in
  match shr_m mrs with
  | 0 => S754_zero s
  | Z.pos p =>
    if e' <=? emax - prec then S754_finite s p e' else S754_infinity s
  | Z.neg _ => S754_nan
  end.

(** A float that is finite, positive and at most 100. *)
Definition at_most_100 (f : float64) : Prop :=
  exists m e, f = S754_finite false m e /\
              (e < -46 \/ (e = -46 /\ Z.pos m <= 7036874417766400)).

End F64.

Abbreviation float64 := F64.float64.

Arguments F64.of_int : simpl never.
Arguments F64.add : simpl never.
Arguments F64.mul : simpl never.
Arguments F64.div : simpl never.
Arguments F64.gt : simpl never.
Arguments F64.lt : simpl never.
Arguments F64.le : simpl never.
Arguments F64.eqb : simpl never.

(* ===================================================================== *)
(** * Go's int (64 bits, two's complement) *)
(* ===================================================================== *)

Definition int_wrap (z : Z) : Z := (z + 2 ^ 63) mod 2 ^ 64 - 2 ^ 63.
Definition int_add (a b : Z) : Z := int_wrap (a + b).

(* ===================================================================== *)
(** * Values and library functions of Go used by both programs *)
(* ===================================================================== *)

(** Go's [error], by its message. *)
Definition error : Type := string.

(** A call that returns [(value, err)]. *)
Inductive go_result (A : Type) : Type :=
| Ok (a : A)
| Err (e : error).
Arguments Ok {A} a.
Arguments Err {A} e.

(** [s[i]] on a slice: [None] is the run-time panic "index out of range". *)
Definition slice_index {A : Type} (l : list A) (i : Z) : option A :=
  if i <? 0 then None else l !! Z.to_nat i.

(** The newline byte.  (A Rocq string literal has no escapes: the literal
    written backslash, n below is the two bytes of Go's ["\\n"].) *)
Definition nl : ascii := "010"%char.
Definition newline : string := String nl "".
Definition backslash_n : string := "\n".

(** [strings.Replace(s, old, new, n)] for a non-empty [old]: scanning from
    the left, each of the first [n] non-overlapping instances of [old]
    becomes [new]; [n < 0] means no limit.  [skip] counts the bytes of an
    instance just replaced that are still to be dropped. *)
Fixpoint replace_from (old new : string) (skip : nat) (n : Z) (s : string)
    : string :=
  match s with
  | EmptyString => EmptyString
  | String c s' =>
    match skip with
    | S k => replace_from old new k n s'
    | O =>
      if n =? 0 then s
      else if String.prefix old s
      then new +:+ replace_from old new (String.length old - 1)%nat (n - 1) s'
      else String c (replace_from old new O n s')
    end
  end.

(** The same for the empty [old], which matches before every byte and at
    the end.  (Go matches at UTF-8 sequence boundaries; bytes and sequences
    coincide on ASCII text.) *)
Fixpoint replace_empty (new : string) (n : Z) (s : string) : string :=
  if n =? 0 then s
  else match s with
       | EmptyString => new
       | String c s' => new +:+ String c (replace_empty new (n - 1) s')
       end.

Definition strings_Replace (s old new : string) (n : Z) : string :=
  if bool_decide (old = new) || (n =? 0) then s
  else if bool_decide (old = EmptyString) then replace_empty new n s
  else replace_from old new O n s.

(** Every newline byte replaced by the two bytes backslash, n: what the
    specification says of the stored certificate, written directly. *)
Fixpoint escape_newlines (s : string) : string :=
  match s with
  | EmptyString => EmptyString
  | String c s' =>
    if decide (c = nl) then String "\"%char (String "n"%char (escape_newlines s'))
    else String c (escape_newlines s')
  end.

(** [strings.Split(s, sep)] for a non-empty [sep]: the substrings between
    the non-overlapping instances of [sep], scanning from the left; [cur]
    is the piece being read. *)
Fixpoint split_from (sep : string) (skip : nat) (cur : string) (s : string)
    : list string :=
  match s with
  | EmptyString => [cur]
  | String c s' =>
    match skip with
    | S k => split_from sep k cur s'
    | O =>
      if String.prefix sep s
      then cur :: split_from sep (String.length sep - 1)%nat EmptyString s'
      else split_from sep O (cur +:+ String c EmptyString) s'
    end
  end.

(** With an empty [sep] Go splits after each UTF-8 sequence (here: byte). *)
Definition strings_Split (s sep : string) : list string :=
  if bool_decide (sep = EmptyString)
  then (fun c => String c EmptyString) <$> list_ascii_of_string s
  else split_from sep O EmptyString s.

(** [net.IP]: a slice of bytes, of length 4 or 16. *)
Definition net_IP : Type := list Z.

(* ===================================================================== *)
(** * genconfig *)
(* ===================================================================== *)

Module Genconfig.

(** ** Data model *)

(** The address of a [castat]; the type has no nil: every [RootCA] that
    [grabCerts] sends is the address of a freshly built record. *)
Definition ptr : Type := positive.

Record castat : Type := mkCastat {
  CommonName : string;
  Cert : string;
  freq : float64
}.

Record masquerade : Type := mkMasquerade {
  Domain : string;
  IpAddress : string;
  RootCA : ptr
}.

(** Go's zero value of the struct. *)
Definition castat_zero : castat := mkCastat "" "" F64.zero.

#[export] Instance castat_inhabited : Inhabited castat := populate castat_zero.

(** The store of [castat] records.  Go has no dangling pointers: every
    address holds a record, and an address that the map does not bind
    holds the zero value. *)
Abbreviation store := (gmap ptr castat).

(** [ca.freq = f] *)
Definition set_freq (f : float64) (c : castat) : castat :=
  {| CommonName := CommonName c; Cert := Cert c; freq := f |}.

Definition store_freq (h : store) (ca : ptr) (f : float64) : store :=
  <[ca := set_freq f (h !!! ca)]> h.

(** ** coalesceMasquerades *)

(** The local variables of the first loop, and the store. *)
Record coalesced : Type := mkCoalesced {
  count : Z;
  allCAs : gmap string ptr;
  allMasquerades : list masquerade;
  heap : store
}.

Definition coalesce_init (h : store) : coalesced :=
  {| count := 0; allCAs := ∅; allMasquerades := []; heap := h |}.

(** One iteration of [for masquerade := range masqueradesCh]. *)
Definition coalesce_step (st : coalesced) (m : masquerade) : coalesced :=
  let h := heap st in
  let ca :=
    match allCAs st !! Cert (h !!! RootCA m) with
    | Some p => p
    | None => RootCA m
    end in
  let h' := store_freq h ca (F64.add (freq (h !!! ca)) (F64.of_int 1)) in
  {| count := int_add (count st) 1;
     allCAs := <[Cert (h' !!! ca) := ca]> (allCAs st);
     allMasquerades := allMasquerades st ++ [m];
     heap := h' |}.

Definition coalesce (h : store) (results : list masquerade) : coalesced :=
  fold_left coalesce_step results (coalesce_init h).

(** [float64(f*100) / float64(count)] *)
Definition relative_freq (count : Z) (f : float64) : float64 :=
  F64.div (F64.mul f (F64.of_int 100)) (F64.of_int count).

(** One iteration of [for _, ca := range allCAs]. *)
Definition trust_step (minFreq : float64) (count : Z)
    (acc : store * gmap string ptr) (entry : string * ptr)
    : store * gmap string ptr :=
  let ca := entry.2 in
  let h' := store_freq acc.1 ca (relative_freq count (freq (acc.1 !!! ca))) in
  if F64.gt (freq (h' !!! ca)) minFreq
  then (h', <[Cert (h' !!! ca) := ca]> acc.2)
  else (h', acc.2).

(** The second loop, over the entries of [allCAs] in the order [entries]. *)
Definition trust_over (minFreq : float64) (count : Z) (h : store)
    (entries : list (string * ptr)) : store * gmap string ptr :=
  fold_left (trust_step minFreq count) entries (h, ∅).

(** The third loop. *)
Definition pick_trusted (h : store) (trustedCAs : gmap string ptr)
    (all : list masquerade) : list masquerade :=
  filter (fun m => is_Some (trustedCAs !! Cert (h !!! RootCA m))) all.

(** Everything the function has computed when it returns. *)
Record aggregated : Type := mkAggregated {
  phase1 : coalesced;
  trustedCAs : gmap string ptr;
  trustedMasquerades : list masquerade;
  final_heap : store
}.

Definition aggregate (minFreq : float64) (h : store)
    (results : list masquerade) : aggregated :=
  let st := coalesce h results in
  let '(h', trusted) :=
    trust_over minFreq (count st) (heap st) (map_to_list (allCAs st)) in
  {| phase1 := st;
     trustedCAs := trusted;
     trustedMasquerades := pick_trusted h' trusted (allMasquerades st);
     final_heap := h' |}.

(** [coalesceMasquerades]: the two values returned, and the store. *)
Definition coalesceMasquerades (minFreq : float64) (h : store)
    (results : list masquerade)
    : gmap string ptr * list masquerade * store :=
  let r := aggregate minFreq h results in
  (trustedCAs r, trustedMasquerades r, final_heap r).

(** ** grabCerts *)

(** [x509.Certificate], as far as it is read here. *)
Record x509_Certificate : Type := mkX509 {
  Subject_CommonName : string;
  Raw : string
}.

(** [tlsdialer.ConnWithTimings], as far as it is read here. *)
Record ConnWithTimings : Type := mkConnWithTimings {
  VerifiedChains : list (list x509_Certificate);
  ResolvedAddr_IP : net_IP
}.

(** What lies outside the program: the network and the two libraries.
    - [DialForTimings addr] is the result of
      [tlsdialer.DialForTimings(&net.Dialer{Timeout: 10 * time.Second},
      "tcp", addr, false, nil)]; every failure of resolving, connecting
      and handshaking, and the timeout, is an [Err].
    - [LoadCertificateFromX509] and [PEMEncoded] are keyman's.
    - [IP_String] is [net.IP.String]. *)
Record Env : Type := mkEnv {
  keyman_Certificate : Type;
  DialForTimings : string -> go_result ConnWithTimings;
  LoadCertificateFromX509 : x509_Certificate -> go_result keyman_Certificate;
  PEMEncoded : keyman_Certificate -> string;
  IP_String : net_IP -> string
}.

(** What a worker does that can be observed from outside. *)
Inductive event : Type :=
| EvLog (level : string) (format : string) (args : list string)
| EvDial (addr : string)
| EvConnClose
| EvSend (m : masquerade).

Record worker : Type := mkWorker {
  w_heap : store;
  w_trace : list event
}.

Definition emit (e : event) (w : worker) : worker :=
  {| w_heap := w_heap w; w_trace := w_trace w ++ [e] |}.

(** [&castat{...}]: a new address. *)
Definition alloc (c : castat) (w : worker) : ptr * worker :=
  let p := fresh (dom (w_heap w)) in
  (p, {| w_heap := <[p := c]> (w_heap w); w_trace := w_trace w |}).

(** How the body of the loop is left. *)
Inductive step_result : Type :=
| Continue (w : worker)
| Panic (w : worker) (msg : string).

(** The body of [for domain := range domainsCh]. *)
Definition grabCerts_body (env : Env) (blacklist : gmap string bool)
    (w : worker) (domain : string) : step_result :=
  if bool_decide (is_Some (blacklist !! domain)) then
    Continue (emit (EvLog "TRACE" "Domain %s is blacklisted, skipping" [domain]) w)
  else
    let w := emit (EvLog "TRACE" "Grabbing certs for domain: %s" [domain]) w in
    let w := emit (EvDial (domain +:+ ":443")) w in
    match DialForTimings env (domain +:+ ":443") with
    | Err err =>
      Continue (emit (EvLog "ERROR" "Unable to dial domain %s: %s" [domain; err]) w)
    | Ok cwt =>
      let w := emit EvConnClose w in
      match slice_index (VerifiedChains cwt) 0 with
      | None => Panic w "index out of range"
      | Some chain =>
        match slice_index chain (Z.of_nat (length chain) - 1) with
        | None => Panic w "index out of range"
        | Some rootCA =>
          match LoadCertificateFromX509 env rootCA with
          | Err err =>
            Continue (emit (EvLog "ERROR" "Unablet to load keyman certificate: %s" [err]) w)
          | Ok rootCert =>
            let '(ca, w) :=
              alloc {| CommonName := Subject_CommonName rootCA;
                       Cert := strings_Replace (PEMEncoded env rootCert)
                                 newline backslash_n (-1);
                       freq := F64.zero |} w in
            Continue (emit (EvSend {| Domain := domain;
                                      IpAddress := IP_String env (ResolvedAddr_IP cwt);
                                      RootCA := ca |}) w)
          end
        end
      end
    end.

(** How the worker ends: the channel of domains is drained and closed
    ([Done], after which [wg.Done()] runs), or a panic ends the process. *)
Inductive outcome : Type :=
| Done (w : worker)
| Panicked (w : worker) (msg : string) (unread : list string).

(** [grabCerts], on the domains that this worker receives, in order. *)
Fixpoint grabCerts (env : Env) (blacklist : gmap string bool)
    (domains : list string) (w : worker) : outcome :=
  match domains with
  | [] => Done w
  | domain :: rest =>
    match grabCerts_body env blacklist w domain with
    | Continue w' => grabCerts env blacklist rest w'
    | Panic w' msg => Panicked w' msg rest
    end
  end.

Definition outcome_worker (o : outcome) : worker :=
  match o with Done w => w | Panicked w _ _ => w end.

(** The addresses dialled and the masquerades sent, in order. *)
Definition dialled (t : list event) : list string :=
  omap (fun e => match e with EvDial a => Some a | _ => None end) t.

Definition sent (t : list event) : list masquerade :=
  omap (fun e => match e with EvSend m => Some m | _ => None end) t.

(** The results as [grabCerts] sends them: every masquerade points to a
    [castat] of its own, whose [freq] is still Go's zero value. *)
Definition fresh_results (h : store) (results : list masquerade) : Prop :=
  NoDup (RootCA <$> results) /\
  forall m, m ∈ results -> freq (h !!! RootCA m) = F64.zero.

(** The number of results whose root CA has the certificate [cert]. *)
Definition occurrences (h : store) (cert : string) (results : list masquerade)
    : nat :=
  length (filter (fun m => Cert (h !!! RootCA m) = cert) results).

(** ** sort.Sort, ByFreq, ByDomain, buildModel *)

(** [sort.Sort] belongs to Go's standard library: it sorts in ascending
    order as determined by [Less], makes no promise about the order of
    elements that compare equal, and reads the data only through [Less].
    It is modelled by insertion sort over [less]; no property below relies
    on the relative order of equal elements. *)
Fixpoint sort_insert {A : Type} (less : A -> A -> bool) (x : A) (l : list A)
    : list A :=
  match l with
  | [] => [x]
  | y :: l' => if less y x then y :: sort_insert less x l' else x :: y :: l'
  end.

Fixpoint sort_Sort {A : Type} (less : A -> A -> bool) (l : list A) : list A :=
  match l with
  | [] => []
  | x :: l' => sort_insert less x (sort_Sort less l')
  end.

(** [func (a ByDomain) Less(i, j int) bool { return a[i].Domain < a[j].Domain }]
    Go compares strings byte by byte. *)
Definition ByDomain_Less (a b : masquerade) : bool :=
  String.ltb (Domain a) (Domain b).

(** [func (a ByFreq) Less(i, j int) bool { return a[i].freq > a[j].freq }] *)
Definition ByFreq_Less (h : store) (a b : ptr) : bool :=
  F64.gt (freq (h !!! a)) (freq (h !!! b)).

(** [type filter map[string]bool] *)
Abbreviation domain_filter := (gmap string bool).

(** The three entries of the map that [buildModel] returns. *)
Record model : Type := mkModel {
  model_cas : list ptr;
  model_masquerades : list masquerade;
  model_proxiedsites : domain_filter
}.

Definition buildModel (proxiedSites : domain_filter) (h : store)
    (cas : gmap string ptr) (masquerades : list masquerade) : model :=
  let casList := (map_to_list cas).*2 in
  {| model_cas := sort_Sort (ByFreq_Less h) casList;
     model_masquerades := sort_Sort ByDomain_Less masquerades;
     model_proxiedsites := proxiedSites |}.

(** The two calls of [main]:
    [cas, masquerades := coalesceMasquerades(); model := buildModel(cas, masquerades)]. *)
Definition main_model (proxiedSites : domain_filter) (minFreq : float64)
    (h : store) (results : list masquerade) : model * store :=
  let '(cas, masquerades, h') := coalesceMasquerades minFreq h results in
  (buildModel proxiedSites h' cas masquerades, h').

(** ** Auxiliary notions for the proofs *)

(** Every entry of a map of CAs is filed under the certificate of the
    record it points to. *)
Definition keyed (h : store) (cas : gmap string ptr) : Prop :=
  forall k p, cas !! k = Some p -> Cert (h !!! p) = k.

(** What the loop leaves behind, when it runs over entries with distinct
    keys and distinct addresses, each filed under its certificate. *)
Record trust_post (mf : float64) (c : Z) (h : store)
    (l : list (string * ptr)) (r : store * gmap string ptr) : Prop := {
  post_Cert : forall q, Cert (r.1 !!! q) = Cert (h !!! q);
  post_CommonName : forall q, CommonName (r.1 !!! q) = CommonName (h !!! q);
  post_untouched : forall q, q ∉ l.*2 -> r.1 !!! q = h !!! q;
  post_freq : forall k p, (k, p) ∈ l ->
    freq (r.1 !!! p) = relative_freq c (freq (h !!! p));
  post_trusted : forall k p,
    r.2 !! k = Some p <-> (k, p) ∈ l /\ F64.gt (freq (r.1 !!! p)) mf = true
}.

(** What the first loop has counted, on results as [grabCerts] sends
    them. *)
Record counted (h : store) (l : list masquerade) (st : coalesced) : Prop := {
  cnt_origin : forall k p, allCAs st !! k = Some p ->
    exists m, m ∈ l /\ RootCA m = p;
  cnt_untouched : forall q, (forall m, m ∈ l -> RootCA m <> q) ->
    heap st !!! q = h !!! q;
  cnt_freq : forall k p, allCAs st !! k = Some p ->
    freq (heap st !!! p) = F64.of_int (Z.of_nat (occurrences h k l));
  cnt_count : count st = Z.of_nat (length l)
}.

(** [a] may stand before [b] in a list sorted by [less]. *)
Definition before {A : Type} (less : A -> A -> bool) (a b : A) : Prop :=
  less b a = false.

(** The worker as one turn of the loop leaves it. *)
Definition step_worker (r : step_result) : worker :=
  match r with Continue w => w | Panic w _ => w end.

(** The masquerades sent so far point to different records of the store,
    all with [freq] zero. *)
Definition worker_fresh (w : worker) : Prop :=
  NoDup (RootCA <$> sent (w_trace w)) /\
  forall m, m ∈ sent (w_trace w) ->
    RootCA m ∈ dom (w_heap w) /\ freq (w_heap w !!! RootCA m) = F64.zero.

End Genconfig.

(* ===================================================================== *)
(** * proxy/client.go *)
(* ===================================================================== *)

Module Proxy.

(** ** net.IP.IsLoopback (Go's standard library) *)

Definition IPv4len : nat := 4.
Definition IPv6len : nat := 16.

Definition IPv6loopback : net_IP := [0; 0; 0; 0; 0; 0; 0; 0; 0; 0; 0; 0; 0; 0; 0; 1].

Definition isZeros (p : list Z) : bool := forallb (Z.eqb 0) p.

(** [ip.To4()]; [None] is the nil slice. *)
Definition To4 (ip : net_IP) : option net_IP :=
  if bool_decide (length ip = IPv4len) then Some ip
  else if bool_decide (length ip = IPv6len)
          && isZeros (take 10 ip)
          && bool_decide (ip !! 10%nat = Some 255)
          && bool_decide (ip !! 11%nat = Some 255)
  then Some (take 4 (drop 12 ip))
  else None.

(** [ip.IsLoopback()]: [ip4[0] == 127], or equality with [::1] for an
    address that has no 4-byte form. *)
Definition IsLoopback (ip : net_IP) : bool :=
  match To4 ip with
  | Some ip4 => bool_decide (ip4 !! 0%nat = Some 127)
  | None => bool_decide (ip = IPv6loopback)
  end.

(** [net.IPAddr] *)
Record IPAddr : Type := mkIPAddr {
  IP : net_IP;
  Zone : string
}.

(** ** The request and the client *)

(** [http.Request], as far as the director and a protocol touch it. *)
Record http_Request : Type := mkRequest {
  Method : string;
  URL : string;
  Host : string;
  Header : list (string * list string)
}.

(** [protocol.ClientProtocol]: the interface of a host-spoofing protocol.
    [RewriteRequest] changes the request in place: it is a function from
    the request before to the request after.  ([RewriteResponse] and
    [Dial] serve the transport, not the director.) *)
Record ClientProtocol : Type := mkClientProtocol {
  RewriteRequest : http_Request -> http_Request
}.

(** Modelled from the spec: [ProxyConfig], the struct embedded in [Client],
    is declared outside these sources; of the run-time configuration
    (listen address, read and write timeouts, shouldDumpHeaders) the
    director reads [ShouldDumpHeaders] only. *)
Record ProxyConfig : Type := mkProxyConfig {
  Addr : string;
  ShouldDumpHeaders : bool
}.

Record Client : Type := mkClient {
  Config : ProxyConfig;
  UpstreamHost : string;
  Protocol : ClientProtocol;
  ShouldProxyLoopback : bool
}.

(** [net.ResolveIPAddr(net, host)]: name resolution, outside the program. *)
Definition Resolver : Type := string -> string -> go_result IPAddr.

(** ** isNotLoopback *)

(** [None] would be the panic of indexing an empty slice. *)
Definition isNotLoopback (ResolveIPAddr : Resolver) (addr : string) : option bool :=
  match slice_index (strings_Split addr ":") 0 with
  | None => None
  | Some host =>
    Some match ResolveIPAddr "ip4" host with
         | Err _ => false
         | Ok ip => negb (IsLoopback (IP ip))
         end
  end.

(** ** The Director of buildReverseProxy *)

(** What the director does to its surroundings. *)
Inductive event : Type :=
| EvRewriteRequest (req : http_Request)
| EvDumpHeaders (direction : string) (headers : list (string * list string)).

(** The condition [client.ShouldProxyLoopback || isNotLoopback(req.Host)]:
    [||] evaluates its right operand only when the left one is false. *)
Definition should_rewrite (ResolveIPAddr : Resolver) (client : Client)
    (req : http_Request) : option bool :=
  if ShouldProxyLoopback client then Some true
  else isNotLoopback ResolveIPAddr (Host req).

(** The request as the director leaves it, and what the director did. *)
Definition Director (ResolveIPAddr : Resolver) (client : Client)
    (req : http_Request) : option (http_Request * list event) :=
  match should_rewrite ResolveIPAddr client req with
  | None => None
  | Some b =>
    let '(req, t) :=
      if b then (RewriteRequest (Protocol client) req, [EvRewriteRequest req])
      else (req, []) in
    Some (req,
          if ShouldDumpHeaders (Config client)
          then t ++ [EvDumpHeaders "Request" (Header req)]
          else t)
  end.

(** The requests on which the director called [RewriteRequest]. *)
Definition rewrites (t : list event) : list http_Request :=
  omap (fun e => match e with EvRewriteRequest r => Some r | _ => None end) t.

End Proxy.

(* ===================================================================== *)
(** * Concrete inputs *)
(* ===================================================================== *)

Module Examples.
Import Genconfig.

(** ** A small network for the prober *)

Definition pem (body : string) : string :=
  "-----BEGIN CERTIFICATE-----" +:+ newline +:+ body +:+ newline +:+
  "-----END CERTIFICATE-----" +:+ newline.

Definition leaf_a : x509_Certificate := mkX509 "a.example" "TEVBRkE=".
Definition leaf_b : x509_Certificate := mkX509 "b.example" "TEVBRkI=".
Definition intermediate : x509_Certificate := mkX509 "Issuing CA 1" "SU5U".
Definition root_A : x509_Certificate := mkX509 "Root A" "Uk9PVEE=".
Definition root_unreadable : x509_Certificate := mkX509 "Root ?" "".

Definition conn (chains : list (list x509_Certificate)) (ip : net_IP)
    : go_result ConnWithTimings :=
  Ok {| VerifiedChains := chains; ResolvedAddr_IP := ip |}.

Definition env : Env :=
  {| keyman_Certificate := x509_Certificate;
     DialForTimings := fun addr =>
       if decide (addr = "a.example:443")
       then conn [[leaf_a; root_A]] [203; 0; 113; 1]
       else if decide (addr = "b.example:443")
       then conn [[leaf_b; intermediate; root_A]] [203; 0; 113; 2]
       else if decide (addr = "nochain.example:443")
       then conn [] [203; 0; 113; 3]
       else if decide (addr = "unreadable.example:443")
       then conn [[leaf_a; root_unreadable]] [203; 0; 113; 4]
       else Err "dial tcp: i/o timeout";
     LoadCertificateFromX509 := fun c =>
       if decide (Raw c = "") then Err "asn1: syntax error" else Ok c;
     PEMEncoded := fun c => pem (Raw c);
     IP_String := fun ip =>
       if decide (ip = [203; 0; 113; 1]) then "203.0.113.1" else "203.0.113.2" |}.

Definition blacklist : gmap string bool := {[ "blacklisted.example" := true ]}.

Definition domains : list string :=
  ["a.example"; "blacklisted.example"; "slow.example"; "b.example"].

Definition idle : worker := {| w_heap := ∅; w_trace := [] |}.

(** ** Results for the aggregator *)

(** One result per certificate of [certs], each with a [castat] of its own
    at the addresses 1, 2, ... *)
Definition store_of (certs : list string) : store :=
  list_to_map
    (imap (fun i c => (Pos.of_succ_nat i, mkCastat ("CN of " +:+ c) c F64.zero))
          certs).

Definition results_of (certs : list string) : list masquerade :=
  imap (fun i c => mkMasquerade ("host" +:+ pretty i +:+ ".example")
                                "192.0.2.1" (Pos.of_succ_nat i))
       certs.

(** Four results with root A and one with root B. *)
Definition certs5 : list string := ["A"; "A"; "B"; "A"; "A"].

(** A hundred results, three of them with root B: B stands at 3 percent. *)
Definition certs100 : list string := replicate 97 "A" ++ replicate 3 "B".

(** The default of the flag [-minfreq]. *)
Definition minFreq : float64 := F64.of_int 3.

(** ** A resolver and a protocol for the proxy client *)

Definition resolver : Proxy.Resolver := fun _ host =>
  if decide (host = "localhost") then Ok (Proxy.mkIPAddr [127; 0; 0; 1] "")
  else if decide (host = "example.com") then Ok (Proxy.mkIPAddr [93; 184; 216; 34] "")
  else Err ("lookup " +:+ host +:+ ": no such host").

Definition fronted : Proxy.ClientProtocol :=
  {| Proxy.RewriteRequest := fun r =>
       {| Proxy.Method := Proxy.Method r;
          Proxy.URL := Proxy.URL r;
          Proxy.Host := "front.example";
          Proxy.Header := ("X-Original-Host", [Proxy.Host r]) :: Proxy.Header r |} |}.

Definition client (proxyLoopback : bool) : Proxy.Client :=
  {| Proxy.Config := {| Proxy.Addr := "127.0.0.1:8787"; Proxy.ShouldDumpHeaders := false |};
     Proxy.UpstreamHost := "upstream.example";
     Proxy.Protocol := fronted;
     Proxy.ShouldProxyLoopback := proxyLoopback |}.

Definition request (host : string) : Proxy.http_Request :=
  {| Proxy.Method := "GET"; Proxy.URL := "/"; Proxy.Host := host; Proxy.Header := [] |}.

End Examples.

(* ===================================================================== *)
(** * More of Go's strings, and of its indexing *)
(* ===================================================================== *)

(** [s[i]] on a string: the byte at [i]; [None] is the run-time panic
    "index out of range". *)
Definition string_index (s : string) (i : Z) : option ascii :=
  if i <? 0 then None else String.get (Z.to_nat i) s.

(** [s[lo:hi]] on a string; [None] is the run-time panic "slice bounds out
    of range". *)
Definition string_slice (s : string) (lo hi : Z) : option string :=
  if (0 <=? lo) && (lo <=? hi) && (hi <=? Z.of_nat (String.length s))
  then Some (String.substring (Z.to_nat lo) (Z.to_nat (hi - lo)) s)
  else None.

(** [strings.HasPrefix(s, prefix)]:
    [len(s) >= len(prefix) && s[0:len(prefix)] == prefix] *)
Definition strings_HasPrefix (s prefix : string) : bool :=
  String.prefix prefix s.

(** [strings.HasSuffix(s, suffix)]:
    [len(s) >= len(suffix) && s[len(s)-len(suffix):] == suffix] *)
Definition strings_HasSuffix (s suffix : string) : bool :=
  let n := Z.of_nat (String.length s) in
  let k := Z.of_nat (String.length suffix) in
  (k <=? n) && bool_decide (string_slice s (n - k) n = Some suffix).

(** [strings.IndexByte(s, c)], which is what [strings.IndexRune(s, r)] is
    for a rune below [utf8.RuneSelf]: the index of the first [c], or -1. *)
Fixpoint strings_IndexByte (s : string) (c : ascii) : Z :=
  match s with
  | EmptyString => -1
  | String a s' =>
    if Ascii.eqb a c then 0
    else let i := strings_IndexByte s' c in
         if i <? 0 then -1 else i + 1
  end.

(** [strings.Join(a, sep)] *)
Fixpoint strings_Join (a : list string) (sep : string) : string :=
  match a with
  | [] => EmptyString
  | [s] => s
  | s :: rest => s +:+ sep +:+ strings_Join rest sep
  end.

(* ===================================================================== *)
(** * genconfig: the files read by main, and the probing as a whole *)
(* ===================================================================== *)

Module GenconfigMain.
Import Genconfig.

(** [ioutil.ReadFile], by the path: the file system is outside the
    program. *)
Definition ReadFile : Type := string -> go_result string.

(** How a function returns that may end the process instead:
    [os.Exit(code)] after a line of log ([log.Fatalf] logs and exits with
    1), or the panic of a call on a nil interface. *)
Inductive loaded (A : Type) : Type :=
| Loaded (a : A)
| Exited (code : Z) (level format : string) (args : list string)
| NilDereference.
Arguments Loaded {A} a.
Arguments Exited {A} code level format args.
Arguments NilDereference {A}.

(** [loadDomains]: the value left in [domains]. *)
Definition loadDomains (fs : ReadFile) (domainsFile : string)
    : loaded (list string) :=
  if bool_decide (domainsFile = EmptyString)
  then Exited 2 "ERROR" "Please specify a domains file" []
  else
    match fs domainsFile with
    | Err err =>
      Exited 1 "FATAL" "Unable to read domains file at %s: %s" [domainsFile; err]
    | Ok domainsBytes => Loaded (strings_Split domainsBytes newline)
    end.

(** [os.FileInfo], as far as it is read here. *)
Record os_FileInfo : Type := mkFileInfo {
  IsDir : bool
}.

(** The condition under which [loadProxiedSites] keeps a line:
    [domain != "" && !strings.HasPrefix(domain, "#") &&
     !strings.HasSuffix(domain, ".ir")]. *)
Definition keep_site (domain : string) : bool :=
  negb (bool_decide (domain = EmptyString))
  && negb (strings_HasPrefix domain "#")
  && negb (strings_HasSuffix domain ".ir").

(** The loop of [loadProxiedSites] over the lines of one file. *)
Definition add_sites (lines : list string) (proxiedSites : domain_filter)
    : domain_filter :=
  fold_left (fun ps domain => if keep_site domain then <[domain := true]> ps else ps)
    lines proxiedSites.

(** [loadProxiedSites(path, info, err)], the function that
    [filepath.Walk] calls on every file and directory: the error it
    returns and the value left in [proxiedSites].  [info] is a Go
    interface, [None] its nil; the incoming [err] is never read. *)
Definition loadProxiedSites (fs : ReadFile) (proxiedSites : domain_filter)
    (path : string) (info : option os_FileInfo) (err : option error)
    : loaded (option error * domain_filter) :=
  match info with
  | None => NilDereference
  | Some info =>
    if IsDir info then Loaded (None, proxiedSites)
    else
      match fs path with
      | Err err =>
        Exited 1 "FATAL" "Unable to read blacklist file at %s: %s" [path; err]
      | Ok proxiedSiteBytes =>
        Loaded (None, add_sites (strings_Split proxiedSiteBytes newline) proxiedSites)
      end
  end.

(** One call of the walk function by [filepath.Walk]. *)
Record visit : Type := mkVisit {
  v_path : string;
  v_info : option os_FileInfo;
  v_err : option error
}.

(** [filepath.Walk(root, loadProxiedSites)] on the files and directories
    that it visits, in its order: the walk ends at the first error that
    the function returns, and returns it. *)
Fixpoint Walk (fs : ReadFile) (visits : list visit) (proxiedSites : domain_filter)
    : loaded (option error * domain_filter) :=
  match visits with
  | [] => Loaded (None, proxiedSites)
  | v :: rest =>
    match loadProxiedSites fs proxiedSites (v_path v) (v_info v) (v_err v) with
    | Loaded (None, ps) => Walk fs rest ps
    | stop => stop
    end
  end.

(** [loadProxiedSitesList]: the value left in [proxiedSites], and the
    line of log for an error of the walk. *)
Definition loadProxiedSitesList (fs : ReadFile) (proxiedSitesDir : string)
    (visits : list visit) (proxiedSites : domain_filter)
    : loaded (domain_filter * list event) :=
  if bool_decide (proxiedSitesDir = EmptyString)
  then Exited 3 "ERROR" "Please specify a proxied site directory" []
  else
    match Walk fs visits proxiedSites with
    | Loaded (None, ps) => Loaded (ps, [])
    | Loaded (Some err, ps) =>
      Loaded (ps, [EvLog "ERROR" "Could not open proxied site directory: %s" [err]])
    | Exited code level format args => Exited code level format args
    | NilDereference => NilDereference
    end.

(** [domain] is a line of a file that the walk visits and reads: an entry
    that is not a directory. *)
Definition line_of_visited (fs : ReadFile) (visits : list visit)
    (domain : string) : Prop :=
  exists v info bytes,
    v ∈ visits /\ v_info v = Some info /\ IsDir info = false /\
    fs (v_path v) = Ok bytes /\ domain ∈ strings_Split bytes newline.

(** Every entry comes with its [os.FileInfo], and every file can be
    read. *)
Definition readable (fs : ReadFile) (visits : list visit) : Prop :=
  forall v, v ∈ visits ->
    exists info, v_info v = Some info /\
      (IsDir info = false -> exists bytes, fs (v_path v) = Ok bytes).

(** The loop of [loadBlacklist]. *)
Definition add_blacklisted (lines : list string) (blacklist : domain_filter)
    : domain_filter :=
  fold_left (fun bl domain => <[domain := true]> bl) lines blacklist.

(** [loadBlacklist]: the value left in [blacklist]. *)
Definition loadBlacklist (fs : ReadFile) (blacklistFile : string)
    (blacklist : domain_filter) : loaded domain_filter :=
  if bool_decide (blacklistFile = EmptyString)
  then Exited 3 "ERROR" "Please specify a blacklist file" []
  else
    match fs blacklistFile with
    | Err err =>
      Exited 1 "FATAL" "Unable to read blacklist file at %s: %s" [blacklistFile; err]
    | Ok blacklistBytes =>
      Loaded (add_blacklisted (strings_Split blacklistBytes newline) blacklist)
    end.

(** [loadTemplate] *)
Definition loadTemplate (fs : ReadFile) (name : string) : loaded string :=
  match fs name with
  | Err err => Exited 1 "FATAL" "Unable to load template %s: %s" [name; err]
  | Ok bytes => Loaded bytes
  end.

(** Whether a probe of [domain] ends in a masquerade: the domain is not
    blacklisted, the dial succeeds, and keyman loads the last certificate
    of the first verified chain. *)
Definition probe_succeeds (env : Env) (blacklist : gmap string bool)
    (domain : string) : bool :=
  bool_decide (blacklist !! domain = None) &&
  match DialForTimings env (domain +:+ ":443") with
  | Err _ => false
  | Ok cwt =>
    match VerifiedChains cwt !! 0%nat with
    | None => false
    | Some chain =>
      match last chain with
      | None => false
      | Some rootCA =>
        match LoadCertificateFromX509 env rootCA with
        | Err _ => false
        | Ok _ => true
        end
      end
    end
  end.

(** Every successful dial comes with a first verified chain that is not
    empty, as a completed handshake with verification gives:
    [grabCerts] passes a nil [tls.Config] to [tlsdialer.DialForTimings],
    which leaves verification on, and a verification that finds no chain
    is an error of the dial. *)
Definition chains_present (env : Env) : Prop :=
  forall addr cwt, DialForTimings env addr = Ok cwt ->
    exists chain rootCA,
      VerifiedChains cwt !! 0%nat = Some chain /\ last chain = Some rootCA.

(** The domains that a worker has not read when it ends. *)
Definition unread (o : outcome) : list string :=
  match o with Done _ => [] | Panicked _ _ rest => rest end.

(** [domain + ":443"] *)
Definition dial_addr (domain : string) : string := domain +:+ ":443".

End GenconfigMain.

(* ===================================================================== *)
(** * logging *)
(* ===================================================================== *)

Module Logging.

(** ** The writers *)

(** [http.Client] and what else lies behind a handle: outside the
    program. *)
Definition http_Client : Type := string.

(** [loggly.Client], as far as it is set here. *)
Record loggly_Client : Type := mkLogglyClient {
  Token : string;
  Defaults : gmap string string;
  HTTP : option http_Client
}.

(** [loggly.New(token)], before the settings of [enableLoggly]: its
    defaults are the library's. *)
Definition loggly_New (defaults : gmap string string) (token : string)
    : loggly_Client :=
  {| Token := token; Defaults := defaults; HTTP := None |}.

Record logglyErrorWriter : Type := mkLogglyErrorWriter {
  lang : string;
  tz : string;
  versionToLoggly : string;
  client : loggly_Client
}.

(** [loggly.Message] with the four keys that [Write] gives it. *)
Record loggly_Message : Type := mkMessage {
  extra : gmap string string;
  locationInfo : string;
  message : string;
  fullMessage : string
}.

(** [config.Config], as far as it is read here. *)
Record Config : Type := mkConfig {
  Addr : string;
  CloudConfigCA : string
}.

(** What lies outside the package: the platform, the libraries and the
    network.
    - [write_result name p] is what the writer called [name] returns for
      [Write(p)];
    - [TrimSpace] is [strings.TrimSpace], which decodes UTF-8;
    - [Send c m] is [c.Send(m)] of go-loggly;
    - [WaitForServer addr] is
      [waitforserver.WaitForServer("tcp", addr, 10*time.Second)];
    - [HTTPClient ca addr] is [util.HTTPClient(ca, addr)]. *)
Record World : Type := mkWorld {
  GOOS : string;
  GOARCH : string;
  GetCountry : string;
  TrimSpace : string -> string;
  Send : loggly_Client -> loggly_Message -> option error;
  write_result : string -> string -> Z * option error;
  WaitForServer : string -> option error;
  HTTPClient : string -> string -> go_result http_Client;
  DetectLanguage : string;
  Now_MST : string;
  loggly_defaults : gmap string string
}.

Inductive event : Type :=
| EvWrite (name : string) (p : string)
| EvSend (c : loggly_Client) (m : loggly_Message)
| EvLog (level : string) (format : string) (args : list string).

(** ** logglyErrorWriter.Write *)

(** [lastChar == '/' || lastChar >= '0' && lastChar <= '9'] *)
Definition slash_or_digit (lastChar : ascii) : bool :=
  Ascii.eqb lastChar "/"
  || ((N_of_ascii "0" <=? N_of_ascii lastChar)%N
      && (N_of_ascii lastChar <=? N_of_ascii "9")%N).

(** The loop [for p := len(fullMessage) - 2; p >= 0; p--], at the turns
    [p = n - 1] down to 0, from the values that [lastColonPos] and
    [colonsSeen] have before them: the [lastColonPos] with which the loop
    ends. *)
Fixpoint scan (fullMessage : string) (n : nat) (lastColonPos colonsSeen : Z)
    : option Z :=
  match n with
  | O => Some lastColonPos
  | S p =>
    match string_index fullMessage (Z.of_nat p) with
    | None => None
    | Some c =>
      if Ascii.eqb c ":" then
        match string_index fullMessage (Z.of_nat p + 1) with
        | None => None
        | Some lastChar =>
          if negb (slash_or_digit lastChar) then
            let colonsSeen := int_add colonsSeen 1 in
            if colonsSeen =? 2 then Some (Z.of_nat p)
            else scan fullMessage p (Z.of_nat p) colonsSeen
          else scan fullMessage p lastColonPos colonsSeen
        end
      else scan fullMessage p lastColonPos colonsSeen
    end
  end.

Definition len (s : string) : Z := Z.of_nat (String.length s).

(** The map [extra]. *)
Definition extra_of (wd : World) (w : logglyErrorWriter) : gmap string string :=
  list_to_map [("logLevel", "ERROR"); ("osName", GOOS wd); ("osArch", GOARCH wd);
               ("osVersion", EmptyString); ("language", lang w);
               ("country", GetCountry wd); ("timeZone", tz w);
               ("version", versionToLoggly w)].

(** [func (w logglyErrorWriter) Write(b []byte) (int, error)]: the two
    values returned and the message sent; [None] is a run-time panic of
    indexing or slicing. *)
Definition logglyErrorWriter_Write (wd : World) (w : logglyErrorWriter)
    (b : string) : option (Z * option error * list event) :=
  let fullMessage := b in
  match scan fullMessage (Z.to_nat (len fullMessage - 2 + 1)) (-1) 0 with
  | None => None
  | Some lastColonPos =>
    match string_slice fullMessage (lastColonPos + 1) (len fullMessage) with
    | None => None
    | Some rest =>
      let message := TrimSpace wd rest in
      let firstColonPos := strings_IndexByte fullMessage ":" in
      let firstColonPos := if firstColonPos =? -1 then 0 else firstColonPos in
      match string_slice fullMessage 0 firstColonPos with
      | None => None
      | Some prefix =>
        let m := {| extra := extra_of wd w;
                    locationInfo := prefix;
                    message := message;
                    fullMessage := fullMessage |} in
        match Send wd (client w) m with
        | Some err => Some (0, Some err, [EvSend (client w) m])
        | None => Some (len b, None, [EvSend (client w) m])
        end
      end
    end
  end.

(** ** nonStopWriter *)

(** The writers that the package builds and passes to golog. *)
#[warnings="-register-all"] Inductive Writer : Type :=
| External (name : string)
| NonStop (writers : list Writer)
| Loggly (w : logglyErrorWriter).

(** [NonStopWriter(writers...)] *)
Definition NonStopWriter (writers : list Writer) : Writer := NonStop writers.

(** The loop [for _, w := range t.writers { w.Write(p) }]: what the
    calls do, one after the other; what they return is dropped. *)
Definition write_each (write : Writer -> option (Z * option error * list event))
    : list Writer -> option (list event) :=
  fix each (ws : list Writer) : option (list event) :=
    match ws with
    | [] => Some []
    | w :: ws' =>
      match write w with
      | None => None
      | Some (_, t) =>
        match each ws' with
        | None => None
        | Some t' => Some (t ++ t')
        end
      end
    end.

(** [Write(p)] on a writer: the two values returned and what the call
    does; a [nonStopWriter] ends with [return len(p), nil]. *)
Fixpoint Writer_Write (wd : World) (w : Writer) (p : string)
    : option (Z * option error * list event) :=
  match w with
  | External name => Some (write_result wd name p, [EvWrite name p])
  | Loggly lw => logglyErrorWriter_Write wd lw p
  | NonStop writers =>
    match write_each (fun w => Writer_Write wd w p) writers with
    | None => None
    | Some t => Some (len p, None, t)
    end
  end.

(** ** Configure, enableLoggly *)

(** The package variables [errorOut] and [debugOut], as [Init] leaves
    them: the writers to the standard streams and the log file, with
    their time stamps. *)
Definition errorOut : Writer := External "errorOut".
Definition debugOut : Writer := External "debugOut".

(** The variables that [Configure] reads and writes: [lastAddr], the two
    outputs of golog, and the lines logged. *)
Record state : Type := mkState {
  lastAddr : string;
  outputs : Writer * Writer;
  logged : list event
}.

Definition log_line (level format : string) (args : list string) (st : state)
    : state :=
  {| lastAddr := lastAddr st; outputs := outputs st;
     logged := logged st ++ [EvLog level format args] |}.

(** [golog.SetOutputs(errorOut, debugOut)] *)
Definition SetOutputs (errorOut debugOut : Writer) (st : state) : state :=
  {| lastAddr := lastAddr st; outputs := (errorOut, debugOut);
     logged := logged st |}.

Definition removeLoggly (st : state) : state := SetOutputs errorOut debugOut st.

Definition addLoggly (logglyWriter : Writer) (st : state) : state :=
  SetOutputs (NonStopWriter [errorOut; logglyWriter]) debugOut st.

Definition enableLoggly (wd : World) (logglyToken : string) (cfg : Config)
    (version buildDate : string) (st : state) : state :=
  if bool_decide (Addr cfg = EmptyString) then
    removeLoggly (log_line "ERROR" "No known proxy, won't report to Loggly" [] st)
  else
    match WaitForServer wd (Addr cfg) with
    | Some err =>
      removeLoggly
        (log_line "ERROR" "Proxy never came online at %v, not logging to Loggly"
           [Addr cfg] st)
    | None =>
      match HTTPClient wd (CloudConfigCA cfg) (Addr cfg) with
      | Err err =>
        removeLoggly
          (log_line "ERROR"
             "Could not create proxied HTTP client, not logging to Loggly: %v"
             [err] st)
      | Ok httpClient =>
        let st := log_line "DEBUG" "Sending error logs to Loggly via proxy at %v"
                    [Addr cfg] st in
        let c := loggly_New (loggly_defaults wd) logglyToken in
        let logglyWriter :=
          {| lang := DetectLanguage wd;
             tz := Now_MST wd;
             versionToLoggly := version +:+ " (" +:+ buildDate +:+ ")";
             client := {| Token := Token c;
                          Defaults := <["hostname" := "hidden"]> (Defaults c);
                          HTTP := Some httpClient |} |} in
        addLoggly (Loggly logglyWriter) st
      end
    end.

(** [Configure].  The body of its goroutine runs with [cfgMutex] held,
    which the next call of [Configure] waits for: the calls take effect
    one after the other, each goroutine run to its end. *)
Definition Configure (wd : World) (logglyToken : string) (cfg : Config)
    (version buildDate : string) (st : state) : state :=
  if bool_decide (logglyToken = EmptyString) then
    log_line "DEBUG" "No logglyToken, not sending error logs to Loggly" [] st
  else if bool_decide (version = EmptyString) then
    log_line "ERROR"
      "No version configured, Loggly won't include version information" [] st
  else if bool_decide (buildDate = EmptyString) then
    log_line "ERROR"
      "No build date configured, Loggly won't include build date information" [] st
  else if bool_decide (Addr cfg = lastAddr st) then
    log_line "DEBUG" "Logging configuration unchanged" [] st
  else
    enableLoggly wd logglyToken cfg version buildDate
      {| lastAddr := Addr cfg; outputs := outputs st; logged := logged st |}.

(** ** Auxiliary notions for the proofs *)

(** A colon at [p] that the loop takes for a separator: the byte after it
    is neither a slash nor a digit.  (The last byte of the text is never
    looked at as a colon.) *)
Definition separator (s : string) (p : nat) : bool :=
  match String.get p s, String.get (S p) s with
  | Some c, Some d => Ascii.eqb c ":" && negb (slash_or_digit d)
  | _, _ => false
  end.

(** The separators below [n], from the last to the first. *)
Definition separators_below (s : string) (n : nat) : list nat :=
  reverse (filter (fun p => separator s p = true) (seq 0 n)).

(** Where the message starts: after the second separator from the end,
    after the only one, or at the start of the text. *)
Definition message_start (s : string) : nat :=
  match separators_below s (String.length s) with
  | [] => 0
  | [p] => S p
  | _ :: p :: _ => S p
  end.

(** The [lastColonPos] with which the loop ends when it starts below [n]
    having seen [colonsSeen] separators. *)
Definition scanned (s : string) (n : nat) (lastColonPos colonsSeen : Z) : Z :=
  match separators_below s n with
  | [] => lastColonPos
  | p :: rest =>
    if colonsSeen =? 0 then
      match rest with
      | [] => Z.of_nat p
      | q :: _ => Z.of_nat q
      end
    else Z.of_nat p
  end.

End Logging.

(* ===================================================================== *)
(** * proxy/client.go: Run *)
(* ===================================================================== *)

Module ProxyRun.
Import Proxy.

(** [*tls.Config] and [http.Handler]: values that the program passes on
    without looking into them. *)
Definition tls_Config : Type := string.
Definition http_Handler : Type := string.

(** The fields of [ProxyConfig] and of its [CertContext] that [Run] and
    [buildMITMHandler] read, beside those of [Proxy.ProxyConfig]; both
    structs are declared outside these sources.  [TLSConfig] is a
    pointer, [None] its nil; the timeouts are [time.Duration]s. *)
Record RunConfig : Type := mkRunConfig {
  ReadTimeout : Z;
  WriteTimeout : Z;
  TLSConfig : option tls_Config;
  PKFile : string;
  CACertFile : string
}.

(** [mitm.CryptoConfig] *)
Record mitm_CryptoConfig : Type := mkCryptoConfig {
  cc_PKFile : string;
  cc_CertFile : string;
  cc_ServerTLSConfig : option tls_Config
}.

(** [http.Server] *)
Record http_Server : Type := mkServer {
  srv_Addr : string;
  srv_ReadTimeout : Z;
  srv_WriteTimeout : Z;
  srv_Handler : http_Handler
}.

(** What lies outside the file: the package variable
    [DEFAULT_TLS_SERVER_CONFIG], and what the calls of the certificate
    context, of keyman, of go-mitm and of net/http return. *)
Record Outside : Type := mkOutside {
  DEFAULT_TLS_SERVER_CONFIG : option tls_Config;
  InitCommonCerts : option error;
  IsInstalled : go_result bool;
  AddAsTrustedRoot : option error;
  mitm_Wrap : mitm_CryptoConfig -> go_result http_Handler;
  ListenAndServe : http_Server -> option error
}.

(** What [Run] does to its surroundings. *)
Inductive event : Type :=
| EvInitCommonCerts
| EvIsInstalled
| EvAddAsTrustedRoot
| EvDebugf (format : string) (args : list string)
| EvWrap (cryptoConf : mitm_CryptoConfig)
| EvListenAndServe (server : http_Server).

(** [func (ctx *CertContext) InstallCACertToTrustStoreIfNecessary() error] *)
Definition CertContext_InstallCACertToTrustStoreIfNecessary (o : Outside)
    : option error * list event :=
  match IsInstalled o with
  | Err err =>
    (Some ("Unable to check if CA certificate is installed: " +:+ err),
     [EvIsInstalled])
  | Ok haveInstalledCert =>
    if negb haveInstalledCert then
      let t := [EvIsInstalled;
                EvDebugf "Adding CA cert to trust store as trusted root" [];
                EvAddAsTrustedRoot] in
      match AddAsTrustedRoot o with
      | Some err => (Some err, t)
      | None => (None, t)
      end
    else
      (None, [EvIsInstalled;
              EvDebugf "CA cert already found in trust store, not adding" []])
  end.

(** [func (config *ProxyConfig) InstallCACertToTrustStoreIfNecessary()] *)
Definition ProxyConfig_InstallCACertToTrustStoreIfNecessary (o : Outside)
    : list event :=
  let '(err, t) := CertContext_InstallCACertToTrustStoreIfNecessary o in
  match err with
  | Some err =>
    t ++ [EvDebugf "Unable to install CA Cert to trust store, man in the middling may not work.  Suggest running flashlight as sudo with the -install flag: %s" [err]]
  | None => t
  end.

(** [buildMITMHandler]: the error returned, or the value left in
    [client.mitmHandler] with no error, and what the call does. *)
Definition buildMITMHandler (o : Outside) (cfg : RunConfig)
    : go_result http_Handler * list event :=
  let cryptoConf :=
    {| cc_PKFile := PKFile cfg;
       cc_CertFile := CACertFile cfg;
       cc_ServerTLSConfig := TLSConfig cfg |} in
  let cryptoConf :=
    match cc_ServerTLSConfig cryptoConf with
    | None =>
      {| cc_PKFile := cc_PKFile cryptoConf;
         cc_CertFile := cc_CertFile cryptoConf;
         cc_ServerTLSConfig := DEFAULT_TLS_SERVER_CONFIG o |}
    | Some _ => cryptoConf
    end in
  match mitm_Wrap o cryptoConf with
  | Err err =>
    (Err ("Unable to initialize mitm handler: " +:+ err), [EvWrap cryptoConf])
  | Ok handler => (Ok handler, [EvWrap cryptoConf])
  end.

(** [Run]: the error returned and what the call does.
    ([buildReverseProxy] only builds a value, whose director is
    [Proxy.Director].) *)
Definition Run (o : Outside) (client : Client) (cfg : RunConfig)
    : option error * list event :=
  match InitCommonCerts o with
  | Some err => (Some ("Unable to init common certs: " +:+ err), [EvInitCommonCerts])
  | None =>
    let t := EvInitCommonCerts :: ProxyConfig_InstallCACertToTrustStoreIfNecessary o in
    match buildMITMHandler o cfg with
    | (Err err, t') => (Some ("Unable to build MITM handler: " +:+ err), t ++ t')
    | (Ok mitmHandler, t') =>
      let httpServer :=
        {| srv_Addr := Addr (Config client);
           srv_ReadTimeout := ReadTimeout cfg;
           srv_WriteTimeout := WriteTimeout cfg;
           srv_Handler := mitmHandler |} in
      (ListenAndServe o httpServer,
       t ++ t' ++ [EvDebugf "About to start client (http) proxy at %s"
                     [Addr (Config client)];
                   EvListenAndServe httpServer])
    end
  end.

(** The configuration that [buildMITMHandler] hands to [mitm.Wrap]. *)
Definition cryptoConf_of (o : Outside) (cfg : RunConfig) : mitm_CryptoConfig :=
  {| cc_PKFile := PKFile cfg;
     cc_CertFile := CACertFile cfg;
     cc_ServerTLSConfig :=
       match TLSConfig cfg with
       | Some c => Some c
       | None => DEFAULT_TLS_SERVER_CONFIG o
       end |}.

(** The servers started, the handlers wrapped and the attempts to add the
    certificate. *)
Definition served (t : list event) : list http_Server :=
  omap (fun e => match e with EvListenAndServe s => Some s | _ => None end) t.

Definition wrapped (t : list event) : list mitm_CryptoConfig :=
  omap (fun e => match e with EvWrap c => Some c | _ => None end) t.

Definition added_to_trust_store (t : list event) : nat :=
  length (omap (fun e => match e with EvAddAsTrustedRoot => Some e | _ => None end) t).

End ProxyRun.

(* ===================================================================== *)
(** * statreporter *)
(* ===================================================================== *)

Module Statreporter.

(** ** model.go: DimGroup *)

(** [DimGroup], a struct of one field, by its map [dims]. *)
Abbreviation DimGroup := (gmap string string).

(** [Dim(key, value)] *)
Definition Dim (key value : string) : DimGroup := {[ key := value ]}.

(** [dg.And(key, value)], with the entries of [dg.dims] in the order
    [entries] in which [range] yields them: the new map starts as
    [{key: value}] and every entry of [dg.dims] is then assigned to it. *)
Definition And_in (entries : list (string * string)) (key value : string)
    : DimGroup :=
  fold_left (fun newDims kv => <[kv.1 := kv.2]> newDims) entries {[ key := value ]}.

Definition And (dg : DimGroup) (key value : string) : DimGroup :=
  And_in (map_to_list dg) key value.

(** [sort.Strings]: ascending, by [<] on strings. *)
Definition sort_Strings (keys : list string) : list string :=
  Genconfig.sort_Sort String.ltb keys.

(** One turn of the loop that builds the string: [s] and the index [i]. *)
Definition String_step (dg : DimGroup) (acc : string * Z) (key : string)
    : string * Z :=
  let '(s, i) := acc in
  let sep := if i =? 0 then EmptyString else "," in
  (s +:+ sep +:+ key +:+ "=" +:+ default EmptyString (dg !! key), i + 1).

(** [dg.String()], with the keys of [dg.dims] in the order [keys] in
    which [range] yields them. *)
Definition String_in (keys : list string) (dg : DimGroup) : string :=
  (fold_left (String_step dg) (sort_Strings keys) (EmptyString, 0)).1.

Definition DimGroup_String (dg : DimGroup) : string :=
  String_in (map_to_list dg).*1 dg.

(** ** client.go: TraversalOutcome *)

Definition uint64_add (a b : Z) : Z := (a + b) mod 2 ^ 64.

Record TraversalOutcome : Type := mkTraversalOutcome {
  AnswererCountry : string;
  AnswererOnline : Z;
  AnswererGot5Tuple : Z;
  OffererGot5Tuple : Z;
  TraversalSucceeded : Z;
  ConnectionSucceeded : Z;
  DurationOfSuccessfulTraversal : Z
}.

Definition TraversalOutcome_zero : TraversalOutcome :=
  mkTraversalOutcome EmptyString 0 0 0 0 0 0.

#[export] Instance TraversalOutcome_inhabited : Inhabited TraversalOutcome :=
  populate TraversalOutcome_zero.

(** The outcomes live behind pointers: a store, as for [castat]. *)
Definition ptr : Type := positive.
Abbreviation store := (gmap ptr TraversalOutcome).

(** The assignments to one field of [*o]. *)
Definition set_AnswererOnline (v : Z) (x : TraversalOutcome) : TraversalOutcome :=
  mkTraversalOutcome (AnswererCountry x) v (AnswererGot5Tuple x)
    (OffererGot5Tuple x) (TraversalSucceeded x) (ConnectionSucceeded x)
    (DurationOfSuccessfulTraversal x).
Definition set_AnswererGot5Tuple (v : Z) (x : TraversalOutcome) : TraversalOutcome :=
  mkTraversalOutcome (AnswererCountry x) (AnswererOnline x) v
    (OffererGot5Tuple x) (TraversalSucceeded x) (ConnectionSucceeded x)
    (DurationOfSuccessfulTraversal x).
Definition set_OffererGot5Tuple (v : Z) (x : TraversalOutcome) : TraversalOutcome :=
  mkTraversalOutcome (AnswererCountry x) (AnswererOnline x) (AnswererGot5Tuple x)
    v (TraversalSucceeded x) (ConnectionSucceeded x)
    (DurationOfSuccessfulTraversal x).
Definition set_TraversalSucceeded (v : Z) (x : TraversalOutcome) : TraversalOutcome :=
  mkTraversalOutcome (AnswererCountry x) (AnswererOnline x) (AnswererGot5Tuple x)
    (OffererGot5Tuple x) v (ConnectionSucceeded x)
    (DurationOfSuccessfulTraversal x).
Definition set_ConnectionSucceeded (v : Z) (x : TraversalOutcome) : TraversalOutcome :=
  mkTraversalOutcome (AnswererCountry x) (AnswererOnline x) (AnswererGot5Tuple x)
    (OffererGot5Tuple x) (TraversalSucceeded x) v
    (DurationOfSuccessfulTraversal x).
Definition set_Duration (v : Z) (x : TraversalOutcome) : TraversalOutcome :=
  mkTraversalOutcome (AnswererCountry x) (AnswererOnline x) (AnswererGot5Tuple x)
    (OffererGot5Tuple x) (TraversalSucceeded x) (ConnectionSucceeded x) v.

(** [o.f = o.f + n.f], on the store as it is when the statement runs. *)
Definition add_field (get : TraversalOutcome -> Z)
    (set : Z -> TraversalOutcome -> TraversalOutcome) (o n : ptr) (h : store)
    : store :=
  <[o := set (uint64_add (get (h !!! o)) (get (h !!! n))) (h !!! o)]> h.

(** [func (o *TraversalOutcome) coalesce(n *TraversalOutcome)]: its seven
    statements, in their order. *)
Definition coalesce (o n : ptr) (h : store) : store :=
  let h := add_field AnswererOnline set_AnswererOnline o n h in
  let h := add_field AnswererGot5Tuple set_AnswererGot5Tuple o n h in
  let h := add_field OffererGot5Tuple set_OffererGot5Tuple o n h in
  let h := add_field ConnectionSucceeded set_ConnectionSucceeded o n h in
  let h := add_field TraversalSucceeded set_TraversalSucceeded o n h in
  let h := add_field ConnectionSucceeded set_ConnectionSucceeded o n h in
  add_field DurationOfSuccessfulTraversal set_Duration o n h.

(** The reporter: [traversalStats] and the store. *)
Record reporter : Type := mkReporter {
  traversalStats : gmap string ptr;
  outcomes : store
}.

(** The case [n := <-reporter.outcomesCh] of [processTraversalStats], as
    far as [traversalStats] goes. *)
Definition receive (r : reporter) (n : ptr) : reporter :=
  let country := AnswererCountry (outcomes r !!! n) in
  match traversalStats r !! country with
  | None =>
    {| traversalStats := <[country := n]> (traversalStats r);
       outcomes := outcomes r |}
  | Some o =>
    {| traversalStats := traversalStats r;
       outcomes := coalesce o n (outcomes r) |}
  end.


(** ** client.go: processTraversalStats *)

(** The report that [postTraversalStat] marshals: its three dimensions
    and the outcome, with the counters that it has at that moment. *)
Record report : Type := mkReport {
  dims_answererCountry : string;
  dims_offererCountry : string;
  dims_operatingSystem : string;
  increments : TraversalOutcome
}.

(** What lies outside the file: [reporter.Country] and [postStats] of the
    embedded [Reporter], [runtime.GOOS], and [json.Marshal]. *)
Record World : Type := mkWorld {
  Country : string;
  GOOS : string;
  json_Marshal : report -> go_result string;
  postStats : string -> option error
}.

(** What the loop does to its surroundings. *)
Inductive event : Type :=
| EvLog (level : string) (format : string) (args : list string)
| EvPostStats (jsonBytes : string)
| EvTimerReset.

(** The [report] of [postTraversalStat]. *)
Definition report_of (wd : World) (h : store) (answererCountry : string)
    (outcome : ptr) : report :=
  {| dims_answererCountry := answererCountry;
     dims_offererCountry := Country wd;
     dims_operatingSystem := GOOS wd;
     increments := h !!! outcome |}.

(** [postTraversalStat(answererCountry, outcome)]: the error returned and
    what the call does. *)
Definition postTraversalStat (wd : World) (h : store) (answererCountry : string)
    (outcome : ptr) : option error * list event :=
  match json_Marshal wd (report_of wd h answererCountry outcome) with
  | Err err =>
    (Some ("Unable to decode traversal outcome: " +:+ err),
     [EvLog "DEBUG" "Posting traversal stats" []])
  | Ok jsonBytes =>
    (postStats wd jsonBytes,
     [EvLog "DEBUG" "Posting traversal stats" [];
      EvLog "TRACE" "Reporting: %s" [jsonBytes];
      EvPostStats jsonBytes])
  end.

(** The loop [for answererCountry, outcome := range reporter.traversalStats]
    of the timer's case, over the entries in the order in which [range]
    yields them; what [postTraversalStat] returns is dropped. *)
Definition post_all (wd : World) (h : store) (entries : list (string * ptr))
    : list event :=
  mjoin ((fun e => (postTraversalStat wd h e.1 e.2).2) <$> entries).

(** What [select] takes, one at a time: a pointer from
    [reporter.outcomesCh], nil ([None]) or not, or the firing of the
    timer.  With the latter come the entries of [reporter.traversalStats]
    in the order in which [range] yields them that time, which Go leaves
    open. *)
Inductive input : Type :=
| Received (n : option ptr)
| TimerFired (entries : list (string * ptr)).

(** The variables of [processTraversalStats]: the reporter, whether
    [timerCh] is set (it starts as nil), and what the loop has done. *)
Record loop : Type := mkLoop {
  rep : reporter;
  timerCh : bool;
  done : list event
}.

(** [Start], and the two lines before the loop.  The store is written by
    the loop only: a sender leaves an outcome alone once it is sent. *)
Definition Start (h : store) : loop :=
  {| rep := {| traversalStats := ∅; outcomes := h |};
     timerCh := false;
     done := [] |}.

(** One turn of [for { select { ... } }]; [None] is the panic of
    [n.AnswererCountry] on a nil [n], which ends the goroutine. *)
Definition select_case (wd : World) (s : loop) (i : input) : option loop :=
  match i with
  | Received None => None
  | Received (Some n) =>
    Some {| rep := receive (rep s) n;
            timerCh := true;
            done := if timerCh s then done s else done s ++ [EvTimerReset] |}
  | TimerFired entries =>
    Some {| rep := {| traversalStats := ∅; outcomes := outcomes (rep s) |};
            timerCh := timerCh s;
            done := done s ++ post_all wd (outcomes (rep s)) entries
                    ++ [EvTimerReset] |}
  end.

(** [processTraversalStats], which returns only by that panic, on what
    its [select] takes up to some moment. *)
Definition processTraversalStats (wd : World) (ins : list input) (s : loop)
    : option loop :=
  fold_left (fun turn i => turn ≫= fun s' => select_case wd s' i) ins (Some s).




(** ** Auxiliary notions for the proofs *)




(** One statement of [coalesce] for a counter, or two. *)
Definition add_outcome (times : nat) (get : TraversalOutcome -> Z) (h : store)
    (o n : ptr) (a : Z) : Z :=
  Nat.iter times
    (fun a' => uint64_add a' (if decide (n = o) then a' else get (h !!! n))) a.


(** A counter of the accumulator [o] after the outcomes [later] have
    been added to it, by a [coalesce] that has [times] statements for the
    counter.  An outcome other than [o] adds the counter that it has in
    [h]; [o] itself, received again, adds the counter as it stands. *)
Definition coalesced (times : nat) (get : TraversalOutcome -> Z) (h : store)
    (o : ptr) (later : list ptr) : Z :=
  fold_left (fun a n => add_outcome times get h o n a) later (get (h !!! o)).




End Statreporter.

(* ===================================================================== *)
(** * More concrete inputs *)
(* ===================================================================== *)

Module MoreExamples.
Import Genconfig GenconfigMain.

(** ** Files for genconfig *)

(** A text file: every line ends with a newline. *)
Definition text (lines : list string) : string :=
  foldr (fun line rest => line +:+ newline +:+ rest) EmptyString lines.

Definition fs : ReadFile := fun path =>
  if decide (path = "domains.txt")
  then Ok (text ["a.example"; "blacklisted.example"; "b.example"])
  else if decide (path = "blacklist.txt")
  then Ok (text ["blacklisted.example"])
  else if decide (path = "proxiedsites/original.txt")
  then Ok (text ["# a comment"; "example.com"; EmptyString; "news.ir"; "example.org"])
  else Err "no such file or directory".

(** What [filepath.Walk] visits under [proxiedsites]. *)
Definition visits : list visit :=
  [mkVisit "proxiedsites" (Some (mkFileInfo true)) None;
   mkVisit "proxiedsites/original.txt" (Some (mkFileInfo false)) None].

(** ** A network in which every handshake brings its chain *)

Definition hosts : gmap string ConnWithTimings :=
  list_to_map
    [("a.example:443",
      {| VerifiedChains := [[Examples.leaf_a; Examples.root_A]];
         ResolvedAddr_IP := [203; 0; 113; 1] |});
     ("b.example:443",
      {| VerifiedChains := [[Examples.leaf_b; Examples.intermediate; Examples.root_A]];
         ResolvedAddr_IP := [203; 0; 113; 2] |});
     ("unreadable.example:443",
      {| VerifiedChains := [[Examples.leaf_a; Examples.root_unreadable]];
         ResolvedAddr_IP := [203; 0; 113; 4] |})].

Definition network : Env :=
  {| keyman_Certificate := x509_Certificate;
     DialForTimings := fun addr =>
       match hosts !! addr with
       | Some cwt => Ok cwt
       | None => Err "dial tcp: i/o timeout"
       end;
     LoadCertificateFromX509 := LoadCertificateFromX509 Examples.env;
     PEMEncoded := fun c => Examples.pem (Raw c);
     IP_String := IP_String Examples.env |}.

(** The first verified chain is there and is not empty. *)
Definition has_chain (cwt : ConnWithTimings) : bool :=
  match VerifiedChains cwt !! 0%nat with
  | Some chain => match last chain with Some _ => true | None => false end
  | None => false
  end.

(** ** A world for the writer to Loggly *)

Definition is_space (c : ascii) : bool :=
  Ascii.eqb c " " || Ascii.eqb c nl.

Fixpoint trim_left (s : string) : string :=
  match s with
  | String c s' => if is_space c then trim_left s' else s
  | EmptyString => EmptyString
  end.

(** [strings.TrimSpace] on texts whose only white space is the blank and
    the newline. *)
Definition trim (s : string) : string :=
  String.rev (trim_left (String.rev (trim_left s))).

Definition world (online : bool) : Logging.World :=
  {| Logging.GOOS := "linux";
     Logging.GOARCH := "amd64";
     Logging.GetCountry := "xx";
     Logging.TrimSpace := trim;
     Logging.Send := fun _ _ => Some "loggly: 503";
     Logging.write_result := fun _ _ => (0, Some "disk full");
     Logging.WaitForServer := fun _ =>
       if online then None else Some "timed out waiting for server";
     Logging.HTTPClient := fun _ addr => Ok ("client via " +:+ addr);
     Logging.DetectLanguage := "en";
     Logging.Now_MST := "UTC";
     Logging.loggly_defaults := ∅ |}.

Definition logglyWriter : Logging.logglyErrorWriter :=
  {| Logging.lang := "en";
     Logging.tz := "UTC";
     Logging.versionToLoggly := "1.0 (today)";
     Logging.client := Logging.loggly_New ∅ "token" |}.

Definition started : Logging.state :=
  {| Logging.lastAddr := EmptyString;
     Logging.outputs := (Logging.errorOut, Logging.debugOut);
     Logging.logged := [] |}.

Definition cfg : Logging.Config :=
  {| Logging.Addr := "127.0.0.1:8787"; Logging.CloudConfigCA := "CA" |}.

(** ** The surroundings of the proxy client *)

Definition outside (installed : go_result bool) : ProxyRun.Outside :=
  {| ProxyRun.DEFAULT_TLS_SERVER_CONFIG := Some "default";
     ProxyRun.InitCommonCerts := None;
     ProxyRun.IsInstalled := installed;
     ProxyRun.AddAsTrustedRoot := Some "permission denied";
     ProxyRun.mitm_Wrap := fun c => Ok ("mitm over " +:+ ProxyRun.cc_CertFile c);
     ProxyRun.ListenAndServe := fun _ => Some "address already in use" |}.

Definition runConfig : ProxyRun.RunConfig :=
  {| ProxyRun.ReadTimeout := 0;
     ProxyRun.WriteTimeout := 0;
     ProxyRun.TLSConfig := None;
     ProxyRun.PKFile := "proxypk.pem";
     ProxyRun.CACertFile := "cacert.pem" |}.

Definition dumping : Proxy.Client :=
  {| Proxy.Config := {| Proxy.Addr := "127.0.0.1:8787"; Proxy.ShouldDumpHeaders := true |};
     Proxy.UpstreamHost := "upstream.example";
     Proxy.Protocol := Examples.fronted;
     Proxy.ShouldProxyLoopback := false |}.

(** ** Outcomes for statreporter *)

Import Statreporter.

Definition outcome_of (country : string) (n : Z) : TraversalOutcome :=
  mkTraversalOutcome country n n n n n n.

Definition statshub : World :=
  {| Country := "xx";
     GOOS := "linux";
     json_Marshal := fun rp =>
       Ok (dims_answererCountry rp +:+ " " +:+
           pretty (AnswererOnline (increments rp)) +:+ " " +:+
           pretty (ConnectionSucceeded (increments rp)));
     postStats := fun _ => None |}.

Definition senders : store :=
  list_to_map [(1%positive, outcome_of "ir" 1); (2%positive, outcome_of "us" 10);
               (3%positive, outcome_of "ir" 100); (4%positive, outcome_of "ir" 1000)].

(** The loop after the outcome at 1 and a firing of the timer. *)
Definition reported : loop :=
  {| rep := {| traversalStats := ∅; outcomes := senders |};
     timerCh := true;
     done := [EvTimerReset;
              EvLog "DEBUG" "Posting traversal stats" [];
              EvLog "TRACE" "Reporting: %s" ["ir 1 1"];
              EvPostStats "ir 1 1";
              EvTimerReset] |}.

End MoreExamples.

(* ===================================================================== *)
(** * Facts about the comparisons of float64 *)
(* ===================================================================== *)

Module F64Facts.

Ltac by_compare :=
  repeat match goal with
         | |- context [Z.compare ?a ?b] => destruct (Z.compare_spec a b)
         | |- context [Pos.compare ?a ?b] => destruct (Pos.compare_spec a b)
         end;
  subst; simpl; unfold F64.key_lt; simpl; try lia.

Lemma lt_key (x y : float64) :
  F64.number x -> F64.number y -> (F64.lt x y = true <-> F64.key_lt (F64.key x) (F64.key y)).
Proof.
  unfold F64.number, F64.lt, SFltb.
  destruct x as [sx|sx| |sx mx ex], y as [sy|sy| |sy my ey];
    simpl; try discriminate; intros _ _;
    try destruct sx; try destruct sy; simpl;
    change (Pos.compare_cont Eq) with Pos.compare;
    by_compare; split; (discriminate || lia || reflexivity || idtac).
Qed.

Lemma le_key (x y : float64) :
  F64.number x -> F64.number y -> (F64.le x y = true <-> ~ F64.key_lt (F64.key y) (F64.key x)).
Proof.
  unfold F64.number, F64.le, SFleb.
  destruct x as [sx|sx| |sx mx ex], y as [sy|sy| |sy my ey];
    simpl; try discriminate; intros _ _;
    try destruct sx; try destruct sy; simpl;
    change (Pos.compare_cont Eq) with Pos.compare;
    by_compare; split; (discriminate || lia || reflexivity || idtac).
Qed.

Lemma gt_number (x y : float64) : F64.gt x y = true -> F64.number x /\ F64.number y.
Proof.
  unfold F64.gt, SFltb, F64.number.
  destruct x, y; simpl; try discriminate; auto.
Qed.

Lemma gt_irrefl (x : float64) : F64.gt x x = false.
Proof.
  destruct x as [s|s| |s m e]; try reflexivity; try (destruct s; reflexivity).
  unfold F64.gt, SFltb; simpl.
  change (Pos.compare_cont Eq) with Pos.compare.
  rewrite Z.compare_refl, Pos.compare_refl. destruct s; reflexivity.
Qed.

Lemma gt_key (x y : float64) :
  F64.number x -> F64.number y -> (F64.gt x y = true <-> F64.key_lt (F64.key y) (F64.key x)).
Proof. intros Hx Hy. unfold F64.gt. apply (lt_key y x Hy Hx). Qed.

Lemma not_gt_le (x y : float64) :
  F64.number x -> F64.number y -> F64.gt x y = false -> F64.le x y = true.
Proof.
  intros Hx Hy H. apply le_key; trivial.
  intros Hk. apply (gt_key x y Hx Hy) in Hk. congruence.
Qed.

(** [x == y] excludes [x > y]. *)
Lemma eqb_not_gt (x y : float64) : F64.eqb x y = true -> F64.gt x y = false.
Proof.
  unfold F64.eqb, F64.gt, SFeqb, SFltb.
  destruct x as [sx|sx| |sx mx ex], y as [sy|sy| |sy my ey];
    simpl; try discriminate; try reflexivity;
    try destruct sx; try destruct sy; simpl; try discriminate; try reflexivity;
    change (Pos.compare_cont Eq) with Pos.compare;
    rewrite (Z.compare_antisym ey ex), (Pos.compare_antisym my mx);
    destruct (ey ?= ex); simpl; try discriminate; try reflexivity;
    destruct (my ?= mx)%positive; simpl; try discriminate; reflexivity.
Qed.

End F64Facts.

(* ===================================================================== *)
(** * Facts about the arithmetic of float64 on small integers *)
(* ===================================================================== *)

Module F64Arith.

(** ** Binary digits *)

Lemma digits_bounds (p : positive) :
  2 ^ (Z.pos (digits2_pos p) - 1) <= Z.pos p < 2 ^ Z.pos (digits2_pos p).
Proof.
  induction p as [p IH|p IH|]; cbn [digits2_pos]; [| |done].
  - rewrite Pos2Z.inj_succ.
    replace (Z.succ (Z.pos (digits2_pos p)) - 1)
      with (Z.succ (Z.pos (digits2_pos p) - 1)) by lia.
    rewrite !Z.pow_succ_r by lia. lia.
  - rewrite Pos2Z.inj_succ.
    replace (Z.succ (Z.pos (digits2_pos p)) - 1)
      with (Z.succ (Z.pos (digits2_pos p) - 1)) by lia.
    rewrite !Z.pow_succ_r by lia. lia.
Qed.

Lemma digits_bounds_Z (z : Z) :
  0 < z -> 2 ^ (Zdigits2 z - 1) <= z < 2 ^ Zdigits2 z.
Proof. intros Hz. destruct z as [|p|p]; try lia. apply digits_bounds. Qed.

Lemma digits_unique (z d : Z) :
  2 ^ (d - 1) <= z < 2 ^ d -> 0 < z -> Zdigits2 z = d.
Proof.
  intros Hz Hpos. destruct z as [|p|p]; try lia. cbn [Zdigits2].
  pose proof (digits_bounds p) as Hp.
  set (D := Z.pos (digits2_pos p)) in *.
  assert (0 < d). { destruct (Z.ltb_spec 0 d); [done|].
    assert (2 ^ d <= 2 ^ 0) by (destruct (Z.eqb_spec d 0) as [->|]; [done|];
      rewrite Z.pow_neg_r by lia; done). lia. }
  destruct (Z.lt_trichotomy D d) as [Hlt|[Heq|Hgt]]; [|done|].
  - assert (2 ^ D <= 2 ^ (d - 1)) by (apply Z.pow_le_mono_r; lia). lia.
  - assert (2 ^ d <= 2 ^ (D - 1)) by (apply Z.pow_le_mono_r; lia). lia.
Qed.

(** ** Shifting *)

Lemma iter_xO (m d : positive) :
  Z.pos (Pos.iter xO m d) = Z.pos m * 2 ^ Z.pos d.
Proof.
  rewrite (Pos.iter_swap_gen _ _ Z.pos xO (Z.mul 2)) by done.
  change (Pos.iter (Z.mul 2) (Z.pos m) d) with (Z.shiftl (Z.pos m) (Z.pos d)).
  by rewrite Z.shiftl_mul_pow2.
Qed.

Lemma iter_pos_iter {A : Type} (f : A -> A) (p : positive) (x : A) :
  SpecFloat.iter_pos f p x = Pos.iter f x p.
Proof.
  revert x. induction p as [p IH|p IH|]; intros x; cbn [SpecFloat.iter_pos Pos.iter];
    [|by rewrite !IH|done].
  by rewrite !IH, !Pos.iter_swap.
Qed.

Lemma shr_1_double (m : Z) : 0 <= m -> shr_1 (F64.exact (2 * m)) = F64.exact m.
Proof. intros Hm. by destruct m. Qed.

Lemma shr_exact (n : positive) (m : Z) :
  0 <= m -> SpecFloat.iter_pos shr_1 n (F64.exact (m * 2 ^ Z.pos n)) = F64.exact m.
Proof.
  intros Hm. rewrite iter_pos_iter.
  induction n as [|n IH] using Pos.peano_ind.
  - cbn [Pos.iter]. rewrite Z.pow_1_r, Z.mul_comm. by apply shr_1_double.
  - rewrite Pos.iter_succ_r, Pos2Z.inj_succ, Z.pow_succ_r by lia.
    replace (m * (2 * 2 ^ Z.pos n)) with (2 * (m * 2 ^ Z.pos n)) by lia.
    rewrite shr_1_double by lia. done.
Qed.

(** ** Rounding a value that needs none *)

Lemma fexp_normal (e : Z) : -1021 <= e -> fexp F64.prec F64.emax e = e - 53.
Proof. unfold fexp, emin, F64.prec, F64.emax. lia. Qed.

Lemma round_aux_exact (s : bool) (m : positive) (n e : Z) :
  Z.pos (digits2_pos m) = 53 -> 0 <= n -> -1074 <= e + n <= 971 ->
  binary_round_aux F64.prec F64.emax s (Z.pos m * 2 ^ n) e loc_Exact =
  S754_finite s m (e + n).
Proof.
  intros Hd Hn He.
  pose proof (digits_bounds m) as Hm. rewrite Hd in Hm.
  assert (Hdig : Zdigits2 (Z.pos m * 2 ^ n) = 53 + n).
  { apply digits_unique; [|lia].
    replace (53 + n - 1) with (52 + n) by lia.
    rewrite !Z.pow_add_r by lia. nia. }
  unfold binary_round_aux, shr_fexp. rewrite Hdig.
  rewrite fexp_normal by lia.
  replace (53 + n + e - 53 - e) with n by lia.
  cbn [shr_record_of_loc]. fold (F64.exact (Z.pos m * 2 ^ n)).
  assert (Hshr : shr (F64.exact (Z.pos m * 2 ^ n)) e n = (F64.exact (Z.pos m), e + n)).
  { unfold shr. destruct n as [|p|p]; [|by rewrite shr_exact|lia].
    by rewrite Z.mul_1_r, Z.add_0_r. }
  rewrite Hshr. cbn [F64.exact shr_m loc_of_shr_record round_nearest_even Zdigits2].
  rewrite Hd, fexp_normal by lia.
  replace (53 + (e + n) - 53 - (e + n)) with 0 by lia.
  cbn [shr shr_record_of_loc shr_m].
  unfold F64.emax, F64.prec.
  destruct (Z.leb_spec (e + n) (1024 - 53)); [done|lia].
Qed.

Lemma pow2_scale (d s x : Z) :
  1 <= d -> 0 <= s -> 2 ^ (d - 1) <= x < 2 ^ d ->
  2 ^ (d - 1 + s) <= x * 2 ^ s < 2 ^ (d + s).
Proof.
  intros Hd Hs Hx. rewrite !Z.pow_add_r by lia.
  assert (0 < 2 ^ s) by (apply Z.pow_pos_nonneg; lia). nia.
Qed.

(** ** The float of an integer *)

Lemma digits_small (k : Z) : 0 < k < 2 ^ 53 -> 1 <= Zdigits2 k <= 53.
Proof.
  intros Hk. destruct k as [|p|p]; try lia. cbn [Zdigits2].
  pose proof (digits_bounds p) as Hp. split; [lia|].
  destruct (Z.leb_spec (Z.pos (digits2_pos p)) 53); [done|].
  assert (2 ^ 53 <= 2 ^ (Z.pos (digits2_pos p) - 1))
    by (apply Z.pow_le_mono_r; lia). lia.
Qed.

Lemma mant_spec (k : Z) :
  0 < k < 2 ^ 53 ->
  Z.pos (F64.mant k) = k * 2 ^ (53 - Zdigits2 k) /\
  Z.pos (digits2_pos (F64.mant k)) = 53.
Proof.
  intros Hk. pose proof (digits_small k Hk) as Hd.
  assert (Hb : 2 ^ (Zdigits2 k - 1) <= k < 2 ^ Zdigits2 k).
  { apply digits_bounds_Z; lia. }
  assert (Hr : 2 ^ 52 <= k * 2 ^ (53 - Zdigits2 k) < 2 ^ 53).
  { pose proof (pow2_scale (Zdigits2 k) (53 - Zdigits2 k) k) as Hs.
    replace (Zdigits2 k - 1 + (53 - Zdigits2 k)) with 52 in Hs by lia.
    replace (Zdigits2 k + (53 - Zdigits2 k)) with 53 in Hs by lia.
    apply Hs; lia. }
  assert (Hm : Z.pos (F64.mant k) = k * 2 ^ (53 - Zdigits2 k)).
  { unfold F64.mant. rewrite Z2Pos.id; lia. }
  split; [done|].
  change (Zdigits2 (Z.pos (F64.mant k)) = 53). apply digits_unique; lia.
Qed.

Lemma of_int_pos (k : Z) :
  0 < k < 2 ^ 53 ->
  F64.of_int k = S754_finite false (F64.mant k) (Zdigits2 k - 53).
Proof.
  intros Hk. pose proof (digits_small k Hk) as Hd.
  destruct (mant_spec k Hk) as [Hm Hdm].
  destruct k as [|p|p]; try lia.
  unfold F64.of_int, binary_normalize, binary_round.
  cbn [Zdigits2] in *. rewrite Z.add_0_r, fexp_normal by lia.
  unfold shl_align. rewrite Z.sub_0_r.
  destruct (Z.pos (digits2_pos p) - 53) as [|q|q] eqn:E; try lia.
  - pose proof (round_aux_exact false (F64.mant (Z.pos p)) 0 0 Hdm) as R.
    rewrite Hm in R. replace (53 - Z.pos (digits2_pos p)) with 0 in R by lia.
    rewrite Z.pow_0_r, !Z.mul_1_r, Z.add_0_r in R. apply R; lia.
  - pose proof (round_aux_exact false (F64.mant (Z.pos p)) 0 (Z.neg q) Hdm) as R.
    rewrite Z.pow_0_r, Z.mul_1_r, Z.add_0_r in R.
    replace (Pos.iter xO p q) with (F64.mant (Z.pos p)); [apply R; lia|].
    apply Pos2Z.inj. rewrite iter_xO, Hm. f_equal. f_equal. lia.
Qed.

(** A value [P * 2^-t] that is an integer of at most 53 digits, given with
    at least 53 digits, rounds to the float of [P]. *)
Lemma round_aux_int (P t : Z) :
  0 < P < 2 ^ 53 -> 0 <= t <= 1000 -> 53 <= Zdigits2 P + t ->
  binary_round_aux F64.prec F64.emax false (P * 2 ^ t) (- t) loc_Exact =
  F64.of_int P.
Proof.
  intros HP Ht Hd. pose proof (digits_small P HP) as HdP.
  destruct (mant_spec P HP) as [Hm Hdm]. rewrite of_int_pos by done.
  replace (P * 2 ^ t) with (Z.pos (F64.mant P) * 2 ^ (t - (53 - Zdigits2 P))).
  - rewrite round_aux_exact by (done || lia). f_equal. lia.
  - rewrite Hm, <- Z.mul_assoc, <- Z.pow_add_r by lia. f_equal. f_equal. lia.
Qed.

Lemma of_int_1 : F64.of_int 1 = S754_finite false 4503599627370496 (-52).
Proof. by vm_compute. Qed.

Lemma of_int_100 : F64.of_int 100 = S754_finite false 7036874417766400 (-46).
Proof. by vm_compute. Qed.

(** ** Counting: adding one *)

Lemma add_one (k : Z) :
  0 <= k -> k + 1 < 2 ^ 53 ->
  F64.add (F64.of_int k) (F64.of_int 1) = F64.of_int (k + 1).
Proof.
  intros Hk Hk1. destruct (Z.eqb_spec k 0) as [->|Hne]; [by vm_compute|].
  assert (Hk' : 0 < k < 2 ^ 53) by lia.
  pose proof (digits_small k Hk') as Hd.
  destruct (mant_spec k Hk') as [Hm Hdm].
  rewrite (of_int_pos k), of_int_1 by done.
  unfold F64.add, SFadd. cbn [cond_Zopp].
  replace (Z.min (Zdigits2 k - 53) (-52)) with (-52) by lia.
  assert (Hl : Z.pos (fst (shl_align (F64.mant k) (Zdigits2 k - 53) (-52))) = k * 2 ^ 52).
  { unfold shl_align.
    destruct (-52 - (Zdigits2 k - 53)) as [|q|q] eqn:E; try lia; cbn [fst].
    - rewrite Hm. by replace (53 - Zdigits2 k) with 52 by lia.
    - rewrite iter_xO, Hm, <- Z.mul_assoc, <- Z.pow_add_r by lia.
      f_equal. f_equal. lia. }
  rewrite Hl.
  change (Z.pos (fst (shl_align 4503599627370496 (-52) (-52))))
    with 4503599627370496.
  replace (k * 2 ^ 52 + 4503599627370496) with ((k + 1) * 2 ^ 52) by lia.
  assert (Hpos : 0 < (k + 1) * 2 ^ 52) by lia.
  assert (Hd1 : 1 <= Zdigits2 (k + 1) <= 53) by (apply digits_small; lia).
  assert (Hb1 : 2 ^ (Zdigits2 (k + 1) - 1) <= k + 1 < 2 ^ Zdigits2 (k + 1)).
  { apply digits_bounds_Z; lia. }
  assert (Hdig : Zdigits2 ((k + 1) * 2 ^ 52) = Zdigits2 (k + 1) + 52).
  { apply digits_unique; [|done].
    replace (Zdigits2 (k + 1) + 52 - 1) with ((Zdigits2 (k + 1) - 1) + 52) by lia.
    rewrite !Z.pow_add_r by lia. lia. }
  destruct ((k + 1) * 2 ^ 52) as [|M|M] eqn:EM; try lia.
  unfold binary_normalize, binary_round.
  cbn [Zdigits2] in Hdig. rewrite Hdig.
  replace (Zdigits2 (k + 1) + 52 + -52) with (Zdigits2 (k + 1)) by lia.
  rewrite fexp_normal by lia. unfold shl_align.
  destruct (Zdigits2 (k + 1) - 53 - -52) as [|q|q] eqn:E; try lia;
    rewrite <- EM; by apply (round_aux_int (k + 1) 52); lia.
Qed.

(** ** Multiplying by 100 *)

Lemma mul_100 (a : Z) :
  0 <= a -> 100 * a < 2 ^ 53 ->
  F64.mul (F64.of_int a) (F64.of_int 100) = F64.of_int (100 * a).
Proof.
  intros Ha Ha1. destruct (Z.eqb_spec a 0) as [->|Hne]; [by vm_compute|].
  assert (Ha' : 0 < a < 2 ^ 53) by lia.
  pose proof (digits_small a Ha') as Hd.
  destruct (mant_spec a Ha') as [Hm Hdm].
  rewrite (of_int_pos a), of_int_100 by done.
  unfold F64.mul, SFmul. cbn [xorb].
  rewrite Pos2Z.inj_mul, Hm.
  replace (a * 2 ^ (53 - Zdigits2 a) * 7036874417766400)
    with (100 * a * 2 ^ (99 - Zdigits2 a)).
  2:{ replace (99 - Zdigits2 a) with ((53 - Zdigits2 a) + 46) by lia.
      rewrite Z.pow_add_r by lia. lia. }
  replace (Zdigits2 a - 53 + -46) with (- (99 - Zdigits2 a)) by lia.
  apply round_aux_int; [lia|lia|].
  assert (1 <= Zdigits2 (100 * a)) by (apply digits_small; lia).
  assert (Hb : 2 ^ (Zdigits2 (100 * a) - 1) <= 100 * a < 2 ^ Zdigits2 (100 * a)).
  { apply digits_bounds_Z; lia. }
  destruct (Z.leb_spec 7 (Zdigits2 (100 * a))); [lia|].
  assert (2 ^ Zdigits2 (100 * a) <= 2 ^ 6) by (apply Z.pow_le_mono_r; lia).
  lia.
Qed.

(** ** Dividing *)

Lemma div_core (mx my : positive) (ex ey : Z) :
  Z.pos (digits2_pos mx) = 53 -> Z.pos (digits2_pos my) = 53 ->
  -52 <= ex <= 0 -> -52 <= ey <= 0 ->
  SFdiv_core_binary F64.prec F64.emax (Z.pos mx) ex (Z.pos my) ey =
  (Z.pos mx * 2 ^ 53 / Z.pos my, ex - ey - 53,
   new_location (Z.pos my) ((Z.pos mx * 2 ^ 53) mod Z.pos my)).
Proof.
  intros Hx Hy Hex Hey. unfold SFdiv_core_binary. cbv zeta.
  cbn [Zdigits2]. rewrite Hx, Hy, fexp_normal by lia.
  replace (Z.min (53 + ex - (53 + ey) - 53) (ex - ey)) with (ex - ey - 53) by lia.
  replace (ex - ey - (ex - ey - 53)) with 53 by lia.
  cbv iota. rewrite Z.shiftl_mul_pow2 by lia.
  unfold Z.div, Z.modulo. by destruct (Z.div_eucl _ _).
Qed.

Lemma round_even_cases (m : Z) (l : location) :
  round_nearest_even m l = m \/ round_nearest_even m l = m + 1.
Proof. destruct l as [|[]]; cbn; destruct (Z.even m); auto. Qed.

Lemma record_of_loc (m : Z) (l : location) :
  shr_m (shr_record_of_loc m l) = m /\
  loc_of_shr_record (shr_record_of_loc m l) = l.
Proof. by destruct l as [|[]]. Qed.

(** One digit dropped: the half, and whether anything was lost. *)
Lemma shr_1_half (q : Z) (l : location) :
  0 < q ->
  exists h,
    shr_m (shr_1 (shr_record_of_loc q l)) = h /\
    (q = 2 * h \/ q = 2 * h + 1) /\
    (q = 2 * h -> l = loc_Exact ->
     loc_of_shr_record (shr_1 (shr_record_of_loc q l)) = loc_Exact).
Proof.
  intros Hq. destruct q as [|[p|p|]|]; try lia;
    destruct l as [|[]]; cbn; eexists; (split; [done|]);
    (split; [lia|]); intros; (done || lia).
Qed.

Lemma round_aux_finish (s : bool) (q e : Z) (l : location) :
  binary_round_aux F64.prec F64.emax s q e l =
  F64.finish s (round_nearest_even (shr_m (shr_fexp F64.prec F64.emax q e l).1)
              (loc_of_shr_record (shr_fexp F64.prec F64.emax q e l).1))
           (shr_fexp F64.prec F64.emax q e l).2.
Proof.
  unfold binary_round_aux, F64.finish.
  by destruct (shr_fexp F64.prec F64.emax q e l).
Qed.

Lemma finish_spec (s : bool) (m e : Z) :
  2 ^ 52 <= m <= 2 ^ 53 -> -1074 <= e <= 900 ->
  F64.finish s m e =
  if m <? 2 ^ 53 then S754_finite s (Z.to_pos m) e
  else S754_finite s 4503599627370496 (e + 1).
Proof.
  intros Hm He. unfold F64.finish, shr_fexp.
  destruct (Z.ltb_spec m (2 ^ 53)).
  - rewrite (digits_unique m 53) by lia. rewrite fexp_normal by lia.
    replace (53 + e - 53 - e) with 0 by lia. cbn [shr shr_record_of_loc shr_m].
    destruct m as [|p|p]; try lia. cbn [Z.to_pos].
    unfold F64.emax, F64.prec. destruct (Z.leb_spec e (1024 - 53)); [done|lia].
  - assert (m = 2 ^ 53) as -> by lia.
    change (Zdigits2 (2 ^ 53)) with 54. rewrite fexp_normal by lia.
    replace (54 + e - 53 - e) with 1 by lia.
    cbn [shr shr_record_of_loc SpecFloat.iter_pos]. cbn.
    unfold F64.emax, F64.prec. destruct (Z.leb_spec (e + 1) (1024 - 53)); [done|lia].
Qed.

Lemma first_shift_53 (q e : Z) (l : location) :
  2 ^ 52 <= q < 2 ^ 53 -> -1074 <= e ->
  shr_fexp F64.prec F64.emax q e l = (shr_record_of_loc q l, e).
Proof.
  intros Hq He. unfold shr_fexp.
  rewrite (digits_unique q 53), fexp_normal by lia.
  by replace (53 + e - 53 - e) with 0 by lia.
Qed.

Lemma first_shift_54 (q e : Z) (l : location) :
  2 ^ 53 <= q < 2 ^ 54 -> -1074 <= e ->
  shr_fexp F64.prec F64.emax q e l = (shr_1 (shr_record_of_loc q l), e + 1).
Proof.
  intros Hq He. unfold shr_fexp.
  rewrite (digits_unique q 54), fexp_normal by lia.
  by replace (54 + e - 53 - e) with 1 by lia.
Qed.

Lemma at_most_100_le (f : float64) :
  F64.at_most_100 f ->
  F64.le F64.zero f = true /\ F64.le f (F64.of_int 100) = true.
Proof.
  intros (m & e & -> & He). split; [done|].
  rewrite of_int_100. unfold F64.le, SFleb; cbn [SFcompare].
  destruct He as [He|[-> Hm]].
  - by rewrite (proj2 (Z.compare_lt_iff e (-46)) He).
  - rewrite Z.compare_refl, Pos.compare_cont_spec.
    destruct (Pos.compare_spec m 7036874417766400); [done|done|lia].
Qed.

Lemma pow2_le (a b : Z) : 0 <= a <= b -> 2 ^ a <= 2 ^ b.
Proof. intros H. apply Z.pow_le_mono_r; lia. Qed.

(** Rounding a quotient [q + r/B], scaled by [2^e], that is at most 100. *)
Lemma round_aux_le_100 (q r B e : Z) (l : location) :
  2 ^ 52 <= q < 2 ^ 54 -> 0 <= r < B ->
  q * B + r <= 100 * B * 2 ^ (- e) -> -200 <= e <= -1 ->
  (r = 0 -> l = loc_Exact) ->
  F64.at_most_100 (binary_round_aux F64.prec F64.emax false q e l).
Proof.
  intros Hq Hr Hle He Hex.
  assert (Hw : 0 < 2 ^ (- e)) by (apply Z.pow_pos_nonneg; lia).
  assert (Hqw : q <= 100 * 2 ^ (- e)) by nia.
  rewrite round_aux_finish.
  destruct (Z.ltb_spec q (2 ^ 53)) as [Hq53|Hq53].
  - assert (He46 : e <= -46).
    { destruct (Z.leb_spec e (-46)); [done|].
      pose proof (pow2_le (- e) 45). lia. }
    rewrite first_shift_53 by lia. cbn [fst snd].
    destruct (record_of_loc q l) as [-> ->].
    destruct (round_even_cases q l) as [Hm|Hm]; rewrite Hm;
      rewrite finish_spec by lia.
    + rewrite (proj2 (Z.ltb_lt q (2 ^ 53))) by lia.
      exists (Z.to_pos q), e. split; [done|].
      rewrite Z2Pos.id by lia.
      destruct (Z.eqb_spec e (-46)) as [->|]; [|lia].
      change (2 ^ (- -46)) with 70368744177664 in *. lia.
    + destruct (Z.eqb_spec e (-46)) as [->|Hne].
      * change (2 ^ (- -46)) with 70368744177664 in *.
        rewrite (proj2 (Z.ltb_lt (q + 1) (2 ^ 53))) by lia.
        exists (Z.to_pos (q + 1)), (-46). split; [done|].
        rewrite Z2Pos.id by lia. right. split; [done|].
        destruct (Z.eqb_spec q 7036874417766400) as [->|]; [|lia].
        assert (r = 0) by lia. rewrite (Hex ltac:(done)) in Hm.
        cbn in Hm. lia.
      * destruct (Z.ltb_spec (q + 1) (2 ^ 53)).
        -- exists (Z.to_pos (q + 1)), e. split; [done|]. lia.
        -- exists 4503599627370496%positive, (e + 1). split; [done|]. lia.
  - assert (He47 : e <= -47).
    { destruct (Z.leb_spec e (-47)); [done|].
      pose proof (pow2_le (- e) 46). lia. }
    rewrite first_shift_54 by lia. cbn [fst snd].
    destruct (shr_1_half q l) as (h & -> & Hh & Hexact); [lia|].
    set (l' := loc_of_shr_record _) in *.
    destruct (round_even_cases h l') as [Hm|Hm]; rewrite Hm;
      rewrite finish_spec by lia.
    + rewrite (proj2 (Z.ltb_lt h (2 ^ 53))) by lia.
      exists (Z.to_pos h), (e + 1). split; [done|].
      rewrite Z2Pos.id by lia.
      destruct (Z.eqb_spec e (-47)) as [->|]; [|lia].
      change (2 ^ (- -47)) with 140737488355328 in *. lia.
    + destruct (Z.eqb_spec e (-47)) as [->|Hne].
      * change (2 ^ (- -47)) with 140737488355328 in *.
        rewrite (proj2 (Z.ltb_lt (h + 1) (2 ^ 53))) by lia.
        exists (Z.to_pos (h + 1)), (-47 + 1). split; [done|].
        rewrite Z2Pos.id by lia. right. split; [done|].
        destruct (Z.eqb_spec h 7036874417766400) as [->|]; [|lia].
        assert (q = 2 * 7036874417766400) by lia.
        assert (r = 0) by lia.
        rewrite (Hexact ltac:(done) (Hex ltac:(done))) in Hm.
        cbn in Hm. lia.
      * destruct (Z.ltb_spec (h + 1) (2 ^ 53)).
        -- exists (Z.to_pos (h + 1)), (e + 1). split; [done|]. lia.
        -- exists 4503599627370496%positive, (e + 1 + 1). split; [done|]. lia.
Qed.

Lemma new_location_exact (B : Z) : new_location B 0 = loc_Exact.
Proof. unfold new_location. by destruct (Z.even B). Qed.

(** The share of [k] among [n], in percent, computed as the program
    does: it lies between 0 and 100. *)
Lemma percentage_bounds (k n : Z) :
  0 <= k <= n -> 0 < n -> 100 * n < 2 ^ 53 ->
  let f := F64.div (F64.mul (F64.of_int k) (F64.of_int 100)) (F64.of_int n) in
  F64.le F64.zero f = true /\ F64.le f (F64.of_int 100) = true.
Proof.
  intros Hk Hn Hb. cbv zeta. rewrite mul_100 by lia.
  assert (Hn' : 0 < n < 2 ^ 53) by lia.
  destruct (mant_spec n Hn') as [Hmn Hdn].
  pose proof (digits_small n Hn') as Hsn.
  rewrite (of_int_pos n) by done.
  destruct (Z.eqb_spec k 0) as [->|Hne].
  { rewrite of_int_100. by vm_compute. }
  assert (Ha : 0 < 100 * k < 2 ^ 53) by lia.
  destruct (mant_spec (100 * k) Ha) as [Hma Hda].
  pose proof (digits_small (100 * k) Ha) as Hsa.
  rewrite (of_int_pos (100 * k)) by done.
  pose proof (digits_bounds (F64.mant (100 * k))) as Hba. rewrite Hda in Hba.
  pose proof (digits_bounds (F64.mant n)) as Hbn. rewrite Hdn in Hbn.
  unfold F64.div, SFdiv. rewrite div_core by (done || lia). cbn [xorb].
  set (A := Z.pos (F64.mant (100 * k)) * 2 ^ 53).
  set (B := Z.pos (F64.mant n)).
  pose proof (Z.div_mod A B ltac:(lia)) as Hdm.
  pose proof (Z.mod_pos_bound A B ltac:(lia)) as Hr.
  apply at_most_100_le, (round_aux_le_100 _ (A mod B) B).
  - split.
    + apply Z.div_le_lower_bound; [lia|]. unfold A, B. lia.
    + apply Z.div_lt_upper_bound; [lia|]. unfold A, B. lia.
  - done.
  - replace (A / B * B + A mod B) with A by lia.
    unfold A, B. rewrite Hma, Hmn.
    replace (- (Zdigits2 (100 * k) - 53 - (Zdigits2 n - 53) - 53))
      with ((53 - Zdigits2 (100 * k)) + 53 - (53 - Zdigits2 n)) by lia.
    assert (Hp : 2 ^ (53 - Zdigits2 n) *
                 2 ^ (53 - Zdigits2 (100 * k) + 53 - (53 - Zdigits2 n)) =
                 2 ^ (53 - Zdigits2 (100 * k)) * 2 ^ 53).
    { rewrite <- !Z.pow_add_r by lia. f_equal. lia. }
    assert (0 < 2 ^ (53 - Zdigits2 (100 * k)) * 2 ^ 53)
      by (apply Z.mul_pos_pos; apply Z.pow_pos_nonneg; lia).
    nia.
  - lia.
  - intros ->. apply new_location_exact.
Qed.

End F64Arith.

(* ===================================================================== *)
(** * The aggregator: coalesceMasquerades *)
(* ===================================================================== *)

Module AggregatorProofs.
Import Genconfig.

Lemma store_freq_same (h : store) (p : ptr) (f : float64) :
  store_freq h p f !!! p = set_freq f (h !!! p).
Proof. unfold store_freq. apply lookup_total_insert_eq. Qed.

Lemma store_freq_other (h : store) (p q : ptr) (f : float64) :
  p <> q -> store_freq h p f !!! q = h !!! q.
Proof. intros Hne. unfold store_freq. by apply lookup_total_insert_ne. Qed.

Lemma store_freq_Cert (h : store) (p q : ptr) (f : float64) :
  Cert (store_freq h p f !!! q) = Cert (h !!! q).
Proof.
  destruct (decide (p = q)) as [->|Hne].
  - by rewrite store_freq_same.
  - by rewrite store_freq_other.
Qed.

Lemma store_freq_freq (h : store) (p : ptr) (f : float64) :
  freq (store_freq h p f !!! p) = f.
Proof. by rewrite store_freq_same. Qed.

(** ** The first loop *)

Lemma coalesce_snoc (h : store) (l : list masquerade) (m : masquerade) :
  coalesce h (l ++ [m]) = coalesce_step (coalesce h l) m.
Proof. unfold coalesce. by rewrite fold_left_app. Qed.

Lemma coalesce_step_Cert (st : coalesced) (m : masquerade) (q : ptr) :
  Cert (heap (coalesce_step st m) !!! q) = Cert (heap st !!! q).
Proof. unfold coalesce_step; simpl. apply store_freq_Cert. Qed.

Lemma coalesce_Cert (h : store) (l : list masquerade) (q : ptr) :
  Cert (heap (coalesce h l) !!! q) = Cert (h !!! q).
Proof.
  induction l as [|m l IH] using rev_ind; [done|].
  by rewrite coalesce_snoc, coalesce_step_Cert.
Qed.

Lemma coalesce_step_keyed (st : coalesced) (m : masquerade) :
  keyed (heap st) (allCAs st) ->
  keyed (heap (coalesce_step st m)) (allCAs (coalesce_step st m)).
Proof.
  intros Hk k p. rewrite coalesce_step_Cert.
  unfold coalesce_step; simpl. rewrite store_freq_Cert.
  set (ca := match allCAs st !! Cert (heap st !!! RootCA m) with
             | Some p => p | None => RootCA m end).
  destruct (decide (Cert (heap st !!! ca) = k)) as [<-|Hne].
  - rewrite lookup_insert_eq. by intros [= <-].
  - rewrite lookup_insert_ne by done. apply Hk.
Qed.

Lemma coalesce_keyed (h : store) (l : list masquerade) :
  keyed (heap (coalesce h l)) (allCAs (coalesce h l)).
Proof.
  induction l as [|m l IH] using rev_ind.
  - intros k p. unfold coalesce; simpl. by rewrite lookup_empty.
  - rewrite coalesce_snoc. by apply coalesce_step_keyed.
Qed.

Lemma coalesce_allMasquerades (h : store) (l : list masquerade) :
  allMasquerades (coalesce h l) = l.
Proof.
  induction l as [|m l IH] using rev_ind; [done|].
  rewrite coalesce_snoc. unfold coalesce_step; simpl. by rewrite IH.
Qed.

(** The CA that an iteration counts: the one already filed under the
    certificate of the result, or else the result's own. *)
Lemma coalesce_step_lookup (st : coalesced) (m : masquerade) :
  keyed (heap st) (allCAs st) ->
  exists ca,
    allCAs (coalesce_step st m) = <[Cert (heap st !!! RootCA m) := ca]> (allCAs st) /\
    heap (coalesce_step st m) =
      store_freq (heap st) ca (F64.add (freq (heap st !!! ca)) (F64.of_int 1)) /\
    Cert (heap st !!! ca) = Cert (heap st !!! RootCA m) /\
    (allCAs st !! Cert (heap st !!! RootCA m) = Some ca \/
     allCAs st !! Cert (heap st !!! RootCA m) = None /\ ca = RootCA m).
Proof.
  intros Hk. unfold coalesce_step; simpl.
  destruct (allCAs st !! Cert (heap st !!! RootCA m)) as [p|] eqn:E.
  - exists p. rewrite store_freq_Cert, (Hk _ _ E). repeat split; auto.
  - exists (RootCA m). rewrite store_freq_Cert. repeat split; auto.
Qed.

(** Every result received has its certificate filed. *)
Lemma coalesce_covers (h : store) (l : list masquerade) (m : masquerade) :
  m ∈ l -> is_Some (allCAs (coalesce h l) !! Cert (h !!! RootCA m)).
Proof.
  induction l as [|m' l IH] using rev_ind; [by intros ?%elem_of_nil|].
  rewrite coalesce_snoc.
  destruct (coalesce_step_lookup (coalesce h l) m' (coalesce_keyed h l))
    as (ca & -> & _ & _ & _).
  rewrite coalesce_Cert.
  intros [Hin| ->%list_elem_of_singleton]%elem_of_app.
  - destruct (decide (Cert (h !!! RootCA m') = Cert (h !!! RootCA m))) as [->|Hne].
    + rewrite lookup_insert_eq. eauto.
    + rewrite lookup_insert_ne by done. auto.
  - rewrite lookup_insert_eq. eauto.
Qed.

(** ** The second loop *)

Lemma trust_over_snoc (mf : float64) (c : Z) (h : store)
    (l : list (string * ptr)) (e : string * ptr) :
  trust_over mf c h (l ++ [e]) = trust_step mf c (trust_over mf c h l) e.
Proof. unfold trust_over. by rewrite fold_left_app. Qed.

Lemma trust_step_heap (mf : float64) (c : Z) (acc : store * gmap string ptr)
    (e : string * ptr) :
  (trust_step mf c acc e).1 =
  store_freq acc.1 e.2 (relative_freq c (freq (acc.1 !!! e.2))).
Proof. unfold trust_step. by case (F64.gt _ _). Qed.

Lemma trust_step_trusted (mf : float64) (c : Z) (acc : store * gmap string ptr)
    (e : string * ptr) :
  (trust_step mf c acc e).2 =
  if F64.gt (freq ((trust_step mf c acc e).1 !!! e.2)) mf
  then <[Cert (acc.1 !!! e.2) := e.2]> acc.2
  else acc.2.
Proof.
  rewrite trust_step_heap. unfold trust_step.
  rewrite store_freq_Cert. by case (F64.gt _ _).
Qed.

Lemma store_freq_CommonName (h : store) (p q : ptr) (f : float64) :
  CommonName (store_freq h p f !!! q) = CommonName (h !!! q).
Proof.
  destruct (decide (p = q)) as [->|Hne].
  - by rewrite store_freq_same.
  - by rewrite store_freq_other.
Qed.

Lemma trust_over_post (mf : float64) (c : Z) (h : store)
    (l : list (string * ptr)) :
  NoDup l.*1 -> NoDup l.*2 ->
  (forall k p, (k, p) ∈ l -> Cert (h !!! p) = k) ->
  trust_post mf c h l (trust_over mf c h l).
Proof.
  induction l as [|[k0 p0] l IH] using rev_ind; intros Hk Hp Hc.
  - split; unfold trust_over; simpl; try done.
    + by intros k p ?%elem_of_nil.
    + intros k p. rewrite lookup_empty.
      split; [done|]. by intros [?%elem_of_nil _].
  - rewrite fmap_app in Hk. rewrite fmap_app in Hp. simpl in Hk, Hp.
    apply NoDup_app in Hk as (Hk & Hk0 & _).
    apply NoDup_app in Hp as (Hp & Hp0 & _).
    assert (Hk0' : k0 ∉ l.*1).
    { intros Hin. apply (Hk0 _ Hin). by left. }
    assert (Hp0' : p0 ∉ l.*2).
    { intros Hin. apply (Hp0 _ Hin). by left. }
    destruct IH as [IHc IHn IHu IHf IHt]; [done|done|..].
    { intros k p Hin. apply Hc, elem_of_app. by left. }
    assert (Hother : forall k p, (k, p) ∈ l -> p <> p0).
    { intros k p Hin ->. apply Hp0'.
      apply list_elem_of_fmap. by exists (k, p0). }
    assert (Hc0 : Cert ((trust_over mf c h l).1 !!! p0) = k0).
    { rewrite IHc. apply Hc, elem_of_app. right. by left. }
    rewrite trust_over_snoc.
    split.
    + intros q. by rewrite trust_step_heap, store_freq_Cert.
    + intros q. by rewrite trust_step_heap, store_freq_CommonName.
    + intros q Hq. rewrite fmap_app in Hq. simpl in Hq.
      rewrite trust_step_heap; simpl.
      rewrite store_freq_other.
      * apply IHu. intros Hin. apply Hq, elem_of_app. by left.
      * intros <-. apply Hq, elem_of_app. right. by left.
    + intros k p [Hin|Hin%list_elem_of_singleton]%elem_of_app.
      * rewrite trust_step_heap; simpl.
        rewrite store_freq_other by (symmetry; by eapply Hother).
        by eapply IHf.
      * injection Hin as -> ->.
        rewrite trust_step_heap; simpl.
        by rewrite store_freq_freq, (IHu _ Hp0').
    + intros k p. rewrite trust_step_trusted; simpl. rewrite Hc0.
      rewrite elem_of_app, list_elem_of_singleton.
      destruct (decide (k = k0)) as [->|Hne].
      * assert (Hnot : forall q, (k0, q) ∉ l).
        { intros q Hin. apply Hk0'. apply list_elem_of_fmap. by exists (k0, q). }
        destruct (F64.gt _ mf) eqn:Hgt.
        -- rewrite lookup_insert_eq. split.
           ++ intros [= <-]. auto.
           ++ intros [[Hin|[= ->]] _]; [by apply Hnot in Hin|done].
        -- rewrite IHt. split.
           ++ intros [Hin _]. by apply Hnot in Hin.
           ++ intros [[Hin|[= ->]] Hgt']; [by apply Hnot in Hin|congruence].
      * assert (Heq : (trust_step mf c (trust_over mf c h l) (k0, p0)).2 !! k
                      = (trust_over mf c h l).2 !! k).
        { rewrite trust_step_trusted; simpl. rewrite Hc0.
          case (F64.gt _ mf); [by rewrite lookup_insert_ne|done]. }
        rewrite trust_step_trusted in Heq; simpl in Heq. rewrite Hc0 in Heq.
        rewrite Heq, IHt. split.
        -- intros [Hin Hgt]. split; [by left|].
           rewrite trust_step_heap; simpl.
           by rewrite store_freq_other by (symmetry; by eapply Hother).
        -- intros [[Hin|[= ? ?]] Hgt]; [|done]. split; [done|].
           rewrite trust_step_heap in Hgt; simpl in Hgt.
           by rewrite store_freq_other in Hgt by (symmetry; by eapply Hother).
Qed.

Lemma coalesce_entries (h : store) (l : list masquerade) :
  let entries := map_to_list (allCAs (coalesce h l)) in
  NoDup entries.*1 /\ NoDup entries.*2 /\
  forall k p, (k, p) ∈ entries -> Cert (heap (coalesce h l) !!! p) = k.
Proof.
  intros entries.
  assert (Hc : forall k p, (k, p) ∈ entries -> Cert (heap (coalesce h l) !!! p) = k).
  { intros k p Hin%elem_of_map_to_list. by apply coalesce_keyed. }
  split; [apply NoDup_fst_map_to_list|]. split; [|done].
  apply NoDup_fmap_2_strong; [|apply NoDup_map_to_list].
  intros [k1 p1] [k2 p2] H1 H2; simpl; intros <-.
  by rewrite <- (Hc _ _ H1), <- (Hc _ _ H2).
Qed.

(** Go ranges over [allCAs] in an order of its own choosing.  The loop
    writes to a different address and files under a different key in every
    iteration, so the order makes no difference. *)
Lemma trust_step_commute (mf : float64) (c : Z)
    (acc : store * gmap string ptr) (x y : string * ptr) :
  x.2 <> y.2 ->
  Cert (acc.1 !!! x.2) <> Cert (acc.1 !!! y.2) ->
  trust_step mf c (trust_step mf c acc x) y =
  trust_step mf c (trust_step mf c acc y) x.
Proof.
  destruct acc as [h t], x as [k1 p1], y as [k2 p2]; simpl.
  intros Hp Hk.
  apply injective_projections.
  - rewrite !trust_step_heap; simpl.
    rewrite !store_freq_other by done.
    unfold store_freq.
    rewrite (lookup_total_insert_ne h p1 p2), (lookup_total_insert_ne h p2 p1)
      by done.
    by apply insert_insert_ne.
  - rewrite !trust_step_trusted; simpl.
    rewrite !trust_step_heap; simpl.
    rewrite !store_freq_Cert, !store_freq_freq.
    rewrite !store_freq_other by done.
    rewrite ?trust_step_trusted; simpl.
    rewrite ?trust_step_heap; simpl. rewrite ?store_freq_freq.
    destruct (F64.gt (relative_freq c (freq (h !!! p1))) mf);
      destruct (F64.gt (relative_freq c (freq (h !!! p2))) mf);
      try done.
    symmetry. by apply insert_insert_ne.
Qed.

Lemma trust_step_Cert (mf : float64) (c : Z) (acc : store * gmap string ptr)
    (e : string * ptr) (q : ptr) :
  Cert ((trust_step mf c acc e).1 !!! q) = Cert (acc.1 !!! q).
Proof. by rewrite trust_step_heap, store_freq_Cert. Qed.

Lemma trust_fold_perm (mf : float64) (c : Z) (l1 l2 : list (string * ptr)) :
  l1 ≡ₚ l2 ->
  forall acc : store * gmap string ptr,
  NoDup l1.*1 -> NoDup l1.*2 ->
  (forall k p, (k, p) ∈ l1 -> Cert (acc.1 !!! p) = k) ->
  fold_left (trust_step mf c) l1 acc = fold_left (trust_step mf c) l2 acc.
Proof.
  induction 1 as [|x l1 l2 HP IH|x y l|l1 l2 l3 HP1 IH1 HP2 IH2];
    intros acc Hk Hp Hc.
  - done.
  - simpl. rewrite fmap_cons in Hk. rewrite fmap_cons in Hp.
    apply NoDup_cons in Hk as [_ Hk]. apply NoDup_cons in Hp as [_ Hp].
    apply IH; [done|done|].
    intros k p Hin. rewrite trust_step_Cert. apply Hc. by right.
  - simpl. f_equal. destruct x as [k1 p1], y as [k2 p2].
    rewrite !fmap_cons in Hk. rewrite !fmap_cons in Hp. simpl in Hk, Hp.
    apply NoDup_cons in Hk as [Hk _]. apply NoDup_cons in Hp as [Hp _].
    apply trust_step_commute; simpl.
    + intros ->. apply Hp. by left.
    + rewrite (Hc k1 p1), (Hc k2 p2).
      * intros ->. apply Hk. by left.
      * by left.
      * right. by left.
  - rewrite IH1 by done. apply IH2.
    + by rewrite <- HP1.
    + by rewrite <- HP1.
    + intros k p Hin. apply Hc. by rewrite HP1.
Qed.

(** X8.  [coalesceMasquerades]: the loop [for _, ca := range allCAs]
    leaves the same store and the same map of trusted CAs in whatever
    order Go ranges over the map. *)
Lemma trust_over_any_order (mf : float64) (h : store) (l : list masquerade)
    (entries : list (string * ptr)) :
  let st := coalesce h l in
  entries ≡ₚ map_to_list (allCAs st) ->
  trust_over mf (count st) (heap st) entries =
  trust_over mf (count st) (heap st) (map_to_list (allCAs st)).
Proof.
  intros st HP. destruct (coalesce_entries h l) as (Hk & Hp & Hc).
  unfold trust_over. symmetry. apply trust_fold_perm; try done.
Qed.

(** ** The function as a whole *)

Lemma aggregate_unfold (mf : float64) (h : store) (l : list masquerade) :
  let st := coalesce h l in
  let r := trust_over mf (count st) (heap st) (map_to_list (allCAs st)) in
  aggregate mf h l =
  {| phase1 := st; trustedCAs := r.2;
     trustedMasquerades := pick_trusted r.1 r.2 (allMasquerades st);
     final_heap := r.1 |}.
Proof. simpl. unfold aggregate. by destruct (trust_over _ _ _ _). Qed.

Lemma aggregate_post (mf : float64) (h : store) (l : list masquerade) :
  let r := aggregate mf h l in
  trust_post mf (count (phase1 r)) (heap (phase1 r))
    (map_to_list (allCAs (phase1 r))) (final_heap r, trustedCAs r).
Proof.
  simpl. rewrite aggregate_unfold; simpl.
  destruct (coalesce_entries h l) as (Hk & Hp & Hc).
  rewrite <- surjective_pairing. by apply trust_over_post.
Qed.

(** C1.  For every CA that the first loop has filed, with the frequency
    that the second loop computes and stores for it: the CA is in
    [trustedCAs] exactly when that frequency is strictly greater than
    [minFreq]; a frequency equal to [minFreq], as a float ([==]) or as
    the very same value, leaves it out.  Nothing else is in
    [trustedCAs]. *)
Theorem trusted_iff_freq_exceeds_minFreq
    (minFreq : float64) (h : store) (results : list masquerade) :
  let r := aggregate minFreq h results in
  (forall cert ca, allCAs (phase1 r) !! cert = Some ca ->
     freq (final_heap r !!! ca) =
       relative_freq (count (phase1 r)) (freq (heap (phase1 r) !!! ca)) /\
     (trustedCAs r !! cert = Some ca <->
        F64.gt (freq (final_heap r !!! ca)) minFreq = true) /\
     (F64.gt (freq (final_heap r !!! ca)) minFreq = false ->
        trustedCAs r !! cert = None) /\
     (F64.eqb (freq (final_heap r !!! ca)) minFreq = true \/
      freq (final_heap r !!! ca) = minFreq ->
        trustedCAs r !! cert = None)) /\
  (forall cert ca, trustedCAs r !! cert = Some ca ->
     allCAs (phase1 r) !! cert = Some ca).
Proof.
  intros r. destruct (aggregate_post minFreq h results) as [_ _ _ Hf Ht].
  fold r in Hf, Ht. simpl in Hf, Ht.
  split.
  - intros cert ca Hin.
    assert (Hl : (cert, ca) ∈ map_to_list (allCAs (phase1 r)))
      by by apply elem_of_map_to_list.
    assert (Hnone : F64.gt (freq (final_heap r !!! ca)) minFreq = false ->
                    trustedCAs r !! cert = None).
    { intros Hgt. destruct (trustedCAs r !! cert) as [ca'|] eqn:E; [|done].
      apply Ht in E as [Hin'%elem_of_map_to_list Hgt'].
      assert (ca' = ca) by congruence. subst. congruence. }
    split; [by eapply Hf|]. split; [|split; [done|]].
    + rewrite Ht. split; [by intros [_ ?]|by split].
    + intros [Heq|Heq]; apply Hnone.
      * by apply F64Facts.eqb_not_gt.
      * rewrite Heq. apply F64Facts.gt_irrefl.
  - intros cert ca [Hin _]%Ht. by apply elem_of_map_to_list.
Qed.

(** C2.  Every masquerade that [coalesceMasquerades] returns is one of the
    results received, and [trustedCAs] has an entry under the certificate
    of the CA that the masquerade points to; that entry points to a CA
    with this very certificate. *)
Theorem trusted_masquerades_have_trusted_CA
    (minFreq : float64) (h : store) (results : list masquerade)
    (m : masquerade) :
  let ret := coalesceMasquerades minFreq h results in
  let cas := ret.1.1 in
  let masquerades := ret.1.2 in
  let h' := ret.2 in
  m ∈ masquerades ->
  m ∈ results /\
  exists ca, cas !! Cert (h' !!! RootCA m) = Some ca /\
             Cert (h' !!! ca) = Cert (h' !!! RootCA m).
Proof.
  unfold coalesceMasquerades; simpl.
  destruct (aggregate_post minFreq h results) as [Hc _ _ _ Ht].
  simpl in Hc, Ht.
  destruct (coalesce_entries h results) as (_ & _ & Hk).
  rewrite aggregate_unfold in *; simpl in *.
  unfold pick_trusted. rewrite coalesce_allMasquerades.
  intros [[ca Hca] Hin]%list_elem_of_filter. split; [done|].
  exists ca. split; [exact Hca|].
  apply Ht in Hca as [Hl _]. rewrite !Hc. rewrite Hc in Hl.
  by apply Hk in Hl.
Qed.

(** The masquerade filter in both directions. *)
Lemma trusted_masquerades_iff
    (minFreq : float64) (h : store) (results : list masquerade)
    (m : masquerade) :
  let r := aggregate minFreq h results in
  m ∈ trustedMasquerades r <->
  m ∈ results /\ is_Some (trustedCAs r !! Cert (final_heap r !!! RootCA m)).
Proof.
  simpl. rewrite aggregate_unfold; simpl.
  unfold pick_trusted. rewrite coalesce_allMasquerades, list_elem_of_filter.
  split; intros [? ?]; by split.
Qed.

(** C4.  On an empty stream of results [coalesceMasquerades] returns the
    empty map and the empty list and leaves the store as it was; the
    frequency loop, the only place that divides, has no entry to run on. *)
Theorem no_results_nothing_trusted (minFreq : float64) (h : store) :
  coalesceMasquerades minFreq h [] = (∅, [], h) /\
  count (coalesce h []) = 0 /\
  map_to_list (allCAs (coalesce h [])) = [] /\
  trust_over minFreq (count (coalesce h [])) (heap (coalesce h []))
    (map_to_list (allCAs (coalesce h []))) = (h, ∅).
Proof.
  assert (E : map_to_list (allCAs (coalesce h [])) = [])
    by apply map_to_list_empty.
  unfold coalesceMasquerades, aggregate. rewrite E. by cbn.
Qed.

(** ** Counting *)

Lemma occurrences_snoc (h : store) (cert : string) (l : list masquerade)
    (m : masquerade) :
  occurrences h cert (l ++ [m]) =
  (occurrences h cert l + if decide (Cert (h !!! RootCA m) = cert) then 1 else 0)%nat.
Proof.
  unfold occurrences. rewrite filter_app, length_app. f_equal.
  rewrite filter_cons, filter_nil. by case_decide.
Qed.

Lemma occurrences_le (h : store) (cert : string) (l : list masquerade) :
  (occurrences h cert l <= length l)%nat.
Proof. apply length_filter. Qed.

Lemma occurrences_pos (h : store) (cert : string) (l : list masquerade)
    (m : masquerade) :
  m ∈ l -> Cert (h !!! RootCA m) = cert -> (1 <= occurrences h cert l)%nat.
Proof.
  intros Hin Hc. unfold occurrences.
  assert (Hm : m ∈ filter (fun m => Cert (h !!! RootCA m) = cert) l)
    by by apply list_elem_of_filter.
  destruct (filter _ l); [by apply elem_of_nil in Hm|cbn; lia].
Qed.

Lemma occurrences_none (h : store) (cert : string) (l : list masquerade) :
  allCAs (coalesce h l) !! cert = None -> occurrences h cert l = 0%nat.
Proof.
  intros Hnone. unfold occurrences.
  destruct (filter _ l) as [|m l'] eqn:E; [done|].
  assert (Hm : m ∈ filter (fun m => Cert (h !!! RootCA m) = cert) l)
    by (rewrite E; by left).
  apply list_elem_of_filter in Hm as [<- Hin].
  apply (coalesce_covers h) in Hin as [p Hp]. congruence.
Qed.

Lemma fresh_results_snoc (h : store) (l : list masquerade) (m : masquerade) :
  fresh_results h (l ++ [m]) ->
  fresh_results h l /\ freq (h !!! RootCA m) = F64.zero /\
  forall m', m' ∈ l -> RootCA m' <> RootCA m.
Proof.
  intros [Hnd Hz]. rewrite fmap_app in Hnd.
  apply NoDup_app in Hnd as (Hnd & Hdis & _).
  split; [split; [done|]|split].
  - intros m' Hin. apply Hz, elem_of_app. by left.
  - apply Hz, elem_of_app. right. by left.
  - intros m' Hin Heq. apply (Hdis (RootCA m')).
    + apply list_elem_of_fmap. by exists m'.
    + rewrite Heq. by left.
Qed.

Lemma int_add_small (a : Z) : 0 <= a < 2 ^ 53 -> int_add a 1 = a + 1.
Proof.
  intros Ha. unfold int_add, int_wrap.
  rewrite Z.mod_small; lia.
Qed.

Lemma coalesce_counted (h : store) (l : list masquerade) :
  fresh_results h l -> Z.of_nat (length l) < 2 ^ 53 ->
  counted h l (coalesce h l).
Proof.
  induction l as [|m l IH] using rev_ind; intros Hf Hlen.
  - split; done.
  - rewrite length_app in Hlen. cbn [length] in Hlen.
    apply fresh_results_snoc in Hf as (Hf & Hz & Hnew).
    destruct IH as [IHo IHu IHf IHc]; [done|lia|].
    rewrite coalesce_snoc.
    pose proof (coalesce_keyed h l) as Hkeyed.
    destruct (coalesce_step_lookup (coalesce h l) m Hkeyed)
      as (ca & Hcas & Hheap & Hcert & Hca).
    rewrite coalesce_Cert in Hcas, Hcert, Hca.
    set (cert := Cert (h !!! RootCA m)) in *.
    assert (Hfreq : freq (heap (coalesce h l) !!! ca) =
                    F64.of_int (Z.of_nat (occurrences h cert l))).
    { destruct Hca as [Hsome|[Hnone ->]]; [by apply IHf|].
      rewrite (occurrences_none _ _ _ Hnone), IHu by done.
      by rewrite Hz. }
    split.
    + intros k p. rewrite Hcas.
      destruct (decide (cert = k)) as [<-|Hne].
      * rewrite lookup_insert_eq. intros [= <-].
        destruct Hca as [Hsome|[_ ->]].
        -- destruct (IHo _ _ Hsome) as (m' & Hin & Heq).
           exists m'. split; [|done]. apply elem_of_app. by left.
        -- exists m. split; [|done]. apply elem_of_app. right. by left.
      * rewrite lookup_insert_ne by done. intros Hp.
        destruct (IHo _ _ Hp) as (m' & Hin & Heq).
        exists m'. split; [|done]. apply elem_of_app. by left.
    + intros q Hq. rewrite Hheap.
      assert (ca <> q).
      { destruct Hca as [Hsome|[_ ->]].
        - destruct (IHo _ _ Hsome) as (m' & Hin & <-).
          apply Hq, elem_of_app. by left.
        - apply Hq, elem_of_app. right. by left. }
      rewrite store_freq_other by done.
      apply IHu. intros m' Hin. apply Hq, elem_of_app. by left.
    + intros k p. rewrite Hcas, Hheap, occurrences_snoc. fold cert.
      destruct (decide (cert = k)) as [<-|Hne].
      * rewrite lookup_insert_eq. intros [= <-].
        rewrite store_freq_freq, Hfreq, F64Arith.add_one.
        -- f_equal. lia.
        -- lia.
        -- pose proof (occurrences_le h cert l). lia.
      * rewrite lookup_insert_ne by done. intros Hp.
        assert (ca <> p).
        { intros ->. apply Hne. rewrite <- (Hkeyed _ _ Hp).
          by rewrite coalesce_Cert in Hcert |- *. }
        rewrite store_freq_other, Nat.add_0_r by done. by apply IHf.
    + unfold coalesce_step; cbn [count]. rewrite IHc, int_add_small by lia.
      rewrite length_app. cbn [length]. lia.
Qed.

(** C3.  On results as [grabCerts] sends them (every masquerade pointing
    to a [castat] of its own with [freq] zero), and as long as 100 times
    their number stays below 2^53, the range in which float64 counts and
    multiplies integers exactly: for every CA filed by the first loop, the
    frequency that the second loop stores is the float64 quotient of 100
    times its number of occurrences (the results whose root certificate is
    the same string) by the number of all results, and it lies between 0
    and 100. *)
Theorem relative_frequency_is_percentage
    (minFreq : float64) (h : store) (results : list masquerade) :
  fresh_results h results ->
  100 * Z.of_nat (length results) < 2 ^ 53 ->
  let r := aggregate minFreq h results in
  forall cert ca, allCAs (phase1 r) !! cert = Some ca ->
    let k := Z.of_nat (occurrences h cert results) in
    let n := Z.of_nat (length results) in
    count (phase1 r) = n /\
    1 <= k <= n /\
    freq (final_heap r !!! ca) =
      F64.div (F64.mul (F64.of_int k) (F64.of_int 100)) (F64.of_int n) /\
    F64.le F64.zero (freq (final_heap r !!! ca)) = true /\
    F64.le (freq (final_heap r !!! ca)) (F64.of_int 100) = true.
Proof.
  intros Hf Hlen r cert ca Hin k n.
  destruct (aggregate_post minFreq h results) as [_ _ _ Hfreq _].
  fold r in Hfreq. cbn [fst] in Hfreq.
  assert (Hst : phase1 r = coalesce h results).
  { unfold r. by rewrite aggregate_unfold. }
  destruct (coalesce_counted h results Hf) as [Ho _ Hc Hn]; [lia|].
  rewrite Hst in *.
  assert (Hk : 1 <= k <= n).
  { unfold k, n. pose proof (occurrences_le h cert results).
    destruct (Ho _ _ Hin) as (m & Hm & <-).
    pose proof (coalesce_keyed h results _ _ Hin) as Hcert.
    rewrite coalesce_Cert in Hcert.
    pose proof (occurrences_pos h cert results m Hm Hcert). lia. }
  assert (Heq : freq (final_heap r !!! ca) =
                F64.div (F64.mul (F64.of_int k) (F64.of_int 100)) (F64.of_int n)).
  { rewrite (Hfreq cert ca) by by apply elem_of_map_to_list.
    unfold relative_freq. by rewrite Hn, (Hc _ _ Hin). }
  split; [done|]. split; [done|]. split; [done|].
  rewrite Heq. apply F64Arith.percentage_bounds; lia.
Qed.

End AggregatorProofs.

(* ===================================================================== *)
(** * Sorting: sort.Sort, ByFreq, ByDomain, buildModel *)
(* ===================================================================== *)

Module ModelProofs.
Import Genconfig.

(** ** The sort *)

Section Sort.
Context {A : Type} (less : A -> A -> bool) (P : A -> Prop).

(** On the elements that satisfy [P], [less] is a strict weak order. *)
Hypothesis less_asym : forall a b, P a -> P b -> less a b = true -> less b a = false.
Hypothesis before_trans :
  forall a b c, P a -> P b -> P c -> before less a b -> before less b c -> before less a c.

Lemma sort_insert_perm (x : A) (l : list A) : sort_insert less x l ≡ₚ x :: l.
Proof.
  induction l as [|y l IH]; simpl; [done|].
  destruct (less y x); [|done].
  rewrite IH. apply Permutation_swap.
Qed.

Lemma sort_Sort_perm (l : list A) : sort_Sort less l ≡ₚ l.
Proof.
  induction l as [|x l IH]; simpl; [done|].
  by rewrite sort_insert_perm, IH.
Qed.

Lemma sort_insert_sorted (x : A) (l : list A) :
  P x -> Forall P l ->
  StronglySorted (before less) l -> StronglySorted (before less) (sort_insert less x l).
Proof.
  intros Hx. induction l as [|y l IH]; simpl; intros HP Hs.
  - repeat constructor.
  - apply Forall_cons in HP as [Hy HP].
    apply StronglySorted_inv in Hs as [Hs Hall].
    destruct (less y x) eqn:E.
    + constructor; [by apply IH|].
      rewrite sort_insert_perm. constructor; [|done].
      by apply less_asym.
    + constructor; [by constructor|].
      constructor; [done|].
      rewrite Forall_forall in Hall, HP. apply Forall_forall.
      intros z Hz. apply (before_trans x y z); auto.
Qed.

Lemma sort_Sort_sorted (l : list A) :
  Forall P l -> StronglySorted (before less) (sort_Sort less l).
Proof.
  induction l as [|x l IH]; simpl; intros HP; [constructor|].
  apply Forall_cons in HP as [Hx HP].
  apply sort_insert_sorted; [done| |by apply IH].
  by rewrite sort_Sort_perm.
Qed.

End Sort.

Lemma StronglySorted_weaken {A : Type} (R R' : A -> A -> Prop) (l : list A) :
  (forall a b, a ∈ l -> b ∈ l -> R a b -> R' a b) ->
  StronglySorted R l -> StronglySorted R' l.
Proof.
  intros HR Hs. induction Hs as [|a l Hs IH Hall]; constructor.
  - apply IH. intros x y Hx Hy. apply HR; by right.
  - rewrite Forall_forall in Hall. apply Forall_forall.
    intros b Hb. apply HR; [by left|by right|by apply Hall].
Qed.

(** ** ByDomain *)

Lemma ltb_false_le (s1 s2 : string) :
  String.ltb s2 s1 = false <-> String.le s1 s2.
Proof.
  unfold String.le, String.ltb, String.leb.
  rewrite (String.compare_antisym s2 s1).
  destruct (String.compare s1 s2); simpl; split; done.
Qed.

Lemma ByDomain_sorted (l : list masquerade) :
  StronglySorted (fun a b => String.le (Domain a) (Domain b))
    (sort_Sort ByDomain_Less l).
Proof.
  apply (StronglySorted_weaken (before ByDomain_Less)).
  { intros a b _ _. unfold before, ByDomain_Less. apply ltb_false_le. }
  apply (sort_Sort_sorted ByDomain_Less (fun _ => True)).
  - intros a b _ _. unfold ByDomain_Less. intros Hlt.
    apply ltb_false_le. unfold String.le, String.leb.
    unfold String.ltb in Hlt. by destruct (String.compare _ _).
  - intros a b c _ _ _. unfold before, ByDomain_Less.
    rewrite !ltb_false_le. apply transitivity.
  - by apply Forall_forall.
Qed.

(** ** ByFreq *)

Lemma ByFreq_sorted (h : store) (l : list ptr) :
  Forall (fun p => F64.number (freq (h !!! p))) l ->
  StronglySorted (fun a b => F64.le (freq (h !!! b)) (freq (h !!! a)) = true)
    (sort_Sort (ByFreq_Less h) l).
Proof.
  intros HP.
  apply (StronglySorted_weaken (before (ByFreq_Less h))).
  { rewrite Forall_forall in HP. intros a b Ha Hb.
    rewrite sort_Sort_perm in Ha, Hb.
    unfold before, ByFreq_Less. apply F64Facts.not_gt_le; by apply HP. }
  apply (sort_Sort_sorted _ (fun p => F64.number (freq (h !!! p))));
    [| |done].
  - intros a b Ha Hb. unfold ByFreq_Less.
    intros Hgt%F64Facts.gt_key; [|done..].
    destruct (F64.gt _ _) eqn:E; [|done].
    apply F64Facts.gt_key in E; [|done..].
    unfold F64.key_lt in *. lia.
  - intros a b c Ha Hb Hc. unfold before, ByFreq_Less. intros H1 H2.
    destruct (F64.gt (freq (h !!! c)) (freq (h !!! a))) eqn:E; [|done].
    apply F64Facts.gt_key in E; [|done..].
    apply F64Facts.not_gt_le, F64Facts.le_key in H1; [|done..].
    apply F64Facts.not_gt_le, F64Facts.le_key in H2; [|done..].
    unfold F64.key_lt in *. lia.
Qed.

(** ** buildModel *)

(** C6.  In the model that [buildModel] returns, when no frequency among
    the CAs is NaN (a trusted CA has a frequency greater than the
    threshold, which a NaN never is): every CA of the list stands before
    those of lower or equal frequency, every masquerade stands before those
    of greater or equal domain name in the byte-wise order of strings, and
    the two lists hold the CAs of the map and the masquerades given. *)
Theorem buildModel_sorted (proxiedSites : domain_filter) (h : store)
    (cas : gmap string ptr) (masquerades : list masquerade) :
  (forall cert ca, cas !! cert = Some ca -> F64.is_nan (freq (h !!! ca)) = false) ->
  let m := buildModel proxiedSites h cas masquerades in
  StronglySorted (fun a b => F64.le (freq (h !!! b)) (freq (h !!! a)) = true)
    (model_cas m) /\
  StronglySorted (fun a b => String.le (Domain a) (Domain b))
    (model_masquerades m) /\
  model_cas m ≡ₚ (map_to_list cas).*2 /\
  model_masquerades m ≡ₚ masquerades.
Proof.
  intros Hnum m. unfold m, buildModel; simpl.
  split; [|split; [apply ByDomain_sorted|split; apply sort_Sort_perm]].
  apply ByFreq_sorted. apply Forall_forall.
  intros p Hp. apply list_elem_of_fmap in Hp as [[k p'] [-> Hin]].
  apply elem_of_map_to_list in Hin. by eapply Hnum.
Qed.

(** X15.  [main], [buildModel], [ByFreq], [ByDomain]: the model that
    [main] builds from the aggregator's output is sorted, whatever the
    results and the threshold. *)
Corollary main_model_sorted (proxiedSites : domain_filter) (minFreq : float64)
    (h : store) (results : list masquerade) :
  let m := (main_model proxiedSites minFreq h results).1 in
  let h' := (main_model proxiedSites minFreq h results).2 in
  StronglySorted (fun a b => F64.le (freq (h' !!! b)) (freq (h' !!! a)) = true)
    (model_cas m) /\
  StronglySorted (fun a b => String.le (Domain a) (Domain b))
    (model_masquerades m).
Proof.
  unfold main_model, coalesceMasquerades; simpl.
  pose proof (AggregatorProofs.aggregate_post minFreq h results) as [_ _ _ _ Ht].
  simpl in Ht.
  split; [|apply ByDomain_sorted].
  apply ByFreq_sorted. apply Forall_forall.
  intros p Hp. apply list_elem_of_fmap in Hp as [[k p'] [-> Hin]].
  apply elem_of_map_to_list, Ht in Hin as [_ Hgt].
  by apply F64Facts.gt_number in Hgt as [? _].
Qed.

End ModelProofs.

(* ===================================================================== *)
(** * The prober: grabCerts *)
(* ===================================================================== *)

Module ProberProofs.
Import Genconfig.

(** ** Escaping the newlines of the PEM encoding *)

Lemma replace_from_newline (n : Z) (s : string) :
  n < 0 -> replace_from newline backslash_n O n s = escape_newlines s.
Proof.
  revert n. induction s as [|c s IH]; intros n Hn; [done|].
  cbn [replace_from escape_newlines].
  destruct (Z.eqb_spec n 0) as [->|_]; [lia|].
  unfold newline at 1. cbn [String.prefix].
  destruct (ascii_dec nl c) as [<-|Hne].
  - rewrite decide_True by done.
    replace (String.prefix "" s) with true by (by destruct s).
    cbn. by rewrite IH by lia.
  - rewrite decide_False by done. by rewrite IH.
Qed.

Lemma Replace_newlines (s : string) :
  strings_Replace s newline backslash_n (-1) = escape_newlines s.
Proof.
  unfold strings_Replace.
  rewrite bool_decide_eq_false_2 by done. cbn [orb Z.eqb].
  rewrite bool_decide_eq_false_2 by done.
  by apply replace_from_newline.
Qed.

Lemma escape_newlines_clean (s : string) :
  nl ∉ list_ascii_of_string (escape_newlines s).
Proof.
  induction s as [|c s IH]; cbn [escape_newlines].
  - apply not_elem_of_nil.
  - case_decide; cbn [list_ascii_of_string]; rewrite ?not_elem_of_cons;
      repeat split; done.
Qed.

(** ** One domain *)

Lemma string_length_app (s1 s2 : string) :
  String.length (s1 +:+ s2) = (String.length s1 + String.length s2)%nat.
Proof.
  induction s1 as [|c s1 IH]; [done|].
  change (S (String.length (s1 +:+ s2)) =
          S (String.length s1 + String.length s2)).
  by rewrite IH.
Qed.

Lemma append_port_inj (d1 d2 : string) :
  d1 +:+ ":443" = d2 +:+ ":443" -> d1 = d2.
Proof.
  revert d2. induction d1 as [|c d1 IH]; intros [|c' d2] H.
  - done.
  - apply (f_equal String.length) in H.
    rewrite !string_length_app in H. cbn in H. lia.
  - apply (f_equal String.length) in H.
    rewrite !string_length_app in H. cbn in H. lia.
  - change (String c (d1 +:+ ":443") = String c' (d2 +:+ ":443")) in H.
    injection H as -> H. f_equal. by apply IH.
Qed.

(** What one turn of the loop adds to the trace. *)
Ltac trace_of_branch :=
  unfold alloc; cbn;
  eexists; split; [by rewrite <- ?app_assoc|];
  split; intros ?; cbn [app];
  rewrite ?elem_of_cons, elem_of_nil;
  intuition (simplify_eq; done).

Lemma grabCerts_body_trace (env : Env) (blacklist : gmap string bool)
    (w : worker) (domain : string) :
  exists t,
    w_trace (step_worker (grabCerts_body env blacklist w domain)) = w_trace w ++ t /\
    (forall a, EvDial a ∈ t -> a = domain +:+ ":443" /\ blacklist !! domain = None) /\
    (forall m, EvSend m ∈ t -> Domain m = domain /\ blacklist !! domain = None).
Proof.
  unfold grabCerts_body.
  case_bool_decide as Hb; [trace_of_branch|].
  assert (Hn : blacklist !! domain = None).
  { destruct (blacklist !! domain) eqn:E; [|done]. destruct Hb. eauto. }
  destruct (DialForTimings env _) as [cwt|err]; [|trace_of_branch].
  destruct (slice_index (VerifiedChains cwt) 0) as [chain|]; [|trace_of_branch].
  destruct (slice_index chain _) as [rootCA|]; [|trace_of_branch].
  destruct (LoadCertificateFromX509 env rootCA) as [rootCert|err];
    trace_of_branch.
Qed.

(** ** The loop *)

Lemma grabCerts_trace (env : Env) (blacklist : gmap string bool)
    (domains : list string) (w : worker) :
  exists t,
    w_trace (outcome_worker (grabCerts env blacklist domains w)) = w_trace w ++ t /\
    (forall a, EvDial a ∈ t ->
       exists d, d ∈ domains /\ a = d +:+ ":443" /\ blacklist !! d = None) /\
    (forall m, EvSend m ∈ t -> Domain m ∈ domains /\ blacklist !! Domain m = None).
Proof.
  revert w. induction domains as [|d rest IH]; intros w; cbn [grabCerts].
  - exists []. split; [by rewrite app_nil_r|].
    split; intros ? []%elem_of_nil.
  - destruct (grabCerts_body_trace env blacklist w d) as (t1 & Ht1 & Hd1 & Hs1).
    destruct (grabCerts_body env blacklist w d) as [w'|w' msg]; cbn in Ht1.
    + destruct (IH w') as (t2 & Ht2 & Hd2 & Hs2).
      exists (t1 ++ t2). split; [by rewrite Ht2, Ht1, app_assoc|].
      split.
      * intros a [Ha|Ha]%elem_of_app.
        -- exists d. destruct (Hd1 _ Ha). repeat split; [by left|done..].
        -- destruct (Hd2 _ Ha) as (d' & ? & ? & ?). exists d'.
           repeat split; [by right|done..].
      * intros m [Hm|Hm]%elem_of_app.
        -- destruct (Hs1 _ Hm) as [-> ?]. split; [by left|done].
        -- destruct (Hs2 _ Hm). split; [by right|done].
    + exists t1. split; [done|]. split.
      * intros a Ha. exists d. destruct (Hd1 _ Ha). repeat split; [by left|done..].
      * intros m Hm. destruct (Hs1 _ Hm) as [-> ?]. split; [by left|done].
Qed.

Lemma elem_of_dialled (a : string) (t : list event) :
  a ∈ dialled t <-> EvDial a ∈ t.
Proof.
  unfold dialled. rewrite list_elem_of_omap. split.
  - intros (e & He & Hm). destruct e; by simplify_eq.
  - intros H. by exists (EvDial a).
Qed.

Lemma elem_of_sent (m : masquerade) (t : list event) :
  m ∈ sent t <-> EvSend m ∈ t.
Proof.
  unfold sent. rewrite list_elem_of_omap. split.
  - intros (e & He & Hm). destruct e; by simplify_eq.
  - intros H. by exists (EvSend m).
Qed.

(** C7.  A domain that is a key of the blacklist is left by the loop after
    the membership test and one line of log, before the dial; a worker
    that starts with an empty trace, whatever domains it receives and
    however it ends, never dials the domain's address and never sends a
    masquerade for the domain. *)
Theorem blacklisted_never_dialled (env : Env) (blacklist : gmap string bool)
    (h : store) (domains : list string) (domain : string) :
  is_Some (blacklist !! domain) ->
  let w' := outcome_worker (grabCerts env blacklist domains (mkWorker h [])) in
  (forall w, grabCerts_body env blacklist w domain =
     Continue (emit (EvLog "TRACE" "Domain %s is blacklisted, skipping" [domain]) w)) /\
  ((domain +:+ ":443") ∉ dialled (w_trace w')) /\
  (forall m, m ∈ sent (w_trace w') -> Domain m <> domain).
Proof.
  intros [b Hb] w'.
  destruct (grabCerts_trace env blacklist domains (mkWorker h []))
    as (t & Ht & Hd & Hs).
  fold w' in Ht. cbn in Ht. rewrite Ht.
  split; [|split].
  - intros w. unfold grabCerts_body. rewrite bool_decide_eq_true_2; eauto.
  - intros Ha%elem_of_dialled. apply Hd in Ha as (d & _ & Heq & Hnone).
    apply append_port_inj in Heq as ->. congruence.
  - intros m Hm%elem_of_sent Heq. apply Hs in Hm as [_ Hnone].
    rewrite Heq in Hnone. congruence.
Qed.

(** ** The outcomes of one probe *)

Lemma slice_index_last {A : Type} (l : list A) (x : A) :
  last l = Some x -> slice_index l (Z.of_nat (length l) - 1) = Some x.
Proof.
  intros [l' ->]%last_Some. unfold slice_index.
  rewrite length_app; cbn [length].
  destruct (Z.ltb_spec (Z.of_nat (length l' + 1) - 1) 0) as [|_]; [lia|].
  replace (Z.to_nat (Z.of_nat (length l' + 1) - 1)) with (length l' + 0)%nat by lia.
  by rewrite lookup_app_r, Nat.add_comm, Nat.add_sub by lia.
Qed.

Lemma slice_index_0 {A : Type} (l : list A) : slice_index l 0 = l !! 0%nat.
Proof. done. Qed.

Lemma slice_index_empty {A : Type} :
  slice_index (@nil A) (Z.of_nat (length (@nil A)) - 1) = None.
Proof. done. Qed.

Lemma sent_app (t1 t2 : list event) : sent (t1 ++ t2) = sent t1 ++ sent t2.
Proof. unfold sent. by rewrite omap_app. Qed.

Lemma sent_emit (e : event) (w : worker) :
  sent (w_trace (emit e w)) =
  sent (w_trace w) ++ match e with EvSend m => [m] | _ => [] end.
Proof. unfold sent, emit; cbn. rewrite omap_app. by destruct e. Qed.

(** C8.  When the domain is not blacklisted, the dial succeeds, the first
    verified chain ends in [rootCA] and keyman loads that certificate, the
    loop sends exactly one masquerade; it points to a new [castat] whose
    [CommonName] is the subject common name of [rootCA] and whose [Cert]
    is the PEM encoding of [rootCA] with every newline byte replaced by
    backslash, n, so that no newline byte is left in it. *)
Theorem probe_success_root_CA (env : Env) (blacklist : gmap string bool)
    (w : worker) (domain : string) (cwt : ConnWithTimings)
    (chain : list x509_Certificate) (rootCA : x509_Certificate)
    (rootCert : keyman_Certificate env) :
  blacklist !! domain = None ->
  DialForTimings env (domain +:+ ":443") = Ok cwt ->
  VerifiedChains cwt !! 0%nat = Some chain ->
  last chain = Some rootCA ->
  LoadCertificateFromX509 env rootCA = Ok rootCert ->
  let ca := fresh (dom (w_heap w)) in
  exists w',
    grabCerts_body env blacklist w domain = Continue w' /\
    sent (w_trace w') =
      sent (w_trace w) ++
      [{| Domain := domain;
          IpAddress := IP_String env (ResolvedAddr_IP cwt);
          RootCA := ca |}] /\
    (ca ∉ dom (w_heap w)) /\
    CommonName (w_heap w' !!! ca) = Subject_CommonName rootCA /\
    Cert (w_heap w' !!! ca) = escape_newlines (PEMEncoded env rootCert) /\
    (nl ∉ list_ascii_of_string (Cert (w_heap w' !!! ca))) /\
    freq (w_heap w' !!! ca) = F64.zero.
Proof.
  intros Hb Hdial Hchain Hlast Hload ca.
  unfold grabCerts_body.
  rewrite bool_decide_eq_false_2 by (rewrite Hb; by intros [? ?]).
  rewrite Hdial, slice_index_0.
  rewrite Hchain, (slice_index_last _ _ Hlast), Hload.
  unfold alloc. cbn [w_heap w_trace].
  eexists. split; [done|].
  rewrite sent_emit. cbn [w_trace w_heap emit].
  rewrite !sent_app. cbn [sent omap list_omap]. rewrite !app_nil_r.
  subst ca. rewrite lookup_total_insert_eq. cbn [CommonName Cert freq].
  rewrite Replace_newlines.
  repeat split; try done.
  - apply is_fresh.
  - apply escape_newlines_clean.
Qed.

(** ** Failures *)



(** The loop has no check of its own on the lengths: it relies on the
    dial, which verifies, for a first chain that is not empty.  Were a
    connection returned without one, indexing would panic and the loop
    be left. *)
Lemma empty_chain_panics (env : Env) (blacklist : gmap string bool)
    (w : worker) (domain : string) (rest : list string) (cwt : ConnWithTimings) :
  blacklist !! domain = None ->
  DialForTimings env (domain +:+ ":443") = Ok cwt ->
  VerifiedChains cwt !! 0%nat = None \/ VerifiedChains cwt !! 0%nat = Some [] ->
  exists w',
    grabCerts_body env blacklist w domain = Panic w' "index out of range" /\
    grabCerts env blacklist (domain :: rest) w =
      Panicked w' "index out of range" rest.
Proof.
  intros Hb Hdial Hchain. cbn [grabCerts]. unfold grabCerts_body.
  rewrite bool_decide_eq_false_2 by (rewrite Hb; by intros [? ?]).
  rewrite Hdial, slice_index_0.
  destruct Hchain as [-> | ->]; [|rewrite slice_index_empty]; eauto.
Qed.

(** So it is in the network of the examples, whose dial of
    [nochain.example] is outside that contract. *)
Example unchecked_index_of_example :
  grabCerts Examples.env Examples.blacklist ["nochain.example"; "a.example"]
    Examples.idle =
  Panicked
    {| w_heap := ∅;
       w_trace := [EvLog "TRACE" "Grabbing certs for domain: %s" ["nochain.example"];
                   EvDial "nochain.example:443";
                   EvConnClose] |}
    "index out of range" ["a.example"].
Proof. by vm_compute. Qed.

(** ** What the aggregator receives *)

Lemma grabCerts_body_fresh (env : Env) (blacklist : gmap string bool)
    (w : worker) (domain : string) :
  worker_fresh w ->
  worker_fresh (step_worker (grabCerts_body env blacklist w domain)).
Proof.
  intros [Hnd Hz]. unfold grabCerts_body.
  assert (Hsame : forall e w',
            w_heap w' = w_heap w -> sent (w_trace w') = sent (w_trace w) ->
            match e with EvSend _ => False | _ => True end ->
            worker_fresh (emit e w')).
  { intros e w' Hh Hs He. unfold worker_fresh.
    rewrite sent_emit. destruct e; try done; rewrite app_nil_r; cbn [emit w_heap];
      by rewrite Hh, Hs. }
  case_bool_decide; [by apply Hsame|].
  destruct (DialForTimings env _) as [cwt|err];
    [|by apply Hsame; rewrite ?sent_emit, ?app_nil_r].
  destruct (slice_index (VerifiedChains cwt) 0) as [chain|];
    [|by apply Hsame; rewrite ?sent_emit, ?app_nil_r].
  destruct (slice_index chain _) as [rootCA|];
    [|by apply Hsame; rewrite ?sent_emit, ?app_nil_r].
  destruct (LoadCertificateFromX509 env rootCA) as [rootCert|err];
    [|by apply Hsame; rewrite ?sent_emit, ?app_nil_r].
  unfold alloc, worker_fresh. cbn [step_worker].
  rewrite sent_emit. cbn [emit w_heap w_trace].
  rewrite !sent_app. cbn [sent omap list_omap]. rewrite !app_nil_r.
  assert (Hfresh : fresh (dom (w_heap w)) ∉ dom (w_heap w)) by apply is_fresh.
  split.
  - rewrite fmap_app. apply NoDup_app. split; [done|]. split; [|apply NoDup_singleton].
    intros p Hp Hq. apply list_elem_of_fmap in Hp as (m & -> & Hm).
    apply list_elem_of_singleton in Hq. cbn in Hq.
    apply Hz in Hm as [Hd _]. by rewrite Hq in Hd.
  - intros m [Hm| ->%list_elem_of_singleton]%elem_of_app; cbn [RootCA].
    + destruct (Hz _ Hm) as [Hd Hf]. split.
      * rewrite dom_insert. apply elem_of_union. by right.
      * rewrite lookup_total_insert_ne; [done|].
        intros Heq. by rewrite Heq in Hfresh.
    + split; [|by rewrite lookup_total_insert_eq].
      rewrite dom_insert. apply elem_of_union. left.
      by apply elem_of_singleton.
Qed.

Lemma grabCerts_fresh_worker (env : Env) (blacklist : gmap string bool)
    (domains : list string) (w : worker) :
  worker_fresh w ->
  worker_fresh (outcome_worker (grabCerts env blacklist domains w)).
Proof.
  revert w. induction domains as [|d rest IH]; intros w Hw; [done|].
  cbn [grabCerts].
  pose proof (grabCerts_body_fresh env blacklist w d Hw) as Hw'.
  destruct (grabCerts_body env blacklist w d); [by apply IH|done].
Qed.

(** X7.  [grabCerts]: the masquerades that a worker sends are fresh in
    the sense that the aggregator's counting relies on: each points to a
    [castat] of its own, whose [freq] is zero. *)
Lemma grabCerts_fresh_results (env : Env) (blacklist : gmap string bool)
    (domains : list string) (h : store) :
  let w' := outcome_worker (grabCerts env blacklist domains (mkWorker h [])) in
  fresh_results (w_heap w') (sent (w_trace w')).
Proof.
  destruct (grabCerts_fresh_worker env blacklist domains (mkWorker h []))
    as [Hnd Hz].
  - split; [constructor|]. by intros m ?%elem_of_nil.
  - split; [done|]. intros m Hm. by apply Hz.
Qed.

End ProberProofs.

(* ===================================================================== *)
(** * The proxy client's director *)
(* ===================================================================== *)

Module DirectorProofs.
Import Proxy.

(** [strings.Split] never returns an empty slice for a non-empty
    separator, so [strings.Split(addr, ":")[0]] cannot panic. *)
Lemma split_from_cons (sep : string) (skip : nat) (cur s : string) :
  exists first rest, split_from sep skip cur s = first :: rest.
Proof.
  revert skip cur. induction s as [|c s IH]; intros skip cur; cbn [split_from].
  - eauto.
  - destruct skip as [|k]; [|apply IH].
    destruct (String.prefix sep (String c s)); [eauto|apply IH].
Qed.

Lemma host_of_addr (addr : string) :
  exists host, slice_index (strings_Split addr ":") 0 = Some host.
Proof.
  unfold strings_Split. rewrite bool_decide_eq_false_2 by done.
  destruct (split_from_cons ":" 0 "" addr) as (first & rest & ->).
  by exists first.
Qed.

Lemma isNotLoopback_total (resolve : Resolver) (addr : string) :
  is_Some (isNotLoopback resolve addr).
Proof.
  unfold isNotLoopback. destruct (host_of_addr addr) as [host ->]. eauto.
Qed.

Lemma Director_total (resolve : Resolver) (client : Client) (req : http_Request) :
  is_Some (Director resolve client req).
Proof.
  unfold Director, should_rewrite.
  destruct (ShouldProxyLoopback client); [by eexists|].
  destruct (isNotLoopback_total resolve (Host req)) as [[] ->]; by eexists.
Qed.

(** What the director does, by the value of the condition. *)
Lemma Director_not_rewritten (resolve : Resolver) (client : Client)
    (req : http_Request) :
  should_rewrite resolve client req = Some false ->
  exists t, Director resolve client req = Some (req, t) /\ rewrites t = [].
Proof.
  intros H. unfold Director. rewrite H.
  eexists. split; [done|]. by destruct (ShouldDumpHeaders _).
Qed.

Lemma Director_rewritten (resolve : Resolver) (client : Client)
    (req : http_Request) :
  should_rewrite resolve client req = Some true ->
  exists t,
    Director resolve client req = Some (RewriteRequest (Protocol client) req, t) /\
    rewrites t = [req].
Proof.
  intros H. unfold Director. rewrite H.
  eexists. split; [done|]. by destruct (ShouldDumpHeaders _).
Qed.

(** C9.  With [ShouldProxyLoopback] false, a request whose host (the part
    of [Host] before the first colon) resolves to a loopback address
    leaves the director as it came, and [RewriteRequest] is not called;
    with [ShouldProxyLoopback] true the director calls [RewriteRequest]
    on every request, once, and passes on what it returns. *)
Theorem loopback_not_rewritten_unless_configured
    (resolve : Resolver) (client : Client) (req : http_Request) :
  (ShouldProxyLoopback client = false ->
   forall host ip,
     slice_index (strings_Split (Host req) ":") 0 = Some host ->
     resolve "ip4" host = Ok ip ->
     IsLoopback (IP ip) = true ->
     exists t, Director resolve client req = Some (req, t) /\ rewrites t = []) /\
  (ShouldProxyLoopback client = true ->
   exists t,
     Director resolve client req = Some (RewriteRequest (Protocol client) req, t) /\
     rewrites t = [req]).
Proof.
  split.
  - intros Hcfg host ip Hhost Hres Hloop. apply Director_not_rewritten.
    unfold should_rewrite, isNotLoopback. by rewrite Hcfg, Hhost, Hres, Hloop.
  - intros Hcfg. apply Director_rewritten.
    unfold should_rewrite. by rewrite Hcfg.
Qed.

(** C10.  With [ShouldProxyLoopback] false, a request whose host does not
    resolve is treated as a loopback request is: [isNotLoopback] returns
    false, [RewriteRequest] is not called and the request is left as it
    came. *)
Theorem unresolved_host_not_rewritten
    (resolve : Resolver) (client : Client) (req : http_Request)
    (host : string) (err : error) :
  ShouldProxyLoopback client = false ->
  slice_index (strings_Split (Host req) ":") 0 = Some host ->
  resolve "ip4" host = Err err ->
  isNotLoopback resolve (Host req) = Some false /\
  exists t, Director resolve client req = Some (req, t) /\ rewrites t = [].
Proof.
  intros Hcfg Hhost Hres.
  assert (H : isNotLoopback resolve (Host req) = Some false).
  { unfold isNotLoopback. by rewrite Hhost, Hres. }
  split; [done|]. apply Director_not_rewritten.
  unfold should_rewrite. by rewrite Hcfg.
Qed.

(** The other requests are rewritten: a host that resolves to an address
    that is not a loopback address. *)
Lemma other_hosts_rewritten
    (resolve : Resolver) (client : Client) (req : http_Request)
    (host : string) (ip : IPAddr) :
  slice_index (strings_Split (Host req) ":") 0 = Some host ->
  resolve "ip4" host = Ok ip ->
  IsLoopback (IP ip) = false ->
  exists t,
    Director resolve client req = Some (RewriteRequest (Protocol client) req, t) /\
    rewrites t = [req].
Proof.
  intros Hhost Hres Hloop. apply Director_rewritten.
  unfold should_rewrite, isNotLoopback.
  rewrite Hhost, Hres, Hloop. by destruct (ShouldProxyLoopback client).
Qed.

End DirectorProofs.

(* ===================================================================== *)
(** * The theorems at concrete inputs *)
(* ===================================================================== *)

Module Checks.
Import Genconfig Examples.

(** ** The aggregator *)

(** Four of five results share root A: A stands at 80 percent, B at 20,
    both above the threshold of 3, and all five masquerades are kept. *)
Example four_of_five :
  let r := aggregate minFreq (store_of certs5) (results_of certs5) in
  freq (final_heap r !!! 1%positive) = F64.of_int 80 /\
  freq (final_heap r !!! 3%positive) = F64.of_int 20 /\
  map_to_list (trustedCAs r) = [("A", 1%positive); ("B", 3%positive)] /\
  trustedMasquerades r = results_of certs5.
Proof. by vm_compute. Qed.

(** Three of a hundred results have root B: its frequency is exactly the
    threshold, and it is left out together with its masquerades. *)
Example frequency_equal_to_threshold_excluded :
  let r := aggregate minFreq (store_of certs100) (results_of certs100) in
  allCAs (phase1 r) !! "B" = Some 98%positive /\
  freq (final_heap r !!! 98%positive) = minFreq /\
  trustedCAs r !! "B" = None /\
  trustedCAs r !! "A" = Some 1%positive /\
  length (trustedMasquerades r) = 97%nat.
Proof. by vm_compute. Qed.

Lemma trusted_iff_freq_exceeds_minFreq_witness :
  let r := aggregate minFreq (store_of certs5) (results_of certs5) in
  (trustedCAs r !! "B" = Some 3%positive <->
   F64.gt (freq (final_heap r !!! 3%positive)) minFreq = true) /\
  allCAs (phase1 r) !! "A" = Some 1%positive.
Proof.
  pose proof (AggregatorProofs.trusted_iff_freq_exceeds_minFreq
                minFreq (store_of certs5) (results_of certs5)) as [H1 H2].
  split.
  - apply (H1 "B" 3%positive). by vm_compute.
  - apply (H2 "A" 1%positive). by vm_compute.
Defined.

Lemma trusted_masquerades_have_trusted_CA_witness :
  let ret := coalesceMasquerades minFreq (store_of certs5) (results_of certs5) in
  let m := mkMasquerade "host0.example" "192.0.2.1" 1%positive in
  m ∈ results_of certs5 /\
  exists ca, ret.1.1 !! Cert (ret.2 !!! RootCA m) = Some ca /\
             Cert (ret.2 !!! ca) = Cert (ret.2 !!! RootCA m).
Proof.
  apply (AggregatorProofs.trusted_masquerades_have_trusted_CA
           minFreq (store_of certs5) (results_of certs5)).
  vm_compute. apply list_elem_of_here.
Defined.

Lemma fresh_certs5 : fresh_results (store_of certs5) (results_of certs5).
Proof.
  split.
  - apply (bool_decide_unpack _). by vm_compute.
  - intros m Hm. vm_compute in Hm.
    repeat (apply elem_of_cons in Hm as [->|Hm]; [reflexivity|]).
    by apply elem_of_nil in Hm.
Defined.

Lemma relative_frequency_is_percentage_witness :
  let r := aggregate minFreq (store_of certs5) (results_of certs5) in
  let k := Z.of_nat (occurrences (store_of certs5) "A" (results_of certs5)) in
  let n := Z.of_nat (length (results_of certs5)) in
  count (phase1 r) = n /\
  1 <= k <= n /\
  freq (final_heap r !!! 1%positive) =
    F64.div (F64.mul (F64.of_int k) (F64.of_int 100)) (F64.of_int n) /\
  F64.le F64.zero (freq (final_heap r !!! 1%positive)) = true /\
  F64.le (freq (final_heap r !!! 1%positive)) (F64.of_int 100) = true.
Proof.
  apply (AggregatorProofs.relative_frequency_is_percentage
           minFreq (store_of certs5) (results_of certs5) fresh_certs5).
  - by vm_compute.
  - by vm_compute.
Defined.

(** ** The model *)

Example model_of_five :
  let m := (main_model ∅ minFreq (store_of certs5)
              (rev (results_of certs5))).1 in
  model_cas m = [5%positive; 3%positive] /\
  Domain <$> model_masquerades m =
    ["host0.example"; "host1.example"; "host2.example"; "host3.example";
     "host4.example"].
Proof. by vm_compute. Qed.

Lemma buildModel_sorted_witness :
  let ret := coalesceMasquerades minFreq (store_of certs5) (results_of certs5) in
  let m := buildModel ∅ ret.2 ret.1.1 ret.1.2 in
  StronglySorted
    (fun a b => F64.le (freq (ret.2 !!! b)) (freq (ret.2 !!! a)) = true)
    (model_cas m) /\
  StronglySorted (fun a b => String.le (Domain a) (Domain b))
    (model_masquerades m) /\
  model_cas m ≡ₚ (map_to_list ret.1.1).*2 /\
  model_masquerades m ≡ₚ ret.1.2.
Proof.
  intros ret.
  apply (ModelProofs.buildModel_sorted ∅ ret.2 ret.1.1 ret.1.2).
  change (map_Forall (fun (_ : string) ca =>
                        F64.is_nan (freq (ret.2 !!! ca)) = false) ret.1.1).
  apply (bool_decide_unpack _). by vm_compute.
Defined.

(** ** The prober *)

Example worker_of_example :
  let w := outcome_worker (grabCerts env blacklist domains idle) in
  dialled (w_trace w) = ["a.example:443"; "slow.example:443"; "b.example:443"] /\
  Domain <$> sent (w_trace w) = ["a.example"; "b.example"].
Proof. by vm_compute. Qed.

Lemma blacklisted_never_dialled_witness :
  let w' := outcome_worker (grabCerts env blacklist domains (mkWorker ∅ [])) in
  (forall w, grabCerts_body env blacklist w "blacklisted.example" =
     Continue (emit (EvLog "TRACE" "Domain %s is blacklisted, skipping"
                       ["blacklisted.example"]) w)) /\
  (("blacklisted.example" +:+ ":443") ∉ dialled (w_trace w')) /\
  (forall m, m ∈ sent (w_trace w') -> Domain m <> "blacklisted.example").
Proof.
  apply (ProberProofs.blacklisted_never_dialled env blacklist ∅ domains
           "blacklisted.example").
  vm_compute. by eexists.
Defined.

Lemma probe_success_root_CA_witness :
  let ca := fresh (dom (w_heap idle)) in
  exists w',
    grabCerts_body env blacklist idle "b.example" = Continue w' /\
    sent (w_trace w') =
      sent (w_trace idle) ++
      [{| Domain := "b.example"; IpAddress := "203.0.113.2"; RootCA := ca |}] /\
    (ca ∉ dom (w_heap idle)) /\
    CommonName (w_heap w' !!! ca) = "Root A" /\
    Cert (w_heap w' !!! ca) = escape_newlines (pem "Uk9PVEE=") /\
    (nl ∉ list_ascii_of_string (Cert (w_heap w' !!! ca))) /\
    freq (w_heap w' !!! ca) = F64.zero.
Proof.
  apply (ProberProofs.probe_success_root_CA env blacklist idle "b.example"
           {| VerifiedChains := [[leaf_b; intermediate; root_A]];
              ResolvedAddr_IP := [203; 0; 113; 2] |}
           [leaf_b; intermediate; root_A] root_A root_A);
    reflexivity.
Defined.

(** ** The director *)

Lemma loopback_not_rewritten_unless_configured_witness :
  (exists t,
     Proxy.Director resolver (client false) (request "localhost:8080") =
       Some (request "localhost:8080", t) /\
     Proxy.rewrites t = []) /\
  (exists t,
     Proxy.Director resolver (client true) (request "localhost:8080") =
       Some (Proxy.RewriteRequest fronted (request "localhost:8080"), t) /\
     Proxy.rewrites t = [request "localhost:8080"]).
Proof.
  split.
  - apply (proj1 (DirectorProofs.loopback_not_rewritten_unless_configured
                    resolver (client false) (request "localhost:8080"))
             eq_refl "localhost" (Proxy.mkIPAddr [127; 0; 0; 1] ""));
      reflexivity.
  - apply (proj2 (DirectorProofs.loopback_not_rewritten_unless_configured
                    resolver (client true) (request "localhost:8080"))).
    reflexivity.
Defined.

Lemma unresolved_host_not_rewritten_witness :
  Proxy.isNotLoopback resolver "nosuchhost.invalid:80" = Some false /\
  exists t,
    Proxy.Director resolver (client false) (request "nosuchhost.invalid:80") =
      Some (request "nosuchhost.invalid:80", t) /\
    Proxy.rewrites t = [].
Proof.
  apply (DirectorProofs.unresolved_host_not_rewritten
           resolver (client false) (request "nosuchhost.invalid:80")
           "nosuchhost.invalid" "lookup nosuchhost.invalid: no such host");
    reflexivity.
Defined.

(** An IPv6 literal has no part before its first colon that resolves: the
    request is left alone. *)
Example ipv6_literal_not_rewritten :
  Proxy.Director resolver (client false) (request "[::1]:8080") =
  Some (request "[::1]:8080", []).
Proof. by vm_compute. Qed.

End Checks.

(* ===================================================================== *)
(** * The aggregator and the model: the pipeline as a whole *)
(* ===================================================================== *)

Module PipelineProofs.
Import Genconfig.
Import AggregatorProofs.

(** Every key of [allCAs] is the certificate of a received result. *)
Lemma coalesce_keys_from_results (h : store) (l : list masquerade)
    (k : string) (p : ptr) :
  allCAs (coalesce h l) !! k = Some p ->
  exists m, m ∈ l /\ Cert (h !!! RootCA m) = k.
Proof.
  revert k p. induction l as [|m l IH] using rev_ind; intros k p.
  - unfold coalesce. simpl. by rewrite lookup_empty.
  - rewrite coalesce_snoc.
    destruct (coalesce_step_lookup (coalesce h l) m (coalesce_keyed h l))
      as (ca & -> & _ & _ & _).
    rewrite coalesce_Cert.
    destruct (decide (Cert (h !!! RootCA m) = k)) as [<-|Hne].
    + intros _. exists m. split; [|done]. apply elem_of_app. right. by left.
    + rewrite lookup_insert_ne by done. intros Hk.
      destruct (IH _ _ Hk) as (m' & Hm' & Hc).
      exists m'. split; [|done]. apply elem_of_app. by left.
Qed.

Lemma final_heap_Cert (mf : float64) (h : store) (l : list masquerade) (q : ptr) :
  Cert (final_heap (aggregate mf h l) !!! q) = Cert (h !!! q).
Proof.
  destruct (aggregate_post mf h l) as [HC _ _ _ _]. cbn [fst] in HC.
  rewrite HC. rewrite aggregate_unfold. cbn. apply coalesce_Cert.
Qed.

Lemma phase1_aggregate (mf : float64) (h : store) (l : list masquerade) :
  phase1 (aggregate mf h l) = coalesce h l.
Proof. by rewrite aggregate_unfold. Qed.

(** The trusted CAs, read from the results. *)
Lemma trustedCAs_lookup (mf : float64) (h : store) (l : list masquerade)
    (k : string) (p : ptr) :
  let r := aggregate mf h l in
  trustedCAs r !! k = Some p <->
  allCAs (coalesce h l) !! k = Some p /\
  F64.gt (relative_freq (count (coalesce h l)) (freq (heap (coalesce h l) !!! p))) mf = true.
Proof.
  intros r. pose proof (aggregate_post mf h l) as H. cbv zeta in H.
  rewrite (phase1_aggregate mf h l) in H.
  destruct H as [_ _ _ Hf Ht]. cbn [fst snd] in Hf, Ht. fold r in Hf, Ht.
  rewrite Ht. rewrite elem_of_map_to_list.
  split; intros [Hin Hgt]; (split; [done|]).
  - rewrite <- (Hf k p); [done|]. by apply elem_of_map_to_list.
  - rewrite (Hf k p); [done|]. by apply elem_of_map_to_list.
Qed.

Lemma main_model_unfold (ps : domain_filter) (mf : float64) (h : store)
    (l : list masquerade) :
  let r := aggregate mf h l in
  main_model ps mf h l =
  (buildModel ps (final_heap r) (trustedCAs r) (trustedMasquerades r), final_heap r).
Proof. reflexivity. Qed.

Lemma model_cas_elem (ps : domain_filter) (h : store) (cas : gmap string ptr)
    (ms : list masquerade) (ca : ptr) :
  ca ∈ model_cas (buildModel ps h cas ms) <-> exists k, cas !! k = Some ca.
Proof.
  unfold buildModel; simpl. rewrite (ModelProofs.sort_Sort_perm _ _).
  rewrite list_elem_of_fmap. split.
  - intros [[k p] [-> Hin]]. exists k. by apply elem_of_map_to_list.
  - intros [k Hk]. exists (k, ca). split; [done|]. by apply elem_of_map_to_list.
Qed.

Lemma model_masquerades_elem (ps : domain_filter) (h : store)
    (cas : gmap string ptr) (ms : list masquerade) (x : masquerade) :
  x ∈ model_masquerades (buildModel ps h cas ms) <-> x ∈ ms.
Proof. unfold buildModel; simpl. by rewrite (ModelProofs.sort_Sort_perm _ _). Qed.

(** X13.  [main], [coalesceMasquerades], [buildModel]: in the model that
    [main] builds, the masquerades and the CAs refer to each other: every masquerade has the certificate of a CA of the
    list, and every CA of the list has the certificate of a masquerade of
    the list. *)
Theorem model_references_closed (proxiedSites : domain_filter)
    (minFreq : float64) (h : store) (results : list masquerade) :
  let m := (main_model proxiedSites minFreq h results).1 in
  let h' := (main_model proxiedSites minFreq h results).2 in
  (forall x, x ∈ model_masquerades m ->
     exists ca, ca ∈ model_cas m /\ Cert (h' !!! ca) = Cert (h' !!! RootCA x)) /\
  (forall ca, ca ∈ model_cas m ->
     exists x, x ∈ model_masquerades m /\ Cert (h' !!! RootCA x) = Cert (h' !!! ca)).
Proof.
  rewrite main_model_unfold. cbn [fst snd]. set (r := aggregate minFreq h results).
  split.
  - intros x Hx. apply model_masquerades_elem in Hx.
    apply trusted_masquerades_iff in Hx as [Hx [ca Hca]]. fold r in Hca.
    exists ca. split; [apply model_cas_elem; eauto|].
    unfold r in *. rewrite !final_heap_Cert in *.
    apply trustedCAs_lookup in Hca as [Hca _].
    pose proof (coalesce_keyed h results _ _ Hca) as Hk.
    by rewrite coalesce_Cert in Hk.
  - intros ca Hca. apply model_cas_elem in Hca as [k Hk].
    pose proof Hk as Hk'. apply trustedCAs_lookup in Hk' as [Hall _].
    destruct (coalesce_keys_from_results h results _ _ Hall) as (x & Hx & Hc).
    pose proof (coalesce_keyed h results _ _ Hall) as Hkey.
    rewrite coalesce_Cert in Hkey.
    exists x. split.
    + apply model_masquerades_elem, trusted_masquerades_iff.
      split; [done|]. fold r. unfold r. rewrite final_heap_Cert, Hc. by exists ca.
    + unfold r. rewrite !final_heap_Cert. congruence.
Qed.

(** X14.  [main], [coalesceMasquerades], [buildModel]: the CAs of the
    model have different certificates, and there are as many of them as
    trusted certificates. *)
Theorem model_cas_distinct_certificates (proxiedSites : domain_filter)
    (minFreq : float64) (h : store) (results : list masquerade) :
  let m := (main_model proxiedSites minFreq h results).1 in
  let h' := (main_model proxiedSites minFreq h results).2 in
  NoDup ((fun ca => Cert (h' !!! ca)) <$> model_cas m) /\
  length (model_cas m) = size (trustedCAs (aggregate minFreq h results)).
Proof.
  rewrite main_model_unfold. cbn [fst snd]. set (r := aggregate minFreq h results).
  unfold buildModel; cbn [model_cas]. split.
  - rewrite (ModelProofs.sort_Sort_perm _ _).
    assert (Heq : (fun ca => Cert (final_heap r !!! ca)) <$> (map_to_list (trustedCAs r)).*2
                  = (map_to_list (trustedCAs r)).*1).
    { rewrite <- list_fmap_compose. apply list_fmap_ext.
      intros i [k p] Hi. simpl.
      apply list_elem_of_lookup_2, elem_of_map_to_list in Hi.
      unfold r in *. rewrite final_heap_Cert.
      apply trustedCAs_lookup in Hi as [Hi _].
      pose proof (coalesce_keyed h results _ _ Hi) as Hk.
      by rewrite coalesce_Cert in Hk. }
    rewrite Heq. apply NoDup_fst_map_to_list.
  - rewrite (ModelProofs.sort_Sort_perm _ _), length_fmap.
    by rewrite length_map_to_list.
Qed.

(** ** The order of arrival *)

Lemma occurrences_perm (h : store) (cert : string) (l l' : list masquerade) :
  l ≡ₚ l' -> occurrences h cert l = occurrences h cert l'.
Proof. intros Hp. unfold occurrences. by rewrite Hp. Qed.

Lemma fresh_results_perm (h : store) (l l' : list masquerade) :
  l ≡ₚ l' -> fresh_results h l -> fresh_results h l'.
Proof.
  intros Hp [Hnd Hz]. split.
  - by rewrite <- Hp.
  - intros m Hm. apply Hz. by rewrite Hp.
Qed.

(** On results as [grabCerts] sends them, a certificate is trusted when
    it occurs and its percentage exceeds the threshold. *)
Lemma trusted_by_count (mf : float64) (h : store) (l : list masquerade)
    (cert : string) :
  fresh_results h l -> Z.of_nat (length l) < 2 ^ 53 ->
  (is_Some (trustedCAs (aggregate mf h l) !! cert) <->
   (0 < occurrences h cert l)%nat /\
   F64.gt (relative_freq (Z.of_nat (length l))
             (F64.of_int (Z.of_nat (occurrences h cert l)))) mf = true).
Proof.
  intros Hf Hlen.
  destruct (coalesce_counted h l Hf Hlen) as [Ho _ Hc Hn].
  split.
  - intros [p Hp]. apply trustedCAs_lookup in Hp as [Hall Hgt].
    rewrite Hn, (Hc _ _ Hall) in Hgt. split; [|done].
    destruct (coalesce_keys_from_results h l _ _ Hall) as (m & Hm & Hcert).
    pose proof (occurrences_pos h cert l m Hm Hcert). lia.
  - intros [Hpos Hgt].
    destruct (allCAs (coalesce h l) !! cert) as [p|] eqn:Hall.
    + exists p. apply trustedCAs_lookup. split; [done|].
      by rewrite Hn, (Hc _ _ Hall).
    + apply occurrences_none in Hall. lia.
Qed.

(** X9.  [coalesceMasquerades]: the trusted certificates, their
    frequencies and the trusted masquerades do not depend on the order in
    which the workers deliver their results (on results as [grabCerts]
    sends them, fewer than 2^53). *)
Theorem trusted_independent_of_arrival_order
    (minFreq : float64) (h : store) (results results' : list masquerade) :
  results ≡ₚ results' ->
  fresh_results h results ->
  Z.of_nat (length results) < 2 ^ 53 ->
  let r := aggregate minFreq h results in
  let r' := aggregate minFreq h results' in
  dom (trustedCAs r) = dom (trustedCAs r') /\
  trustedMasquerades r ≡ₚ trustedMasquerades r' /\
  (forall cert ca ca', trustedCAs r !! cert = Some ca ->
     trustedCAs r' !! cert = Some ca' ->
     freq (final_heap r !!! ca) = freq (final_heap r' !!! ca')).
Proof.
  intros Hp Hf Hlen r r'.
  pose proof (fresh_results_perm _ _ _ Hp Hf) as Hf'.
  assert (Hlen' : Z.of_nat (length results') < 2 ^ 53) by by rewrite <- Hp.
  assert (Hsame : forall cert, is_Some (trustedCAs r !! cert) <->
                               is_Some (trustedCAs r' !! cert)).
  { intros cert. unfold r, r'.
    rewrite (trusted_by_count _ _ _ _ Hf Hlen), (trusted_by_count _ _ _ _ Hf' Hlen').
    by rewrite (occurrences_perm h cert _ _ Hp), (Permutation_length Hp). }
  split; [|split].
  - apply set_eq. intros cert. by rewrite !elem_of_dom.
  - unfold r, r'. rewrite !aggregate_unfold. cbn [trustedMasquerades].
    rewrite !coalesce_allMasquerades. unfold pick_trusted.
    rewrite <- Hp. apply reflexive_eq, list_filter_iff. intros m.
    pose proof (final_heap_Cert minFreq h results (RootCA m)) as H1.
    pose proof (final_heap_Cert minFreq h results' (RootCA m)) as H2.
    rewrite aggregate_unfold in H1, H2. cbn [final_heap] in H1, H2.
    rewrite H1, H2.
    pose proof (Hsame (Cert (h !!! RootCA m))) as Hs.
    unfold r, r' in Hs. by rewrite !aggregate_unfold in Hs.
  - intros cert ca ca' Hca Hca'.
    destruct (aggregate_post minFreq h results) as [_ _ _ Hq _].
    destruct (aggregate_post minFreq h results') as [_ _ _ Hq' _].
    fold r in Hq. fold r' in Hq'. cbn [fst] in Hq, Hq'.
    apply trustedCAs_lookup in Hca as [Hall _].
    apply trustedCAs_lookup in Hca' as [Hall' _].
    unfold r, r' in *. rewrite phase1_aggregate in Hq, Hq'.
    rewrite (Hq cert ca) by by apply elem_of_map_to_list.
    rewrite (Hq' cert ca') by by apply elem_of_map_to_list.
    destruct (coalesce_counted h results Hf Hlen) as [_ _ Hc Hn].
    destruct (coalesce_counted h results' Hf' Hlen') as [_ _ Hc' Hn'].
    rewrite Hn, Hn', (Hc _ _ Hall), (Hc' _ _ Hall').
    by rewrite (occurrences_perm h cert _ _ Hp), (Permutation_length Hp).
Qed.

(** ** The threshold *)

Lemma le_number (x y : float64) :
  F64.le x y = true -> F64.number x /\ F64.number y.
Proof.
  unfold F64.le, SFleb, F64.number.
  destruct x, y; simpl; try discriminate; auto.
Qed.

(** [x > b] and [a <= b] give [x > a]. *)
Lemma gt_le_trans (x a b : float64) :
  F64.gt x b = true -> F64.le a b = true -> F64.gt x a = true.
Proof.
  intros Hgt Hle.
  destruct (F64Facts.gt_number _ _ Hgt) as [Hx Hb].
  destruct (le_number _ _ Hle) as [Ha _].
  apply F64Facts.gt_key in Hgt; [|done..].
  apply F64Facts.le_key in Hle; [|done..].
  apply F64Facts.gt_key; [done..|].
  unfold F64.key_lt in *.
  destruct (F64.key x) as [[x1 x2] x3], (F64.key a) as [[a1 a2] a3],
    (F64.key b) as [[b1 b2] b3]; simpl in *. lia.
Qed.

Lemma gt_nan (x y : float64) : F64.is_nan y = true -> F64.gt x y = false.
Proof. destruct y; try discriminate. intros _. by destruct x. Qed.

Lemma nothing_trusted (mf : float64) (h : store) (l : list masquerade) :
  (forall cert, trustedCAs (aggregate mf h l) !! cert = None) ->
  (coalesceMasquerades mf h l).1 = (∅, []).
Proof.
  intros Hnone. unfold coalesceMasquerades; cbn [fst].
  assert (He : trustedCAs (aggregate mf h l) = ∅) by by apply map_empty.
  f_equal; [done|].
  apply elem_of_nil_inv. intros m Hm.
  apply trusted_masquerades_iff in Hm as [_ [ca Hca]].
  by rewrite Hnone in Hca.
Qed.

(** X10.  [coalesceMasquerades]: raising the threshold can only remove
    trusted CAs and trusted masquerades. *)
Theorem higher_threshold_trusts_less
    (minFreq minFreq' : float64) (h : store) (results : list masquerade) :
  F64.le minFreq minFreq' = true ->
  let r := aggregate minFreq h results in
  let r' := aggregate minFreq' h results in
  trustedCAs r' ⊆ trustedCAs r /\
  trustedMasquerades r' ⊆ trustedMasquerades r.
Proof.
  intros Hle r r'.
  assert (Hsub : trustedCAs r' ⊆ trustedCAs r).
  { apply map_subseteq_spec. intros cert ca Hca.
    apply trustedCAs_lookup in Hca as [Hall Hgt].
    apply trustedCAs_lookup. split; [done|]. by eapply gt_le_trans. }
  split; [done|].
  intros m Hm. apply trusted_masquerades_iff in Hm as [Hm [ca Hca]].
  apply trusted_masquerades_iff. split; [done|].
  fold r. fold r' in Hca. unfold r, r' in *. rewrite final_heap_Cert in *.
  exists ca. by apply (lookup_weaken _ _ _ _ Hca).
Qed.

(** X11.  [coalesceMasquerades]: with a threshold of 100 or more
    nothing is trusted, whatever the
    share of a certificate: the comparison is strict and no percentage
    exceeds 100. *)
Theorem threshold_100_trusts_nothing
    (minFreq : float64) (h : store) (results : list masquerade) :
  fresh_results h results ->
  100 * Z.of_nat (length results) < 2 ^ 53 ->
  F64.le (F64.of_int 100) minFreq = true ->
  (coalesceMasquerades minFreq h results).1 = (∅, []).
Proof.
  intros Hf Hlen Hle. apply nothing_trusted. intros cert.
  apply eq_None_not_Some. intros Hsome.
  apply trusted_by_count in Hsome as [Hpos Hgt]; [|done|lia].
  pose proof (occurrences_le h cert results) as Hocc.
  destruct (F64Arith.percentage_bounds
              (Z.of_nat (occurrences h cert results))
              (Z.of_nat (length results))) as [_ H100]; [lia..|].
  cbv zeta in H100. fold (relative_freq (Z.of_nat (length results))
    (F64.of_int (Z.of_nat (occurrences h cert results)))) in H100.
  pose proof (gt_le_trans _ _ _ Hgt Hle) as Hgt100.
  destruct (F64Facts.gt_number _ _ Hgt100) as [Hx H1].
  apply F64Facts.gt_key in Hgt100; [|done..].
  apply F64Facts.le_key in H100; [|done..]. done.
Qed.

(** X12.  [coalesceMasquerades]: a threshold that is not a number
    trusts nothing. *)
Theorem nan_threshold_trusts_nothing
    (minFreq : float64) (h : store) (results : list masquerade) :
  F64.is_nan minFreq = true ->
  (coalesceMasquerades minFreq h results).1 = (∅, []).
Proof.
  intros Hnan. apply nothing_trusted. intros cert.
  apply eq_None_not_Some. intros [ca Hca].
  apply trustedCAs_lookup in Hca as [_ Hgt].
  by rewrite gt_nan in Hgt.
Qed.

End PipelineProofs.

(* ===================================================================== *)
(** * Go's strings: slices, prefixes, suffixes, lines *)
(* ===================================================================== *)

Module StringFacts.

Lemma app_String (c : ascii) (s t : string) :
  String c s +:+ t = String c (s +:+ t).
Proof. reflexivity. Qed.

Lemma app_empty_r (s : string) : s +:+ EmptyString = s.
Proof. induction s as [|c s IH]; [done|]. by rewrite app_String, IH. Qed.

Lemma app_assoc_string (a b c : string) : (a +:+ b) +:+ c = a +:+ b +:+ c.
Proof.
  induction a as [|x a IH]; [done|].
  rewrite !app_String. by rewrite IH.
Qed.

Lemma substring_all (s : string) : substring 0 (String.length s) s = s.
Proof. induction s as [|c s IH]; [done|]. simpl. by rewrite IH. Qed.

Lemma substring_app_l (p q : string) :
  substring 0 (String.length p) (p +:+ q) = p.
Proof.
  induction p as [|c p IH]; [by destruct q|].
  rewrite app_String. simpl. by rewrite IH.
Qed.

Lemma substring_app_r (p q : string) (m : nat) :
  substring (String.length p) m (p +:+ q) = substring 0 m q.
Proof. induction p as [|c p IH]; [done|]. rewrite app_String. simpl. apply IH. Qed.

(** A string is its two slices at any index within it. *)
Lemma substring_split (s : string) (n : nat) :
  (n <= String.length s)%nat ->
  s = substring 0 n s +:+ substring n (String.length s - n) s.
Proof.
  revert n. induction s as [|c s IH]; intros n Hn.
  - simpl in Hn. by replace n with 0%nat by lia.
  - destruct n as [|n].
    + cbn [substring]. rewrite Nat.sub_0_r.
      change (String.length (String c s)) with (S (String.length s)).
      cbn [substring]. by rewrite substring_all.
    + simpl in Hn. cbn [substring String.length Nat.sub].
      rewrite app_String. f_equal. apply IH. lia.
Qed.

Lemma length_substring (s : string) (n m : nat) :
  (n + m <= String.length s)%nat -> String.length (substring n m s) = m.
Proof.
  revert n m. induction s as [|c s IH]; intros n m H; simpl in H.
  - replace n with 0%nat by lia. by replace m with 0%nat by lia.
  - destruct n as [|n]; simpl.
    + destruct m as [|m]; [done|]. simpl. f_equal. apply IH. lia.
    + apply IH. lia.
Qed.

Lemma HasSuffix_app (p suffix : string) :
  strings_HasSuffix (p +:+ suffix) suffix = true.
Proof.
  unfold strings_HasSuffix, string_slice. cbv zeta.
  rewrite ProberProofs.string_length_app, Nat2Z.inj_add.
  apply andb_true_intro. split; [apply Z.leb_le; lia|].
  apply bool_decide_eq_true_2.
  replace (Z.of_nat (String.length p) + Z.of_nat (String.length suffix)
           - Z.of_nat (String.length suffix)) with (Z.of_nat (String.length p)) by lia.
  rewrite !(proj2 (Z.leb_le _ _)) by lia. cbn [andb]. f_equal.
  replace (Z.to_nat (Z.of_nat (String.length p) + Z.of_nat (String.length suffix)
                     - Z.of_nat (String.length p))) with (String.length suffix) by lia.
  by rewrite Nat2Z.id, substring_app_r, substring_all.
Qed.

Lemma HasPrefix_app (prefix s : string) :
  strings_HasPrefix (prefix +:+ s) prefix = true.
Proof. unfold strings_HasPrefix. apply prefix_correct, substring_app_l. Qed.

(** The last piece of a text that ends with the separator byte is
    empty. *)
Lemma split_from_trailing (c : ascii) (cur s : string) :
  exists pieces,
    split_from (String c EmptyString) 0 cur (s +:+ String c EmptyString) =
    pieces ++ [EmptyString].
Proof.
  revert cur. induction s as [|a s IH]; intros cur.
  - assert (Hp : String.prefix (String c EmptyString) (String c EmptyString) = true)
      by by apply prefix_correct.
    change (EmptyString +:+ String c EmptyString) with (String c EmptyString).
    cbn [split_from]. rewrite Hp. by exists [cur].
  - rewrite app_String. cbn [split_from].
    destruct (String.prefix (String c EmptyString) (String a (s +:+ String c EmptyString))).
    + cbn [String.length Nat.sub]. destruct (IH EmptyString) as [pieces ->].
      by exists (cur :: pieces).
    + apply IH.
Qed.

Lemma Split_trailing_newline (s : string) :
  exists pieces, strings_Split (s +:+ newline) newline = pieces ++ [EmptyString].
Proof.
  unfold strings_Split. rewrite bool_decide_eq_false_2 by done.
  apply split_from_trailing.
Qed.

End StringFacts.

(* ===================================================================== *)
(** * genconfig: the files *)
(* ===================================================================== *)

Module FilesProofs.
Import Genconfig GenconfigMain.

Lemma add_sites_snoc (lines : list string) (d : string) (ps : domain_filter) :
  add_sites (lines ++ [d]) ps =
  if keep_site d then <[d := true]> (add_sites lines ps) else add_sites lines ps.
Proof. unfold add_sites. by rewrite fold_left_app. Qed.

Lemma add_sites_kept (lines : list string) (ps : domain_filter) (d : string) :
  d ∈ lines -> keep_site d = true -> add_sites lines ps !! d = Some true.
Proof.
  induction lines as [|x lines IH] using rev_ind; [by intros ?%elem_of_nil|].
  intros Hin Hk. rewrite add_sites_snoc.
  destruct (decide (x = d)) as [->|Hne].
  - by rewrite Hk, lookup_insert_eq.
  - apply elem_of_app in Hin as [Hin|Hin%list_elem_of_singleton]; [|done].
    destruct (keep_site x); [rewrite lookup_insert_ne by done|]; by apply IH.
Qed.

Lemma add_sites_other (lines : list string) (ps : domain_filter) (d : string) :
  d ∉ lines \/ keep_site d = false -> add_sites lines ps !! d = ps !! d.
Proof.
  induction lines as [|x lines IH] using rev_ind; [done|].
  intros Hd. rewrite add_sites_snoc.
  assert (Hd' : d ∉ lines \/ keep_site d = false).
  { destruct Hd as [Hd|Hd]; [left|by right].
    intros Hin. apply Hd, elem_of_app. by left. }
  destruct (keep_site x) eqn:Hx; [|by apply IH].
  rewrite lookup_insert_ne; [by apply IH|].
  intros ->. destruct Hd as [Hd|Hd]; [|congruence].
  apply Hd, elem_of_app. right. by left.
Qed.

Lemma keep_site_empty : keep_site EmptyString = false.
Proof. reflexivity. Qed.

Lemma keep_site_comment (x : string) : keep_site ("#" +:+ x) = false.
Proof.
  unfold keep_site. rewrite (StringFacts.HasPrefix_app "#" x).
  by rewrite andb_false_r.
Qed.

Lemma keep_site_ir (x : string) : keep_site (x +:+ ".ir") = false.
Proof.
  unfold keep_site. rewrite (StringFacts.HasSuffix_app x ".ir").
  by rewrite andb_false_r.
Qed.

Lemma add_sites_mono (lines : list string) (ps : domain_filter) (d : string) :
  ps !! d = Some true -> add_sites lines ps !! d = Some true.
Proof.
  intros Hd.
  destruct (decide (d ∈ lines)) as [Hin|Hout];
    [destruct (keep_site d) eqn:Hk|].
  - by apply add_sites_kept.
  - rewrite add_sites_other; [done|by right].
  - rewrite add_sites_other; [done|by left].
Qed.

(** The walk function never returns an error, and a walk over readable
    entries ends with the lines kept. *)
Lemma Walk_spec (fs : ReadFile) (visits : list visit) (ps : domain_filter) :
  readable fs visits ->
  exists ps',
    Walk fs visits ps = Loaded (None, ps') /\
    (forall d, ps !! d = Some true -> ps' !! d = Some true) /\
    (forall d, keep_site d = true -> line_of_visited fs visits d ->
       ps' !! d = Some true) /\
    (forall d, ~ (keep_site d = true /\ line_of_visited fs visits d) ->
       ps' !! d = ps !! d).
Proof.
  revert ps. induction visits as [|v rest IH]; intros ps Hr.
  - exists ps. split; [done|]. split; [done|]. split; [|done].
    intros d _ (v & ? & ? & []%elem_of_nil & _).
  - destruct (Hr v) as (info & Hinfo & Hfile); [by left|].
    assert (Hrest : readable fs rest).
    { intros v' Hv'. apply Hr. by right. }
    cbn [Walk]. unfold loadProxiedSites. rewrite Hinfo.
    destruct (IsDir info) eqn:Hdir.
    + destruct (IH ps Hrest) as (ps' & -> & Hmono & Hkept & Hother).
      exists ps'. split; [done|]. split; [done|]. split.
      * intros d Hk (v' & info' & bytes & Hv' & Hi & Hd & Hf & Hl).
        apply Hkept; [done|]. exists v', info', bytes.
        apply elem_of_cons in Hv' as [->|Hv']; [congruence|done].
      * intros d Hn. apply Hother. intros [Hk (v' & info' & bytes & Hv' & Hrem)].
        apply Hn. split; [done|]. exists v', info', bytes. split; [by right|done].
    + destruct Hfile as [bytes Hbytes]; [done|]. rewrite Hbytes.
      set (ps1 := add_sites (strings_Split bytes newline) ps).
      destruct (IH ps1 Hrest) as (ps' & -> & Hmono & Hkept & Hother).
      exists ps'. split; [done|]. split; [|split].
      * intros d Hd. by apply Hmono, add_sites_mono.
      * intros d Hk (v' & info' & bytes' & Hv' & Hi & Hd & Hf & Hl).
        apply elem_of_cons in Hv' as [->|Hv'].
        -- apply Hmono. apply add_sites_kept; [|done]. congruence.
        -- apply Hkept; [done|]. by exists v', info', bytes'.
      * intros d Hn. rewrite Hother.
        -- apply add_sites_other.
           destruct (keep_site d) eqn:Hk; [left|by right].
           intros Hin. apply Hn. split; [done|].
           exists v, info, bytes. split; [by left|done].
        -- intros [Hk (v' & info' & bytes' & Hv' & Hrem)].
           apply Hn. split; [done|]. exists v', info', bytes'. split; [by right|done].
Qed.

(** X2.  [loadProxiedSitesList], [loadProxiedSites]: when every entry of
    the walk comes with its file information and every file can be read,
    the walk ends without an error and without a line of log; a domain is
    added, with the value true, when it is a line of one of the files that
    is not empty, does not start with [#] and does not end with [.ir];
    every other key is as it was: the empty name, a comment and a name
    that ends with [.ir] are never added. *)
Theorem proxied_sites_skip_comments_and_ir (fs : ReadFile)
    (proxiedSitesDir : string) (visits : list visit) (ps : domain_filter) :
  proxiedSitesDir <> EmptyString ->
  readable fs visits ->
  exists ps',
    loadProxiedSitesList fs proxiedSitesDir visits ps = Loaded (ps', []) /\
    (forall d, line_of_visited fs visits d -> d <> EmptyString ->
       strings_HasPrefix d "#" = false -> strings_HasSuffix d ".ir" = false ->
       ps' !! d = Some true) /\
    (forall d, ~ (keep_site d = true /\ line_of_visited fs visits d) ->
       ps' !! d = ps !! d) /\
    ps' !! EmptyString = ps !! EmptyString /\
    (forall x, ps' !! ("#" +:+ x) = ps !! ("#" +:+ x)) /\
    (forall x, ps' !! (x +:+ ".ir") = ps !! (x +:+ ".ir")).
Proof.
  intros Hdir Hr. unfold loadProxiedSitesList.
  rewrite bool_decide_eq_false_2 by done.
  destruct (Walk_spec fs visits ps Hr) as (ps' & -> & _ & Hkept & Hother).
  exists ps'. split; [done|]. split; [|split; [done|]].
  - intros d Hl Hne Hp Hs. apply Hkept; [|done].
    unfold keep_site. rewrite Hp, Hs. by rewrite bool_decide_eq_false_2.
  - split; [|split]; intros; apply Hother; intros [Hk _].
    + by rewrite keep_site_empty in Hk.
    + by rewrite keep_site_comment in Hk.
    + by rewrite keep_site_ir in Hk.
Qed.

(** X3.  [loadProxiedSites] never returns an error (its [return err]
    returns the nil error of the successful read), so that the walk never
    fails and [loadProxiedSitesList] never logs that the directory could
    not be opened; an entry that [filepath.Walk] passes without file
    information, as it does for a root that does not exist, ends the
    program in the panic of [info.IsDir()] on nil. *)
Theorem proxied_sites_walk_error_never_logged (fs : ReadFile)
    (proxiedSitesDir : string) (visits : list visit) (ps : domain_filter) :
  (forall ps' log,
     loadProxiedSitesList fs proxiedSitesDir visits ps = Loaded (ps', log) ->
     log = []) /\
  (forall path info err e ps',
     loadProxiedSites fs ps path info err = Loaded (e, ps') -> e = None) /\
  (forall v rest, proxiedSitesDir <> EmptyString -> v_info v = None ->
     loadProxiedSitesList fs proxiedSitesDir (v :: rest) ps = NilDereference).
Proof.
  assert (Hone : forall ps0 path info err e ps',
            loadProxiedSites fs ps0 path info err = Loaded (e, ps') -> e = None).
  { intros ps0 path info err e ps'. unfold loadProxiedSites.
    destruct info as [info|]; [|done].
    destruct (IsDir info); [by intros [= <- _]|].
    destruct (fs path); [by intros [= <- _]|done]. }
  assert (Hwalk : forall vs ps0 e ps',
            Walk fs vs ps0 = Loaded (e, ps') -> e = None).
  { induction vs as [|v rest IH]; intros ps0 e ps'; cbn [Walk].
    - by intros [= <- _].
    - destruct (loadProxiedSites fs ps0 (v_path v) (v_info v) (v_err v))
        as [[[e1|] ps1]| |] eqn:Hv; [|by apply IH|done..].
      by apply Hone in Hv. }
  split; [|split].
  - intros ps' log. unfold loadProxiedSitesList.
    case_bool_decide; [done|].
    destruct (Walk fs visits ps) as [[[e|] ps1]| |] eqn:Hw; [|by intros [= _ <-]|done..].
    by apply Hwalk in Hw.
  - apply Hone.
  - intros v rest Hdir Hinfo. unfold loadProxiedSitesList.
    rewrite bool_decide_eq_false_2 by done.
    cbn [Walk]. unfold loadProxiedSites. by rewrite Hinfo.
Qed.

Lemma add_blacklisted_snoc (lines : list string) (d : string) (bl : domain_filter) :
  add_blacklisted (lines ++ [d]) bl = <[d := true]> (add_blacklisted lines bl).
Proof. unfold add_blacklisted. by rewrite fold_left_app. Qed.

Lemma add_blacklisted_lookup (lines : list string) (bl : domain_filter) (d : string) :
  add_blacklisted lines bl !! d =
  if decide (d ∈ lines) then Some true else bl !! d.
Proof.
  induction lines as [|x lines IH] using rev_ind.
  - by rewrite decide_False by by intros ?%elem_of_nil.
  - rewrite add_blacklisted_snoc.
    destruct (decide (x = d)) as [->|Hne].
    + rewrite lookup_insert_eq, decide_True; [done|].
      apply elem_of_app. right. by left.
    + rewrite lookup_insert_ne by done. rewrite IH.
      destruct (decide (d ∈ lines)) as [Hin|Hout].
      * rewrite decide_True; [done|]. apply elem_of_app. by left.
      * rewrite decide_False; [done|].
        intros [?|?%list_elem_of_singleton]%elem_of_app; done.
Qed.

(** X4.  [loadBlacklist], [grabCerts]: every line of the blacklist file
    becomes a key of the blacklist, the keys held before stay, and no
    other key is added; whatever domains a worker then receives, it never
    dials a line of the file and never sends a masquerade for one. *)
Theorem blacklist_file_lines_never_dialled (fs : ReadFile)
    (blacklistFile : string) (blacklist0 : domain_filter) (bytes : string)
    (env : Env) (h : store) (domains : list string) :
  blacklistFile <> EmptyString ->
  fs blacklistFile = Ok bytes ->
  exists blacklist,
    loadBlacklist fs blacklistFile blacklist0 = Loaded blacklist /\
    (forall d, blacklist !! d =
       if decide (d ∈ strings_Split bytes newline) then Some true
       else blacklist0 !! d) /\
    let w' := outcome_worker (grabCerts env blacklist domains (mkWorker h [])) in
    forall d, d ∈ strings_Split bytes newline ->
      ((d +:+ ":443") ∉ dialled (w_trace w')) /\
      (forall m, m ∈ sent (w_trace w') -> Domain m <> d).
Proof.
  intros Hfile Hread. unfold loadBlacklist.
  rewrite bool_decide_eq_false_2 by done. rewrite Hread.
  eexists. split; [done|]. split; [apply add_blacklisted_lookup|].
  cbv zeta. intros d Hd.
  set (bl := add_blacklisted (strings_Split bytes newline) blacklist0) in *.
  set (w' := outcome_worker (grabCerts env bl domains (mkWorker h []))).
  assert (Hbl : bl !! d = Some true).
  { unfold bl. rewrite add_blacklisted_lookup. by rewrite decide_True. }
  destruct (ProberProofs.grabCerts_trace env bl domains (mkWorker h []))
    as (t & Ht & Hdial & Hsent).
  fold w' in Ht. cbn in Ht. rewrite Ht. split.
  - intros Ha%ProberProofs.elem_of_dialled.
    apply Hdial in Ha as (d' & _ & Heq & Hnone).
    apply ProberProofs.append_port_inj in Heq as ->. congruence.
  - intros m Hm%ProberProofs.elem_of_sent Heq.
    apply Hsent in Hm as [_ Hnone]. rewrite Heq in Hnone. congruence.
Qed.

(** X1.  [loadDomains], [grabCerts]: a domains file that ends with a
    newline gives an empty domain name as the last domain, and an empty
    file gives the empty name as the only domain; a worker that receives
    the empty name dials the address [:443], unless the blacklist file
    has an empty line as well. *)
Theorem trailing_newline_gives_empty_domain (fs : ReadFile)
    (domainsFile : string) :
  domainsFile <> EmptyString ->
  (fs domainsFile = Ok EmptyString ->
     loadDomains fs domainsFile = Loaded [EmptyString]) /\
  (forall s, fs domainsFile = Ok (s +:+ newline) ->
     exists ds, loadDomains fs domainsFile = Loaded (ds ++ [EmptyString])) /\
  (forall env blacklist w, blacklist !! EmptyString = None ->
     EvDial ":443" ∈
       w_trace (step_worker (grabCerts_body env blacklist w EmptyString))).
Proof.
  intros Hfile. unfold loadDomains. rewrite bool_decide_eq_false_2 by done.
  split; [|split].
  - by intros ->.
  - intros s ->. destruct (StringFacts.Split_trailing_newline s) as [ds ->].
    by exists ds.
  - intros env blacklist w Hb. unfold grabCerts_body.
    rewrite bool_decide_eq_false_2 by (rewrite Hb; by intros [? ?]).
    change (EmptyString +:+ ":443") with ":443".
    assert (Hin : forall w0 : worker, EvDial ":443" ∈ w_trace w0 ->
              forall e, EvDial ":443" ∈ w_trace (emit e w0)).
    { intros w0 H e. cbn. apply elem_of_app. by left. }
    assert (H0 : EvDial ":443" ∈ w_trace
              (emit (EvDial ":443")
                 (emit (EvLog "TRACE" "Grabbing certs for domain: %s" [EmptyString]) w))).
    { cbn. apply elem_of_app. right. by left. }
    destruct (DialForTimings env ":443") as [cwt|err]; [|by apply Hin].
    destruct (slice_index (VerifiedChains cwt) 0) as [chain|]; [|by apply Hin].
    destruct (slice_index chain _) as [rootCA|]; [|by apply Hin].
    destruct (LoadCertificateFromX509 env rootCA) as [rootCert|err];
      [|by apply Hin, Hin].
    unfold alloc. cbn [step_worker]. apply Hin. cbn [w_trace]. by apply Hin.
Qed.

End FilesProofs.

(* ===================================================================== *)
(** * The prober as a whole *)
(* ===================================================================== *)

Module ProberRunProofs.
Import Genconfig GenconfigMain.
Import ProberProofs.

Lemma dialled_app (t1 t2 : list event) : dialled (t1 ++ t2) = dialled t1 ++ dialled t2.
Proof. unfold dialled. apply omap_app. Qed.

Lemma dialled_emit (e : event) (w : worker) :
  dialled (w_trace (emit e w)) =
  dialled (w_trace w) ++ match e with EvDial a => [a] | _ => [] end.
Proof. cbn. rewrite dialled_app. by destruct e. Qed.

(** One turn of the loop dials once, or not at all for a blacklisted
    domain. *)
Lemma grabCerts_body_dialled (env : Env) (blacklist : gmap string bool)
    (w : worker) (domain : string) :
  dialled (w_trace (step_worker (grabCerts_body env blacklist w domain))) =
  dialled (w_trace w) ++
  if bool_decide (blacklist !! domain = None) then [dial_addr domain] else [].
Proof.
  unfold grabCerts_body, dial_addr.
  destruct (blacklist !! domain) as [b|] eqn:Hb.
  - rewrite bool_decide_eq_true_2 by eauto.
    rewrite bool_decide_eq_false_2 by done.
    cbn [step_worker]. by rewrite dialled_emit.
  - rewrite bool_decide_eq_false_2 by by intros [? ?].
    rewrite bool_decide_eq_true_2 by done.
    destruct (DialForTimings env _) as [cwt|err].
    2: { cbn [step_worker]. rewrite !dialled_emit. by rewrite !app_nil_r. }
    destruct (slice_index (VerifiedChains cwt) 0) as [chain|].
    2: { cbn [step_worker]. rewrite !dialled_emit. by rewrite !app_nil_r. }
    destruct (slice_index chain _) as [rootCA|].
    2: { cbn [step_worker]. rewrite !dialled_emit. by rewrite !app_nil_r. }
    destruct (LoadCertificateFromX509 env rootCA) as [rootCert|err].
    2: { cbn [step_worker]. rewrite !dialled_emit. by rewrite !app_nil_r. }
    unfold alloc. cbn [step_worker]. rewrite dialled_emit. cbn [w_trace].
    rewrite !dialled_emit. by rewrite !app_nil_r.
Qed.

Lemma grabCerts_dialled (env : Env) (blacklist : gmap string bool)
    (domains : list string) (w : worker) :
  let o := grabCerts env blacklist domains w in
  exists read,
    domains = read ++ unread o /\
    dialled (w_trace (outcome_worker o)) =
    dialled (w_trace w) ++
    (dial_addr <$> filter (fun d => blacklist !! d = None) read).
Proof.
  revert w. induction domains as [|d rest IH]; intros w; cbn [grabCerts].
  - exists []. split; [done|]. by rewrite app_nil_r.
  - pose proof (grabCerts_body_dialled env blacklist w d) as Hd.
    destruct (grabCerts_body env blacklist w d) as [w1|w1 msg]; cbn [step_worker] in Hd.
    + destruct (IH w1) as (read & Hread & Hdial).
      exists (d :: read). split; [cbn; by f_equal|].
      cbv zeta in Hdial. rewrite Hdial, Hd, <- app_assoc. f_equal.
      rewrite filter_cons. case_bool_decide as Hb.
      * rewrite decide_True by done. done.
      * rewrite decide_False by done. done.
    + exists [d]. split; [done|]. cbn [outcome_worker]. rewrite Hd. f_equal.
      rewrite filter_cons, filter_nil. case_bool_decide as Hb.
      * rewrite decide_True by done. done.
      * rewrite decide_False by done. done.
Qed.

(** X5.  [grabCerts]: a worker dials once for every domain that it reads
    and that is not blacklisted, in the order of reading, and dials
    nothing else: no domain is tried twice, whatever the outcome of its
    dial, and a panic leaves the domains behind it unread. *)
Theorem one_dial_per_domain (env : Env) (blacklist : gmap string bool)
    (h : store) (domains : list string) :
  let o := grabCerts env blacklist domains (mkWorker h []) in
  exists read,
    domains = read ++ unread o /\
    dialled (w_trace (outcome_worker o)) =
    (fun d => d +:+ ":443") <$> filter (fun d => blacklist !! d = None) read.
Proof. apply (grabCerts_dialled env blacklist domains (mkWorker h [])). Qed.

Lemma fmap_sent_emit (e : event) (w : worker) :
  Domain <$> sent (w_trace (emit e w)) =
  (Domain <$> sent (w_trace w)) ++
  match e with EvSend m => [Domain m] | _ => [] end.
Proof. rewrite sent_emit, fmap_app. by destruct e. Qed.

(** With a verified chain behind every successful dial, one turn of the
    loop ends normally, with a masquerade for the domain when the probe
    succeeds. *)
Lemma grabCerts_body_sent (env : Env) (blacklist : gmap string bool)
    (w : worker) (domain : string) :
  chains_present env ->
  exists w',
    grabCerts_body env blacklist w domain = Continue w' /\
    Domain <$> sent (w_trace w') =
    (Domain <$> sent (w_trace w)) ++
    if probe_succeeds env blacklist domain then [domain] else [].
Proof.
  intros Hc. unfold grabCerts_body, probe_succeeds.
  destruct (blacklist !! domain) as [b|] eqn:Hb.
  - rewrite bool_decide_eq_true_2 by eauto.
    rewrite bool_decide_eq_false_2 by done.
    eexists. split; [done|]. by rewrite fmap_sent_emit.
  - rewrite bool_decide_eq_false_2 by by intros [? ?].
    rewrite bool_decide_eq_true_2 by done. cbn [andb].
    destruct (DialForTimings env _) as [cwt|err] eqn:Hdial.
    2: { eexists. split; [done|]. rewrite !fmap_sent_emit. by rewrite !app_nil_r. }
    destruct (Hc _ _ Hdial) as (chain & rootCA & Hchain & Hlast).
    rewrite slice_index_0, Hchain, (slice_index_last _ _ Hlast), Hlast.
    destruct (LoadCertificateFromX509 env rootCA) as [rootCert|err].
    2: { eexists. split; [done|]. rewrite !fmap_sent_emit. by rewrite !app_nil_r. }
    unfold alloc. eexists. split; [done|].
    rewrite fmap_sent_emit. cbn [w_trace Domain].
    f_equal. change (Domain <$> sent (w_trace
      (emit EvConnClose (emit (EvDial (domain +:+ ":443"))
        (emit (EvLog "TRACE" "Grabbing certs for domain: %s" [domain]) w)))) =
      Domain <$> sent (w_trace w)).
    rewrite !fmap_sent_emit. by rewrite !app_nil_r.
Qed.

Lemma grabCerts_sent (env : Env) (blacklist : gmap string bool)
    (domains : list string) (w : worker) :
  chains_present env ->
  exists w',
    grabCerts env blacklist domains w = Done w' /\
    Domain <$> sent (w_trace w') =
    (Domain <$> sent (w_trace w)) ++
    filter (fun d => probe_succeeds env blacklist d = true) domains.
Proof.
  intros Hc. revert w. induction domains as [|d rest IH]; intros w; cbn [grabCerts].
  - exists w. split; [done|]. by rewrite app_nil_r.
  - destruct (grabCerts_body_sent env blacklist w d Hc) as (w1 & -> & Hs1).
    destruct (IH w1) as (w' & -> & Hs).
    exists w'. split; [done|]. rewrite Hs, Hs1, <- app_assoc. f_equal.
    rewrite filter_cons. destruct (probe_succeeds env blacklist d).
    + by rewrite decide_True.
    + by rewrite decide_False.
Qed.

(** X6.  [grabCerts]: when every successful dial comes with a first
    verified chain that is not empty, the worker reads all its domains and
    ends normally, and it sends a masquerade for exactly the domains whose
    probe succeeds (not blacklisted, dial without error, root certificate
    loaded by keyman), one for each, in the order of the domains: a
    failure on one domain takes nothing from the others. *)
Theorem probes_complete (env : Env) (blacklist : gmap string bool)
    (h : store) (domains : list string) :
  chains_present env ->
  exists w',
    grabCerts env blacklist domains (mkWorker h []) = Done w' /\
    Domain <$> sent (w_trace w') =
    filter (fun d => probe_succeeds env blacklist d = true) domains.
Proof.
  intros Hc.
  destruct (grabCerts_sent env blacklist domains (mkWorker h []) Hc)
    as (w' & Hw & Hs).
  by exists w'.
Qed.

End ProberRunProofs.

(* ===================================================================== *)
(** * The prober: failures *)
(* ===================================================================== *)

Module FailureProofs.
Import Genconfig GenconfigMain.


End FailureProofs.

(* ===================================================================== *)
(** * logging: the writer to Loggly *)
(* ===================================================================== *)

Module LoggingProofs.
Import Logging.

(** ** Indexing *)

Lemma get_is_Some (s : string) (n : nat) :
  (n < String.length s)%nat -> is_Some (String.get n s).
Proof.
  revert n. induction s as [|c s IH]; intros n Hn; simpl in Hn; [lia|].
  destruct n as [|n]; [by eexists|]. apply IH. lia.
Qed.

Lemma get_None (s : string) (n : nat) :
  (String.length s <= n)%nat -> String.get n s = None.
Proof.
  revert n. induction s as [|c s IH]; intros n Hn; [done|].
  simpl in Hn. destruct n as [|n]; [lia|]. apply IH. lia.
Qed.

Lemma string_index_nat (s : string) (n : nat) :
  string_index s (Z.of_nat n) = String.get n s.
Proof.
  unfold string_index. rewrite (proj2 (Z.ltb_ge _ _)) by lia.
  by rewrite Nat2Z.id.
Qed.

Lemma string_index_succ (s : string) (n : nat) :
  string_index s (Z.of_nat n + 1) = String.get (S n) s.
Proof. rewrite <- string_index_nat. f_equal. lia. Qed.

(** ** The loop *)

Lemma separators_below_S (s : string) (n : nat) :
  separators_below s (S n) =
  if separator s n then n :: separators_below s n else separators_below s n.
Proof.
  unfold separators_below. rewrite seq_S, filter_app, reverse_app.
  cbn [Nat.add]. rewrite filter_cons, filter_nil.
  destruct (separator s n); [by rewrite decide_True|by rewrite decide_False].
Qed.

Lemma separators_below_lt (s : string) (n p : nat) :
  p ∈ separators_below s n -> (p < n)%nat /\ separator s p = true.
Proof.
  unfold separators_below. rewrite elem_of_reverse, list_elem_of_filter.
  intros [Hs Hin]. apply elem_of_seq in Hin. split; [lia|done].
Qed.

(** The last byte is never a separator: there is no byte after it. *)
Lemma separator_last (s : string) (p : nat) :
  (String.length s <= S p)%nat -> separator s p = false.
Proof.
  intros Hp. unfold separator. rewrite (get_None s (S p)) by done.
  by destruct (String.get p s).
Qed.

Lemma separators_below_length (s : string) :
  separators_below s (String.length s) = separators_below s (String.length s - 1).
Proof.
  destruct (String.length s) as [|n] eqn:Hn; [done|].
  rewrite separators_below_S, separator_last by lia.
  f_equal. lia.
Qed.

(** The loop computes what [scanned] says, and never indexes out of
    range. *)
Lemma scan_scanned (s : string) (n : nat) (lastColonPos colonsSeen : Z) :
  (n = 0 \/ n < String.length s)%nat ->
  colonsSeen = 0 \/ colonsSeen = 1 ->
  scan s n lastColonPos colonsSeen = Some (scanned s n lastColonPos colonsSeen).
Proof.
  revert lastColonPos colonsSeen.
  induction n as [|n IH]; intros lastColonPos colonsSeen Hn Hseen; [done|].
  assert (Hlt : (S n < String.length s)%nat) by lia.
  cbn [scan]. rewrite string_index_nat, string_index_succ.
  unfold scanned. rewrite separators_below_S. unfold separator.
  destruct (get_is_Some s n) as [c Hc]; [lia|].
  destruct (get_is_Some s (S n)) as [d Hd]; [lia|].
  rewrite Hc, Hd.
  assert (Hrec : forall l k, k = 0 \/ k = 1 ->
            scan s n l k = Some (scanned s n l k)).
  { intros l k Hk. apply IH; [lia|done]. }
  destruct (Ascii.eqb c ":"); cbn [andb]; [|by apply Hrec].
  destruct (slash_or_digit d); cbn [negb]; [by apply Hrec|].
  destruct Hseen as [-> | ->].
  - change (int_add 0 1 =? 2) with false. cbv iota.
    change (int_add 0 1) with 1.
    rewrite Hrec by by right. unfold scanned.
    change (0 =? 0) with true. change (1 =? 0) with false.
    by destruct (separators_below s n).
  - change (int_add 1 1 =? 2) with true. cbv iota.
    by change (1 =? 0) with false.
Qed.

Lemma scanned_start (s : string) :
  scanned s (String.length s - 1) (-1) 0 + 1 = Z.of_nat (message_start s).
Proof.
  unfold scanned, message_start. rewrite separators_below_length.
  change (0 =? 0) with true.
  destruct (separators_below s (String.length s - 1)) as [|p [|q rest]]; lia.
Qed.

Lemma message_start_le (s : string) : (message_start s <= String.length s)%nat.
Proof.
  unfold message_start.
  destruct (separators_below s (String.length s)) as [|p [|q rest]] eqn:Hs; [lia|..].
  - destruct (separators_below_lt s (String.length s) p); [rewrite Hs; by left|lia].
  - destruct (separators_below_lt s (String.length s) q);
      [rewrite Hs; right; by left|lia].
Qed.

(** ** The first colon *)

Lemma IndexByte_spec (s : string) (c : ascii) :
  (strings_IndexByte s c = -1 /\ (c ∉ list_ascii_of_string s)) \/
  (exists p r, s = p +:+ String c r /\ (c ∉ list_ascii_of_string p) /\
               strings_IndexByte s c = Z.of_nat (String.length p)).
Proof.
  induction s as [|a s IH]; [left; split; [done|by intros ?%elem_of_nil]|].
  cbn [strings_IndexByte].
  destruct (Ascii.eqb_spec a c) as [->|Hne].
  - right. exists EmptyString, s. split; [done|]. split; [by intros ?%elem_of_nil|done].
  - destruct IH as [[-> Hno]|(p & r & -> & Hno & ->)].
    + left. split; [done|]. cbn. intros [?|?]%elem_of_cons; done.
    + right. exists (String a p), r. split; [done|]. split.
      * cbn. intros [?|?]%elem_of_cons; done.
      * rewrite (proj2 (Z.ltb_ge _ _)) by lia. cbn [String.length]. lia.
Qed.

(** ** Write *)

Lemma slice_from (s : string) (n : nat) :
  (n <= String.length s)%nat ->
  string_slice s (Z.of_nat n) (len s) =
  Some (substring n (String.length s - n) s).
Proof.
  intros Hn. unfold string_slice, len.
  rewrite !(proj2 (Z.leb_le _ _)) by lia. cbn [andb].
  rewrite Nat2Z.id. do 2 f_equal. lia.
Qed.

Lemma slice_to (p r : string) :
  string_slice (p +:+ r) 0 (len p) = Some p.
Proof.
  unfold string_slice, len. rewrite ProberProofs.string_length_app.
  rewrite !(proj2 (Z.leb_le _ _)) by lia. cbn [andb].
  rewrite Z.sub_0_r, Nat2Z.id. change (Z.to_nat 0) with 0%nat.
  by rewrite StringFacts.substring_app_l.
Qed.

Lemma slice_nothing (s : string) : string_slice s 0 0 = Some EmptyString.
Proof.
  unfold string_slice. rewrite !(proj2 (Z.leb_le _ _)) by lia. cbn.
  by destruct s.
Qed.

(** The start of the scan: [len(fullMessage) - 2 + 1] turns. *)
Lemma scan_start (s : string) :
  scan s (Z.to_nat (len s - 2 + 1)) (-1) 0 =
  Some (Z.of_nat (message_start s) - 1).
Proof.
  unfold len.
  replace (Z.to_nat (Z.of_nat (String.length s) - 2 + 1))
    with (String.length s - 1)%nat by lia.
  rewrite scan_scanned; [|lia|by left].
  f_equal. pose proof (scanned_start s). lia.
Qed.

(** What [Write] sends, for every text. *)
Lemma Write_spec (wd : World) (w : logglyErrorWriter) (b : string) :
  exists prefix,
    let m := {| extra := extra_of wd w;
                locationInfo := prefix;
                message := TrimSpace wd
                  (substring (message_start b)
                     (String.length b - message_start b) b);
                fullMessage := b |} in
    logglyErrorWriter_Write wd w b =
      Some (match Send wd (client w) m with
            | Some err => (0, Some err)
            | None => (len b, None)
            end, [EvSend (client w) m]) /\
    ((exists r, b = prefix +:+ String ":" r /\ (":"%char ∉ list_ascii_of_string prefix)) \/
     (prefix = EmptyString /\ (":"%char ∉ list_ascii_of_string b))).
Proof.
  unfold logglyErrorWriter_Write. cbv zeta. rewrite scan_start.
  replace (Z.of_nat (message_start b) - 1 + 1) with (Z.of_nat (message_start b)) by lia.
  rewrite slice_from by apply message_start_le.
  destruct (IndexByte_spec b ":") as [[Hi Hno]|(p & r & Hb & Hno & Hi)]; rewrite Hi.
  - change (-1 =? -1) with true. cbv iota. rewrite slice_nothing.
    exists EmptyString. split; [|by right].
    by destruct (Send wd (client w) _).
  - rewrite (proj2 (Z.eqb_neq _ _)) by lia.
    exists p. split; [|left; by exists r].
    subst b. fold (len p). rewrite slice_to.
    by destruct (Send wd (client w) _).
Qed.

(** X16.  [logglyErrorWriter.Write]: for every text, empty or not, the
    writer sends one message and no index or slice is out of range; the
    message's [fullMessage] is the text, and its [message] is the text
    from after the second separator colon counted from the end, from after
    the only one when there is one, the whole text when there is none,
    trimmed by [strings.TrimSpace]; a separator colon is a colon followed
    by a byte that is neither a slash nor a digit.  The call returns the
    length of the text, or 0 and the error when the send fails. *)
Theorem loggly_message_is_last_two_chunks (wd : World) (w : logglyErrorWriter)
    (b : string) :
  exists m start,
    logglyErrorWriter_Write wd w b =
      Some (match Send wd (client w) m with
            | Some err => (0, Some err)
            | None => (len b, None)
            end, [EvSend (client w) m]) /\
    fullMessage m = b /\
    extra m = extra_of wd w /\
    message m = TrimSpace wd (substring start (String.length b - start) b) /\
    (start <= String.length b)%nat /\
    match separators_below b (String.length b) with
    | [] => start = 0%nat
    | [p] => start = S p
    | _ :: p :: _ => start = S p
    end.
Proof.
  destruct (Write_spec wd w b) as (prefix & Hw & _). cbv zeta in Hw.
  eexists _, (message_start b). split; [exact Hw|]. cbn [fullMessage extra message].
  split; [done|]. split; [done|]. split; [done|].
  split; [apply message_start_le|].
  unfold message_start.
  by destruct (separators_below b (String.length b)) as [|p [|q rest]].
Qed.

(** X17.  [logglyErrorWriter.Write]: the [locationInfo] of the message is
    the text before the first colon of the text, and it is empty, not the
    whole text, when the text has no colon. *)
Theorem loggly_location_is_text_before_first_colon (wd : World)
    (w : logglyErrorWriter) (b : string) :
  exists r m,
    logglyErrorWriter_Write wd w b = Some (r, [EvSend (client w) m]) /\
    ((exists rest, b = locationInfo m +:+ String ":" rest /\
                   (":"%char ∉ list_ascii_of_string (locationInfo m))) \/
     (locationInfo m = EmptyString /\ (":"%char ∉ list_ascii_of_string b))).
Proof.
  destruct (Write_spec wd w b) as (prefix & Hw & Hp). cbv zeta in Hw.
  eexists _, _. split; [exact Hw|]. done.
Qed.

(** ** The outputs *)

Lemma write_each_cons (write : Writer -> option (Z * option error * list event))
    (w : Writer) (ws : list Writer) :
  write_each write (w :: ws) =
  match write w with
  | None => None
  | Some (_, t) =>
    match write_each write ws with
    | None => None
    | Some t' => Some (t ++ t')
    end
  end.
Proof. reflexivity. Qed.

Lemma Writer_Write_total (wd : World) (p : string) :
  forall w, is_Some (Writer_Write wd w p).
Proof.
  fix IH 1. intros [name|writers|lw].
  - by eexists.
  - cbn [Writer_Write].
    assert (Heach : is_Some (write_each (fun w => Writer_Write wd w p) writers)).
    { induction writers as [|w ws IHws]; [by eexists|].
      rewrite write_each_cons. destruct (IH w) as [[r t] ->].
      destruct IHws as [t' ->]. by eexists. }
    destruct Heach as [t ->]. by eexists.
  - cbn [Writer_Write]. destruct (Write_spec wd lw p) as (prefix & -> & _).
    by eexists.
Qed.

Lemma write_each_spec (wd : World) (p : string) (writers : list Writer) :
  exists t,
    write_each (fun w => Writer_Write wd w p) writers = Some t /\
    forall w, w ∈ writers ->
      exists r tw, Writer_Write wd w p = Some (r, tw) /\ tw ⊆ t.
Proof.
  induction writers as [|w ws (t' & Ht' & Hall)].
  - exists []. split; [done|]. by intros w ?%elem_of_nil.
  - destruct (Writer_Write_total wd p w) as [[r t] Hw].
    exists (t ++ t'). split.
    + by rewrite write_each_cons, Hw, Ht'.
    + intros w' [->|Hin]%elem_of_cons.
      * exists r, t. split; [done|]. intros e He. apply elem_of_app. by left.
      * destruct (Hall w' Hin) as (r' & tw & Hw' & Hsub).
        exists r', tw. split; [done|]. intros e He. apply elem_of_app. right. by apply Hsub.
Qed.

(** X18.  [nonStopWriter.Write], [NonStopWriter]: whatever its writers
    are and whatever they return, the call returns the length of the
    bytes and no error, and every writer of the list has been written
    the bytes: an error of one writer keeps nothing from the writers
    after it. *)
Theorem nonStopWriter_never_fails (wd : World) (writers : list Writer)
    (p : string) :
  exists t,
    Writer_Write wd (NonStopWriter writers) p = Some (len p, None, t) /\
    (forall name, External name ∈ writers -> EvWrite name p ∈ t) /\
    (forall lw, Loggly lw ∈ writers ->
       exists m, EvSend (client lw) m ∈ t /\ fullMessage m = p).
Proof.
  destruct (write_each_spec wd p writers) as (t & Ht & Hall).
  exists t. unfold NonStopWriter. cbn [Writer_Write]. rewrite Ht.
  split; [done|]. split.
  - intros name Hin. destruct (Hall _ Hin) as (r & tw & Hw & Hsub).
    apply Hsub. injection Hw as _ <-. by left.
  - intros lw Hin. destruct (Hall _ Hin) as (r & tw & Hw & Hsub).
    cbn [Writer_Write] in Hw.
    destruct (Write_spec wd lw p) as (prefix & Hspec & _). cbv zeta in Hspec.
    rewrite Hspec in Hw. injection Hw as _ <-.
    eexists. split; [apply Hsub; by left|done].
Qed.

(** ** Configure *)

Lemma lastAddr_enableLoggly (wd : World) (tok : string) (cfg : Config)
    (v bd : string) (st : state) :
  lastAddr (enableLoggly wd tok cfg v bd st) = lastAddr st.
Proof.
  unfold enableLoggly. case_bool_decide; [done|].
  destruct (WaitForServer wd _); [done|].
  by destruct (HTTPClient wd _ _).
Qed.

(** X19.  [Configure], [enableLoggly]: an address is tried once.  After
    a call with a token, a version and a build date, a second call with
    the same address changes nothing and only logs that the
    configuration is unchanged, whatever the world has become: also when
    the first call did not enable Loggly because the proxy never came
    online or the HTTP client could not be built. *)
Theorem Configure_same_address_never_retried (wd wd' : World)
    (logglyToken : string) (cfg cfg' : Config)
    (version buildDate version' buildDate' : string) (st : state) :
  logglyToken <> EmptyString ->
  version <> EmptyString -> buildDate <> EmptyString ->
  version' <> EmptyString -> buildDate' <> EmptyString ->
  Addr cfg' = Addr cfg ->
  let st1 := Configure wd logglyToken cfg version buildDate st in
  Configure wd' logglyToken cfg' version' buildDate' st1 =
  log_line "DEBUG" "Logging configuration unchanged" [] st1.
Proof.
  intros Htok Hv Hb Hv' Hb' Haddr st1.
  assert (Hlast : lastAddr st1 = Addr cfg).
  { unfold st1, Configure. rewrite !bool_decide_eq_false_2 by done.
    case_bool_decide as Hsame; [done|]. by rewrite lastAddr_enableLoggly. }
  unfold Configure at 1. rewrite !bool_decide_eq_false_2 by done.
  rewrite bool_decide_eq_true_2; [done|congruence].
Qed.

(** X20.  [Configure], [enableLoggly], [addLoggly], [removeLoggly]: the
    error output includes the writer to Loggly only after a call with a
    token, a version, a build date and a new address that is not empty,
    at which the proxy came online and for which the HTTP client was
    built; the writer then has the token, the host name hidden, and the
    version followed by the build date in brackets.  In every other case
    the outputs are left as they are or set back to the plain ones; the
    debug output never includes the writer to Loggly. *)
Theorem Configure_outputs (wd : World) (logglyToken : string) (cfg : Config)
    (version buildDate : string) (st : state) :
  let st' := Configure wd logglyToken cfg version buildDate st in
  let tried :=
    logglyToken <> EmptyString /\ version <> EmptyString /\
    buildDate <> EmptyString /\ Addr cfg <> lastAddr st in
  (~ tried -> outputs st' = outputs st /\ lastAddr st' = lastAddr st) /\
  (tried -> lastAddr st' = Addr cfg /\
     match bool_decide (Addr cfg = EmptyString), WaitForServer wd (Addr cfg),
           HTTPClient wd (CloudConfigCA cfg) (Addr cfg) with
     | false, None, Ok httpClient =>
       exists lw,
         outputs st' = (NonStopWriter [errorOut; Loggly lw], debugOut) /\
         Token (client lw) = logglyToken /\
         Defaults (client lw) !! "hostname" = Some "hidden" /\
         HTTP (client lw) = Some httpClient /\
         versionToLoggly lw = version +:+ " (" +:+ buildDate +:+ ")"
     | _, _, _ => outputs st' = (errorOut, debugOut)
     end).
Proof.
  cbv zeta. unfold Configure. split.
  - intros Hn.
    repeat (case_bool_decide; [done|]).
    exfalso. apply Hn. done.
  - intros (Htok & Hv & Hb & Ha).
    rewrite !bool_decide_eq_false_2 by done.
    rewrite lastAddr_enableLoggly. split; [done|].
    unfold enableLoggly. case_bool_decide as Hempty; [done|].
    destruct (WaitForServer wd (Addr cfg)); [done|].
    destruct (HTTPClient wd _ _) as [httpClient|err]; [|done].
    eexists. split; [done|]. cbn. split; [done|].
    split; [apply lookup_insert_eq|done].
Qed.

End LoggingProofs.

(* ===================================================================== *)
(** * proxy/client.go: Run *)
(* ===================================================================== *)

Module RunProofs.
Import Proxy ProxyRun.

Lemma served_app (t1 t2 : list event) : served (t1 ++ t2) = served t1 ++ served t2.
Proof. apply omap_app. Qed.

Lemma wrapped_app (t1 t2 : list event) : wrapped (t1 ++ t2) = wrapped t1 ++ wrapped t2.
Proof. apply omap_app. Qed.

Lemma added_app (t1 t2 : list event) :
  added_to_trust_store (t1 ++ t2) =
  (added_to_trust_store t1 + added_to_trust_store t2)%nat.
Proof. unfold added_to_trust_store. by rewrite omap_app, length_app. Qed.

(** The installation into the trust store starts no server and wraps no
    handler. *)
Lemma install_trace (o : Outside) :
  served (ProxyConfig_InstallCACertToTrustStoreIfNecessary o) = [] /\
  wrapped (ProxyConfig_InstallCACertToTrustStoreIfNecessary o) = [] /\
  added_to_trust_store (ProxyConfig_InstallCACertToTrustStoreIfNecessary o) =
    match IsInstalled o with Ok false => 1%nat | _ => 0%nat end.
Proof.
  unfold ProxyConfig_InstallCACertToTrustStoreIfNecessary,
    CertContext_InstallCACertToTrustStoreIfNecessary.
  destruct (IsInstalled o) as [[]|err]; cbn; [done| |done].
  by destruct (AddAsTrustedRoot o).
Qed.

Lemma buildMITMHandler_spec (o : Outside) (cfg : RunConfig) :
  buildMITMHandler o cfg =
  (match mitm_Wrap o (cryptoConf_of o cfg) with
   | Err err => Err ("Unable to initialize mitm handler: " +:+ err)
   | Ok handler => Ok handler
   end, [EvWrap (cryptoConf_of o cfg)]).
Proof.
  unfold buildMITMHandler, cryptoConf_of. cbn.
  destruct (TLSConfig cfg); by destruct (mitm_Wrap o _).
Qed.

(** X21.  [Run], [buildMITMHandler]: [Run] ends in one of three ways.
    When the common certificates cannot be initialised it returns that
    error, wrapped, and has done nothing else.  When [mitm.Wrap] fails it
    returns that error, wrapped twice, and starts no server.  Otherwise it
    starts one server, at the client's address and with its timeouts and
    the MITM handler, and returns what [ListenAndServe] returns.  The
    handler is built once, from the two files of the certificate context
    and the client's TLS configuration, or the default one when the
    client has none.  What the trust store answers changes none of
    this. *)
Theorem Run_outcomes (o : Outside) (client : Client) (cfg : RunConfig) :
  let r := Run o client cfg in
  let cryptoConf :=
    {| cc_PKFile := PKFile cfg;
       cc_CertFile := CACertFile cfg;
       cc_ServerTLSConfig :=
         match TLSConfig cfg with
         | Some c => Some c
         | None => DEFAULT_TLS_SERVER_CONFIG o
         end |} in
  match InitCommonCerts o, mitm_Wrap o cryptoConf with
  | Some err, _ =>
    r = (Some ("Unable to init common certs: " +:+ err), [EvInitCommonCerts])
  | None, Err err =>
    r.1 = Some ("Unable to build MITM handler: " +:+
                "Unable to initialize mitm handler: " +:+ err) /\
    wrapped r.2 = [cryptoConf] /\ served r.2 = []
  | None, Ok handler =>
    let server :=
      {| srv_Addr := Addr (Config client);
         srv_ReadTimeout := ReadTimeout cfg;
         srv_WriteTimeout := WriteTimeout cfg;
         srv_Handler := handler |} in
    r.1 = ListenAndServe o server /\
    wrapped r.2 = [cryptoConf] /\ served r.2 = [server]
  end.
Proof.
  cbv zeta. fold (cryptoConf_of o cfg). unfold Run.
  destruct (InitCommonCerts o) as [err|]; [done|].
  rewrite buildMITMHandler_spec.
  destruct (install_trace o) as (Hs & Hw & _).
  destruct (mitm_Wrap o (cryptoConf_of o cfg)) as [handler|err]; cbn [fst snd].
  - split; [done|].
    change (EvInitCommonCerts :: ?t) with ([EvInitCommonCerts] ++ t).
    rewrite !wrapped_app, !served_app, Hs, Hw. done.
  - split; [done|].
    change (EvInitCommonCerts :: ?t) with ([EvInitCommonCerts] ++ t).
    rewrite !wrapped_app, !served_app, Hs, Hw. done.
Qed.

(** X22.  [InstallCACertToTrustStoreIfNecessary] (both): the certificate
    is added to the trust store when the check answers that it is not
    installed, once, and in no other case; the function of the
    certificate context returns the error of the check, wrapped, or the
    error of the addition as it is; [Run] makes the attempt at most once
    and none when the common certificates could not be initialised. *)
Theorem trust_store_added_only_when_missing (o : Outside) :
  let r := CertContext_InstallCACertToTrustStoreIfNecessary o in
  added_to_trust_store r.2 =
    match IsInstalled o with Ok false => 1%nat | _ => 0%nat end /\
  r.1 =
    match IsInstalled o with
    | Err err => Some ("Unable to check if CA certificate is installed: " +:+ err)
    | Ok false => AddAsTrustedRoot o
    | Ok true => None
    end /\
  forall client cfg,
    added_to_trust_store (Run o client cfg).2 =
    match InitCommonCerts o, IsInstalled o with
    | None, Ok false => 1%nat
    | _, _ => 0%nat
    end.
Proof.
  cbv zeta. split; [|split].
  - unfold CertContext_InstallCACertToTrustStoreIfNecessary.
    destruct (IsInstalled o) as [[]|err]; [done| |done].
    by destruct (AddAsTrustedRoot o).
  - unfold CertContext_InstallCACertToTrustStoreIfNecessary.
    destruct (IsInstalled o) as [[]|err]; [done| |done].
    by destruct (AddAsTrustedRoot o).
  - intros client cfg. unfold Run.
    destruct (InitCommonCerts o) as [err|]; [done|].
    rewrite buildMITMHandler_spec.
    destruct (install_trace o) as (_ & _ & Ha).
    destruct (mitm_Wrap o (cryptoConf_of o cfg)) as [handler|err]; cbn [fst snd];
      change (EvInitCommonCerts :: ?t) with ([EvInitCommonCerts] ++ t);
      rewrite !added_app, Ha; cbn; lia.
Qed.

End RunProofs.

(* ===================================================================== *)
(** * The director: the host and the port *)
(* ===================================================================== *)

Module HostProofs.
Import Proxy.

Lemma prefix_colon (c : ascii) (s : string) :
  String.prefix ":" (String c s) = bool_decide (c = ":"%char).
Proof.
  cbn [String.prefix]. destruct (ascii_dec ":" c) as [<-|Hne].
  - rewrite bool_decide_eq_true_2 by done. by destruct s.
  - by rewrite bool_decide_eq_false_2.
Qed.

(** Up to the first colon the scan only collects the bytes. *)
Lemma split_from_host (host rest cur : string) :
  (":"%char ∉ list_ascii_of_string host) ->
  split_from ":" 0 cur host = [cur +:+ host] /\
  split_from ":" 0 cur (host +:+ String ":" rest) =
    (cur +:+ host) :: split_from ":" 0 EmptyString rest.
Proof.
  revert cur. induction host as [|c host IH]; intros cur Hno.
  - rewrite StringFacts.app_empty_r. split; [done|].
    change (EmptyString +:+ String ":" rest) with (String ":" rest).
    cbn [split_from]. by rewrite prefix_colon, bool_decide_eq_true_2.
  - cbn [list_ascii_of_string] in Hno. apply not_elem_of_cons in Hno as [Hc Hno].
    rewrite StringFacts.app_String. cbn [split_from].
    rewrite !prefix_colon, !bool_decide_eq_false_2 by (intros Heq; by rewrite Heq in Hc).
    destruct (IH (cur +:+ String c EmptyString) Hno) as [H1 H2].
    rewrite H1, H2, !StringFacts.app_assoc_string. done.
Qed.

Lemma host_of_host_port (host rest : string) :
  (":"%char ∉ list_ascii_of_string host) ->
  slice_index (strings_Split host ":") 0 = Some host /\
  slice_index (strings_Split (host +:+ String ":" rest) ":") 0 = Some host.
Proof.
  intros Hno. unfold strings_Split. rewrite bool_decide_eq_false_2 by done.
  destruct (split_from_host host rest EmptyString Hno) as [-> ->]. done.
Qed.

(** X23.  [isNotLoopback], the director of [buildReverseProxy]: only the
    text before the first colon of [req.Host] is resolved; the port, and
    whatever else follows the first colon, plays no part in the decision
    to rewrite the request. *)
Theorem port_plays_no_part (resolve : Resolver) (client : Client)
    (req : http_Request) (host rest : string) :
  (":"%char ∉ list_ascii_of_string host) ->
  Host req = host +:+ String ":" rest \/ Host req = host ->
  let decision :=
    match resolve "ip4" host with
    | Err _ => false
    | Ok ip => negb (IsLoopback (IP ip))
    end in
  isNotLoopback resolve (Host req) = Some decision /\
  should_rewrite resolve client req = Some (ShouldProxyLoopback client || decision) /\
  exists t,
    Director resolve client req =
      Some (if ShouldProxyLoopback client || decision
            then RewriteRequest (Protocol client) req else req, t) /\
    rewrites t = if ShouldProxyLoopback client || decision then [req] else [].
Proof.
  intros Hno Hhost decision.
  destruct (host_of_host_port host rest Hno) as [H1 H2].
  assert (Hh : slice_index (strings_Split (Host req) ":") 0 = Some host).
  { by destruct Hhost as [-> | ->]. }
  assert (Hn : isNotLoopback resolve (Host req) = Some decision).
  { unfold isNotLoopback. by rewrite Hh. }
  assert (Hs : should_rewrite resolve client req =
               Some (ShouldProxyLoopback client || decision)).
  { unfold should_rewrite. by destruct (ShouldProxyLoopback client). }
  split; [done|]. split; [done|].
  unfold Director. rewrite Hs.
  destruct (ShouldProxyLoopback client || decision);
    eexists; (split; [done|]); by destruct (ShouldDumpHeaders _).
Qed.

End HostProofs.

(* ===================================================================== *)
(** * statreporter *)
(* ===================================================================== *)

Module StatreporterProofs.
Import Statreporter.

(** ** DimGroup.And *)

Lemma And_in_snoc (entries : list (string * string)) (e : string * string)
    (key value : string) :
  And_in (entries ++ [e]) key value = <[e.1 := e.2]> (And_in entries key value).
Proof. unfold And_in. by rewrite fold_left_app. Qed.

Lemma And_in_lookup (entries : list (string * string)) (key value k : string) :
  NoDup entries.*1 ->
  And_in entries key value !! k =
  match list_to_map (M := gmap string string) entries !! k with
  | Some v => Some v
  | None => if decide (k = key) then Some value else None
  end.
Proof.
  induction entries as [|[a b] entries IH] using rev_ind; intros Hnd.
  - unfold And_in. cbn. rewrite lookup_empty.
    destruct (decide (k = key)) as [->|Hne].
    + apply lookup_singleton_eq.
    + by apply lookup_singleton_ne.
  - rewrite fmap_app in Hnd. apply NoDup_app in Hnd as (Hnd & Hfresh & _).
    rewrite And_in_snoc. cbn [fst snd].
    assert (Ha : a ∉ entries.*1).
    { intros Hin. apply (Hfresh a Hin). cbn. by left. }
    rewrite list_to_map_app. cbn [list_to_map foldr fst snd].
    rewrite lookup_union.
    destruct (decide (a = k)) as [->|Hne].
    + rewrite lookup_insert_eq.
      rewrite (not_elem_of_list_to_map_1 _ _ Ha). cbn.
      by rewrite lookup_insert_eq.
    + rewrite lookup_insert_ne by done. rewrite IH by done.
      rewrite lookup_insert_ne by done. rewrite lookup_empty.
      by destruct (list_to_map entries !! k).
Qed.

(** X24.  [DimGroup.And]: whatever the order in which the map is ranged
    over, the new group has the dimensions of the old one, and the new
    dimension only when the old group has none of that key: a dimension
    that exists keeps its value, and the value given is dropped. *)
Theorem And_keeps_existing_dimension (dg : DimGroup)
    (entries : list (string * string)) (key value : string) :
  entries ≡ₚ map_to_list dg ->
  And_in entries key value = dg ∪ Dim key value /\
  (forall k v, dg !! k = Some v -> And_in entries key value !! k = Some v) /\
  (dg !! key = None -> And_in entries key value !! key = Some value).
Proof.
  intros Hp.
  assert (Hl : forall k, And_in entries key value !! k =
            match dg !! k with
            | Some v => Some v
            | None => if decide (k = key) then Some value else None
            end).
  { intros k. rewrite And_in_lookup.
    - assert (He : list_to_map (M := gmap string string) entries = dg).
      { rewrite <- (list_to_map_to_list dg). apply list_to_map_proper; [|done].
        rewrite Hp. apply NoDup_fst_map_to_list. }
      by rewrite He.
    - rewrite Hp. apply NoDup_fst_map_to_list. }
  split; [|split].
  - apply map_eq. intros k. rewrite Hl, lookup_union. unfold Dim.
    destruct (dg !! k) as [v|].
    + by destruct ({[key := value]} !! k).
    + destruct (decide (k = key)) as [->|Hne].
      * by rewrite lookup_singleton_eq.
      * by rewrite lookup_singleton_ne.
  - intros k v Hk. by rewrite Hl, Hk.
  - intros Hk. rewrite Hl, Hk. by rewrite decide_True.
Qed.

(** ** DimGroup.String *)

Lemma sort_Strings_sorted (keys : list string) :
  StronglySorted String.le (sort_Strings keys).
Proof.
  unfold sort_Strings.
  apply (ModelProofs.StronglySorted_weaken (Genconfig.before String.ltb)).
  { intros a b _ _. unfold Genconfig.before. apply ModelProofs.ltb_false_le. }
  apply (ModelProofs.sort_Sort_sorted String.ltb (fun _ => True)).
  - intros a b _ _ Hlt. apply ModelProofs.ltb_false_le.
    unfold String.le, String.leb. unfold String.ltb in Hlt.
    by destruct (String.compare _ _).
  - intros a b c _ _ _. unfold Genconfig.before.
    rewrite !ModelProofs.ltb_false_le. apply transitivity.
  - by apply Forall_forall.
Qed.

(** Sorting makes the order of [range] irrelevant. *)
Lemma sort_Strings_perm (keys keys' : list string) :
  keys ≡ₚ keys' -> sort_Strings keys = sort_Strings keys'.
Proof.
  intros Hp. apply (StronglySorted_unique String.le).
  - apply sort_Strings_sorted.
  - apply sort_Strings_sorted.
  - unfold sort_Strings. by rewrite !(ModelProofs.sort_Sort_perm _ _), Hp.
Qed.

(** After the first turn every key is written behind a comma. *)
Lemma String_fold_later (dg : DimGroup) (keys : list string) (s : string) (i : Z) :
  0 < i ->
  (fold_left (String_step dg) keys (s, i)).1 =
  s +:+ strings_Join
          (EmptyString :: ((fun k => k +:+ "=" +:+ default EmptyString (dg !! k)) <$> keys))
          ",".
Proof.
  revert s i. induction keys as [|k keys IH]; intros s i Hi.
  - cbn. by rewrite StringFacts.app_empty_r.
  - cbn [fold_left String_step]. rewrite (proj2 (Z.eqb_neq _ _)) by lia.
    rewrite IH by lia. cbn [fmap list_fmap strings_Join].
    change (EmptyString +:+ ?x) with x.
    rewrite !StringFacts.app_assoc_string.
    destruct keys as [|k' keys]; cbn [fmap list_fmap strings_Join].
    + by rewrite !StringFacts.app_empty_r.
    + done.
Qed.

Lemma String_fold (dg : DimGroup) (keys : list string) :
  (fold_left (String_step dg) keys (EmptyString, 0)).1 =
  strings_Join ((fun k => k +:+ "=" +:+ default EmptyString (dg !! k)) <$> keys) ",".
Proof.
  destruct keys as [|k keys]; [done|].
  cbn [fold_left String_step]. change (0 =? 0) with true. cbv iota.
  rewrite String_fold_later by lia.
  change (EmptyString +:+ ?x) with x.
  cbn [fmap list_fmap strings_Join].
  destruct keys as [|k' keys]; cbn [fmap list_fmap strings_Join].
  - by rewrite StringFacts.app_empty_r.
  - done.
Qed.

(** X25.  [DimGroup.String]: whatever the order in which the map is
    ranged over, the string is the same: the dimensions written as
    [key=value], joined by commas, in the ascending order of their keys.
    A group of one dimension gives [key=value]. *)
Theorem String_is_canonical (dg : DimGroup) (keys : list string) :
  keys ≡ₚ (map_to_list dg).*1 ->
  String_in keys dg = DimGroup_String dg /\
  (exists sorted,
     sorted ≡ₚ (map_to_list dg).*1 /\
     StronglySorted String.le sorted /\
     DimGroup_String dg =
       strings_Join
         ((fun k => k +:+ "=" +:+ default EmptyString (dg !! k)) <$> sorted) ",") /\
  (forall key value, DimGroup_String (Dim key value) = key +:+ "=" +:+ value).
Proof.
  intros Hp. split; [|split].
  - unfold DimGroup_String, String_in. by rewrite (sort_Strings_perm _ _ Hp).
  - exists (sort_Strings (map_to_list dg).*1). split; [|split].
    + unfold sort_Strings. apply ModelProofs.sort_Sort_perm.
    + apply sort_Strings_sorted.
    + unfold DimGroup_String, String_in. apply String_fold.
  - intros key value. unfold DimGroup_String, String_in, Dim.
    rewrite map_to_list_singleton. cbn.
    change (EmptyString +:+ ?x) with x. by rewrite lookup_singleton_eq.
Qed.

(** ** TraversalOutcome.coalesce *)


(** ** processTraversalStats *)








(** ** The outcomes of a country *)














(** ** The loop *)




(** ** Sums *)



(** ** The timer *)




End StatreporterProofs.

(* ===================================================================== *)
(** * More theorems at concrete inputs *)
(* ===================================================================== *)

Module MoreChecks.
Import Genconfig GenconfigMain MoreExamples.

(** ** The files *)

Example files_of_example :
  loadDomains fs "domains.txt" =
    Loaded ["a.example"; "blacklisted.example"; "b.example"; EmptyString] /\
  (exists blacklist,
     loadBlacklist fs "blacklist.txt" ∅ = Loaded blacklist /\
     map_to_list blacklist = [("blacklisted.example", true); (EmptyString, true)]) /\
  (exists proxiedSites,
     loadProxiedSitesList fs "proxiedsites" visits ∅ = Loaded (proxiedSites, []) /\
     map_to_list proxiedSites = [("example.org", true); ("example.com", true)]) /\
  loadProxiedSitesList fs "missing"
    [mkVisit "missing" None (Some "lstat: no such file")] ∅ = NilDereference.
Proof.
  split; [by vm_compute|]. split; [|split; [|by vm_compute]].
  - eexists. split; [reflexivity|]. by vm_compute.
  - eexists. split; [reflexivity|]. by vm_compute.
Qed.

Lemma trailing_newline_gives_empty_domain_witness :
  (fs "domains.txt" = Ok EmptyString ->
     loadDomains fs "domains.txt" = Loaded [EmptyString]) /\
  (forall s, fs "domains.txt" = Ok (s +:+ newline) ->
     exists ds, loadDomains fs "domains.txt" = Loaded (ds ++ [EmptyString])) /\
  (forall env blacklist w, blacklist !! EmptyString = None ->
     EvDial ":443" ∈
       w_trace (step_worker (grabCerts_body env blacklist w EmptyString))).
Proof.
  apply (FilesProofs.trailing_newline_gives_empty_domain fs "domains.txt").
  by vm_compute.
Defined.

Lemma readable_visits : readable fs visits.
Proof.
  intros v Hv. unfold visits in Hv.
  repeat (apply elem_of_cons in Hv as [->|Hv];
          [eexists; split; [reflexivity|]; intros Hd;
           first [discriminate Hd | by eexists]|]).
  by apply elem_of_nil in Hv.
Defined.

Lemma proxied_sites_skip_comments_and_ir_witness :
  exists ps',
    loadProxiedSitesList fs "proxiedsites" visits ∅ = Loaded (ps', []) /\
    (forall d, line_of_visited fs visits d -> d <> EmptyString ->
       strings_HasPrefix d "#" = false -> strings_HasSuffix d ".ir" = false ->
       ps' !! d = Some true) /\
    (forall d, ~ (keep_site d = true /\ line_of_visited fs visits d) ->
       ps' !! d = (∅ : domain_filter) !! d) /\
    ps' !! EmptyString = (∅ : domain_filter) !! EmptyString /\
    (forall x, ps' !! ("#" +:+ x) = (∅ : domain_filter) !! ("#" +:+ x)) /\
    (forall x, ps' !! (x +:+ ".ir") = (∅ : domain_filter) !! (x +:+ ".ir")).
Proof.
  apply (FilesProofs.proxied_sites_skip_comments_and_ir fs "proxiedsites" visits ∅).
  - by vm_compute.
  - exact readable_visits.
Defined.

Lemma proxied_sites_walk_error_never_logged_witness :
  ([] : list event) = [] /\
  loadProxiedSitesList fs "missing"
    [mkVisit "missing" None (Some "lstat: no such file")] ∅ = NilDereference.
Proof.
  split.
  - apply (proj1 (FilesProofs.proxied_sites_walk_error_never_logged
                    fs "proxiedsites" visits ∅)
             (add_sites (strings_Split
                (text ["# a comment"; "example.com"; EmptyString; "news.ir"; "example.org"])
                newline) ∅) []).
    reflexivity.
  - apply (proj2 (proj2 (FilesProofs.proxied_sites_walk_error_never_logged
                           fs "missing" [] ∅))
             (mkVisit "missing" None (Some "lstat: no such file")) []).
    + by vm_compute.
    + reflexivity.
Defined.

Lemma blacklist_file_lines_never_dialled_witness :
  exists blacklist,
    loadBlacklist fs "blacklist.txt" ∅ = Loaded blacklist /\
    (forall d, blacklist !! d =
       if decide (d ∈ strings_Split (text ["blacklisted.example"]) newline)
       then Some true else (∅ : domain_filter) !! d) /\
    let w' := outcome_worker
                (grabCerts network blacklist Examples.domains (mkWorker ∅ [])) in
    forall d, d ∈ strings_Split (text ["blacklisted.example"]) newline ->
      ((d +:+ ":443") ∉ dialled (w_trace w')) /\
      (forall m, m ∈ sent (w_trace w') -> Domain m <> d).
Proof.
  apply (FilesProofs.blacklist_file_lines_never_dialled fs "blacklist.txt" ∅
           (text ["blacklisted.example"]) network ∅ Examples.domains).
  - by vm_compute.
  - reflexivity.
Defined.

(** ** The prober *)

Example probes_of_network :
  let o := grabCerts network Examples.blacklist
             ["a.example"; "blacklisted.example"; "unreadable.example";
              "slow.example"; "b.example"] Examples.idle in
  unread o = [] /\
  dialled (w_trace (outcome_worker o)) =
    ["a.example:443"; "unreadable.example:443"; "slow.example:443"; "b.example:443"] /\
  Domain <$> sent (w_trace (outcome_worker o)) = ["a.example"; "b.example"].
Proof. by vm_compute. Qed.

Lemma chains_present_network : chains_present network.
Proof.
  intros addr cwt Hdial. unfold network in Hdial. cbn [DialForTimings] in Hdial.
  destruct (hosts !! addr) as [c|] eqn:Hc; [|discriminate].
  injection Hdial as <-.
  assert (Hall : map_Forall (fun _ c => has_chain c = true) hosts).
  { apply (bool_decide_unpack _). by vm_compute. }
  specialize (Hall _ _ Hc). unfold has_chain in Hall.
  destruct (VerifiedChains c !! 0%nat) as [chain|] eqn:Hchain; [|discriminate].
  destruct (last chain) as [rootCA|] eqn:Hlast; [|discriminate].
  by exists chain, rootCA.
Defined.


Lemma probes_complete_witness :
  exists w',
    grabCerts network Examples.blacklist Examples.domains (mkWorker ∅ []) = Done w' /\
    Domain <$> sent (w_trace w') =
    filter (fun d => probe_succeeds network Examples.blacklist d = true)
      Examples.domains.
Proof.
  apply (ProberRunProofs.probes_complete network Examples.blacklist ∅ Examples.domains).
  exact chains_present_network.
Defined.

(** ** The aggregator and the model *)

Import Examples.

Lemma trust_over_any_order_witness :
  let st := coalesce (store_of certs5) (results_of certs5) in
  trust_over minFreq (count st) (heap st) (rev (map_to_list (allCAs st))) =
  trust_over minFreq (count st) (heap st) (map_to_list (allCAs st)).
Proof.
  apply (AggregatorProofs.trust_over_any_order minFreq (store_of certs5)
           (results_of certs5)
           (rev (map_to_list (allCAs (coalesce (store_of certs5) (results_of certs5)))))).
  symmetry. apply Permutation_rev.
Defined.

Lemma trusted_independent_of_arrival_order_witness :
  let r := aggregate minFreq (store_of certs5) (results_of certs5) in
  let r' := aggregate minFreq (store_of certs5) (rev (results_of certs5)) in
  dom (trustedCAs r) = dom (trustedCAs r') /\
  trustedMasquerades r ≡ₚ trustedMasquerades r' /\
  (forall cert ca ca', trustedCAs r !! cert = Some ca ->
     trustedCAs r' !! cert = Some ca' ->
     freq (final_heap r !!! ca) = freq (final_heap r' !!! ca')).
Proof.
  apply (PipelineProofs.trusted_independent_of_arrival_order minFreq
           (store_of certs5) (results_of certs5) (rev (results_of certs5))).
  - apply Permutation_rev.
  - exact Checks.fresh_certs5.
  - by vm_compute.
Defined.

Lemma higher_threshold_trusts_less_witness :
  let r := aggregate (F64.of_int 3) (store_of certs5) (results_of certs5) in
  let r' := aggregate (F64.of_int 50) (store_of certs5) (results_of certs5) in
  trustedCAs r' ⊆ trustedCAs r /\
  trustedMasquerades r' ⊆ trustedMasquerades r.
Proof.
  apply (PipelineProofs.higher_threshold_trusts_less (F64.of_int 3) (F64.of_int 50)
           (store_of certs5) (results_of certs5)).
  by vm_compute.
Defined.

Example threshold_of_fifty :
  let r := aggregate (F64.of_int 50) (store_of certs5) (results_of certs5) in
  map_to_list (trustedCAs r) = [("A", 1%positive)] /\
  length (trustedMasquerades r) = 4%nat.
Proof. by vm_compute. Qed.

Lemma threshold_100_trusts_nothing_witness :
  (coalesceMasquerades (F64.of_int 100) (store_of (replicate 5 "A"))
     (results_of (replicate 5 "A"))).1 = (∅, []).
Proof.
  apply (PipelineProofs.threshold_100_trusts_nothing (F64.of_int 100)
           (store_of (replicate 5 "A")) (results_of (replicate 5 "A"))).
  - split.
    + apply (bool_decide_unpack _). by vm_compute.
    + intros m Hm. vm_compute in Hm.
      repeat (apply elem_of_cons in Hm as [->|Hm]; [reflexivity|]).
      by apply elem_of_nil in Hm.
  - by vm_compute.
  - by vm_compute.
Defined.

Lemma nan_threshold_trusts_nothing_witness :
  (coalesceMasquerades S754_nan (store_of certs5) (results_of certs5)).1 = (∅, []).
Proof.
  apply (PipelineProofs.nan_threshold_trusts_nothing S754_nan
           (store_of certs5) (results_of certs5)).
  reflexivity.
Defined.

Lemma model_references_closed_witness :
  let m := (main_model ∅ minFreq (store_of certs5) (results_of certs5)).1 in
  let h' := (main_model ∅ minFreq (store_of certs5) (results_of certs5)).2 in
  (exists ca, ca ∈ model_cas m /\
     Cert (h' !!! ca) =
     Cert (h' !!! RootCA (mkMasquerade "host2.example" "192.0.2.1" 3%positive))) /\
  (exists x, x ∈ model_masquerades m /\
     Cert (h' !!! RootCA x) = Cert (h' !!! 3%positive)).
Proof.
  pose proof (PipelineProofs.model_references_closed ∅ minFreq (store_of certs5)
                (results_of certs5)) as [H1 H2].
  split.
  - apply (H1 (mkMasquerade "host2.example" "192.0.2.1" 3%positive)).
    vm_compute. do 2 apply list_elem_of_further. apply list_elem_of_here.
  - apply (H2 3%positive).
    vm_compute. apply list_elem_of_further. apply list_elem_of_here.
Defined.

(** ** The writer to Loggly *)

(** A line of golog: the message starts after the name of the logger,
    the colon of the line number is no separator, and the location is the
    text before the first colon. *)
Example loggly_message_of_line :
  exists m,
    Logging.logglyErrorWriter_Write (world true) logglyWriter
      ("ERROR flashlight: client.go:12 Unable to dial: refused" +:+ newline) =
    Some (0, Some "loggly: 503", [Logging.EvSend (Logging.client logglyWriter) m]) /\
    Logging.message m = "client.go:12 Unable to dial: refused" /\
    Logging.locationInfo m = "ERROR flashlight".
Proof. eexists. by vm_compute. Qed.

(** The colons of an address are no separators; without a colon the
    location is empty. *)
Example loggly_message_without_separator :
  exists m m',
    Logging.logglyErrorWriter_Write (world true) logglyWriter
      "see http://127.0.0.1:8787/" =
    Some (0, Some "loggly: 503", [Logging.EvSend (Logging.client logglyWriter) m]) /\
    Logging.message m = "see http://127.0.0.1:8787/" /\
    Logging.locationInfo m = "see http" /\
    Logging.logglyErrorWriter_Write (world true) logglyWriter EmptyString =
    Some (0, Some "loggly: 503", [Logging.EvSend (Logging.client logglyWriter) m']) /\
    Logging.message m' = EmptyString /\
    Logging.locationInfo m' = EmptyString.
Proof. eexists _, _. by vm_compute. Qed.

Lemma nonStopWriter_never_fails_witness :
  exists t,
    Logging.Writer_Write (world true)
      (Logging.NonStopWriter [Logging.errorOut; Logging.Loggly logglyWriter])
      "ERROR x: y" =
    Some (10, None, t) /\
    Logging.EvWrite "errorOut" "ERROR x: y" ∈ t /\
    exists m, Logging.EvSend (Logging.client logglyWriter) m ∈ t /\
              Logging.fullMessage m = "ERROR x: y".
Proof.
  destruct (LoggingProofs.nonStopWriter_never_fails (world true)
              [Logging.errorOut; Logging.Loggly logglyWriter] "ERROR x: y")
    as (t & Hw & He & Hl).
  exists t. split; [exact Hw|]. split.
  - apply He. apply list_elem_of_here.
  - apply Hl. apply list_elem_of_further, list_elem_of_here.
Defined.

Lemma Configure_same_address_never_retried_witness :
  let st1 := Logging.Configure (world false) "token" cfg "1.0" "today" started in
  Logging.Configure (world true) "token" cfg "1.0" "today" st1 =
  Logging.log_line "DEBUG" "Logging configuration unchanged" [] st1.
Proof.
  apply (LoggingProofs.Configure_same_address_never_retried (world false) (world true)
           "token" cfg cfg "1.0" "today" "1.0" "today" started);
    by vm_compute.
Defined.

Example Configure_offline_then_online :
  let st1 := Logging.Configure (world false) "token" cfg "1.0" "today" started in
  let st2 := Logging.Configure (world true) "token" cfg "1.0" "today" st1 in
  Logging.outputs st2 = (Logging.errorOut, Logging.debugOut) /\
  Logging.logged st2 =
    [Logging.EvLog "ERROR" "Proxy never came online at %v, not logging to Loggly"
       ["127.0.0.1:8787"];
     Logging.EvLog "DEBUG" "Logging configuration unchanged" []].
Proof. by vm_compute. Qed.

Lemma Configure_outputs_witness :
  let st' := Logging.Configure (world true) "token" cfg "1.0" "today" started in
  Logging.lastAddr st' = "127.0.0.1:8787" /\
  exists lw,
    Logging.outputs st' =
      (Logging.NonStopWriter [Logging.errorOut; Logging.Loggly lw], Logging.debugOut) /\
    Logging.Token (Logging.client lw) = "token" /\
    Logging.Defaults (Logging.client lw) !! "hostname" = Some "hidden" /\
    Logging.HTTP (Logging.client lw) = Some "client via 127.0.0.1:8787" /\
    Logging.versionToLoggly lw = "1.0 (today)".
Proof.
  apply (proj2 (LoggingProofs.Configure_outputs (world true) "token" cfg "1.0" "today"
                  started)).
  by vm_compute.
Defined.

(** ** The proxy client *)

Example Run_with_failing_trust_store :
  ProxyRun.Run (outside (Ok false)) dumping runConfig =
  (Some "address already in use",
   [ProxyRun.EvInitCommonCerts; ProxyRun.EvIsInstalled;
    ProxyRun.EvDebugf "Adding CA cert to trust store as trusted root" [];
    ProxyRun.EvAddAsTrustedRoot;
    ProxyRun.EvDebugf "Unable to install CA Cert to trust store, man in the middling may not work.  Suggest running flashlight as sudo with the -install flag: %s"
      ["permission denied"];
    ProxyRun.EvWrap (ProxyRun.mkCryptoConfig "proxypk.pem" "cacert.pem" (Some "default"));
    ProxyRun.EvDebugf "About to start client (http) proxy at %s" ["127.0.0.1:8787"];
    ProxyRun.EvListenAndServe
      (ProxyRun.mkServer "127.0.0.1:8787" 0 0 "mitm over cacert.pem")]).
Proof. by vm_compute. Qed.

Lemma port_plays_no_part_witness :
  Proxy.isNotLoopback resolver "localhost:8080" = Some false /\
  Proxy.should_rewrite resolver dumping (request "localhost:8080") = Some false /\
  exists t,
    Proxy.Director resolver dumping (request "localhost:8080") =
      Some (request "localhost:8080", t) /\
    Proxy.rewrites t = [].
Proof.
  apply (HostProofs.port_plays_no_part resolver dumping (request "localhost:8080")
           "localhost" "8080").
  - apply (bool_decide_unpack _). by vm_compute.
  - left. reflexivity.
Defined.

Example headers_of_rewritten_request :
  Proxy.Director resolver dumping (request "example.com:80") =
  Some (Proxy.RewriteRequest fronted (request "example.com:80"),
        [Proxy.EvRewriteRequest (request "example.com:80");
         Proxy.EvDumpHeaders "Request" [("X-Original-Host", ["example.com:80"])]]).
Proof. by vm_compute. Qed.

(** ** statreporter *)

Import Statreporter.

Example dimensions_of_example :
  DimGroup_String (And (And (Dim "country" "ir") "os" "linux") "country" "us") =
    "country=ir,os=linux" /\
  DimGroup_String (Dim "a" "1,b=2") = DimGroup_String (And (Dim "a" "1") "b" "2").
Proof. by vm_compute. Qed.

Lemma And_keeps_existing_dimension_witness :
  And_in (rev (map_to_list (And (Dim "country" "ir") "os" "linux"))) "country" "us" =
    And (Dim "country" "ir") "os" "linux" ∪ Dim "country" "us" /\
  (forall k v, And (Dim "country" "ir") "os" "linux" !! k = Some v ->
     And_in (rev (map_to_list (And (Dim "country" "ir") "os" "linux"))) "country" "us"
       !! k = Some v) /\
  (And (Dim "country" "ir") "os" "linux" !! "country" = None ->
   And_in (rev (map_to_list (And (Dim "country" "ir") "os" "linux"))) "country" "us"
     !! "country" = Some "us").
Proof.
  apply (StatreporterProofs.And_keeps_existing_dimension
           (And (Dim "country" "ir") "os" "linux")
           (rev (map_to_list (And (Dim "country" "ir") "os" "linux")))
           "country" "us").
  symmetry. apply Permutation_rev.
Defined.

Lemma String_is_canonical_witness :
  let dg := And (Dim "country" "ir") "os" "linux" in
  String_in (rev (map_to_list dg).*1) dg = DimGroup_String dg /\
  (exists sorted,
     sorted ≡ₚ (map_to_list dg).*1 /\
     StronglySorted String.le sorted /\
     DimGroup_String dg =
       strings_Join
         ((fun k => k +:+ "=" +:+ default EmptyString (dg !! k)) <$> sorted) ",") /\
  (forall key value, DimGroup_String (Dim key value) = key +:+ "=" +:+ value).
Proof.
  apply (StatreporterProofs.String_is_canonical
           (And (Dim "country" "ir") "os" "linux")
           (rev (map_to_list (And (Dim "country" "ir") "os" "linux")).*1)).
  symmetry. apply Permutation_rev.
Defined.

(** Outcomes of two countries, in any order: Iran's accumulator is the
    outcome at 3, to which the one at 4 is added, twice for the
    connections succeeded; received again, the accumulator is added to
    itself.  The timer posts one report for each country. *)
Example outcomes_of_example :
  processTraversalStats statshub
    [Received (Some 1%positive); TimerFired [("ir", 1%positive)]]
    (Start senders) = Some reported /\
  exists s' s'' s3,
    processTraversalStats statshub
      [Received (Some 3%positive); Received (Some 2%positive);
       Received (Some 4%positive)] reported = Some s' /\
    map_to_list (traversalStats (rep s')) = [("us", 2%positive); ("ir", 3%positive)] /\
    outcomes (rep s') !!! 3%positive =
      mkTraversalOutcome "ir" 1100 1100 1100 1100 2100 1100 /\
    outcomes (rep s') !!! 4%positive = outcome_of "ir" 1000 /\
    processTraversalStats statshub [Received (Some 3%positive)] s' = Some s'' /\
    outcomes (rep s'') !!! 3%positive =
      mkTraversalOutcome "ir" 2200 2200 2200 2200 8400 2200 /\
    processTraversalStats statshub
      [TimerFired [("ir", 3%positive); ("us", 2%positive)]] s' = Some s3 /\
    done s3 =
      done reported ++
      [EvLog "DEBUG" "Posting traversal stats" [];
       EvLog "TRACE" "Reporting: %s" ["ir 1100 2100"];
       EvPostStats "ir 1100 2100";
       EvLog "DEBUG" "Posting traversal stats" [];
       EvLog "TRACE" "Reporting: %s" ["us 10 10"];
       EvPostStats "us 10 10";
       EvTimerReset] /\
    processTraversalStats statshub [Received None] s' = None.
Proof. split; [by vm_compute|]. do 3 eexists. repeat split; by vm_compute. Qed.


End MoreChecks.
